(** * goodflag-poc-deno: the signing-job store and its request handlers

    A shallow embedding of the [SigningStore] class (the store [main.ts]
    imports; its text follows the provider client in [backend/goodflag.ts])
    and of the handlers of [backend/main.ts] ([handleSign],
    [handleGetStatus], [handleDownload]), with the properties of the
    job-tracking layer proved about them; then of [backend/config.ts], of
    the request side of the provider client ([buildUrl],
    [sanitizeRecipient], the signer of [createWorkflow], [parseFileName])
    and of the routing of [main.ts] ([handler] and the [Deno.serve]
    callback).

    Conventions of the embedding:
    - a JS [string] is a [string] holding the bytes of its UTF-8 encoding:
      a code point above U+00FF shows as a byte from 196 on, and the
      characters [trim] strips and [new Headers] rejects are told by their
      encodings.  [toLowerCase] is defined on the ASCII range and leaves
      every other character as it is.  The handlers compare lowercased
      strings with ASCII literals only ("finished", "stopped", "refused",
      "canceled", "failed", and the suffix ".pdf").  The one character
      outside ASCII whose lowercase form is plain ASCII is the Kelvin sign,
      which gives k, and no literal has a k: the comparisons come out the
      same under the full Unicode mapping;
    - a JS [number] holding a millisecond time stamp is a [Z];
    - an optional field [f?: T] is an [option T];
    - a [Uint8Array] is a [list byte];
    - [Map<string, SigningJob>] is a [gmap string SigningJob.t];
    - [Date.now()] and [crypto.randomUUID()] are inputs of the operation
      that calls them;
    - the remote provider is a record of functions, one per call of
      [goodflag.ts], whose results are either a thrown value or a payload;
    - the store calls of other requests run before or after a handler, not
      in between.  The timer of the store may fire while a status poll
      awaits the provider: [handleGetStatusAmid] is the poll with the sweeps
      that run during its awaits, and [handleGetStatus] the poll during
      which the timer does not fire;
    - [config.frontendOrigin], which every response carries in a header, is
      a value [new Headers] accepts. *)

From Stdlib Require Import ZArith Ascii String List Strings.Byte.
From stdpp Require Import base option gmap strings list fin_maps.

Local Open Scope string_scope.
Local Open Scope Z_scope.

(** ** JS string primitives used by the code *)

Module JsString.

(** [s.lastIndexOf(c)] for a one-character search string: the index of the
    last occurrence, [-1] when there is none. *)
Fixpoint lastIndexOfFrom (c : ascii) (s : string) (i acc : Z) : Z :=
  match s with
  | EmptyString => acc
  | String a s' => lastIndexOfFrom c s' (i + 1) (if Ascii.eqb a c then i else acc)
  end.

Definition lastIndexOf (s : string) (c : ascii) : Z := lastIndexOfFrom c s 0 (-1).

Definition len (s : string) : Z := Z.of_nat (String.length s).

(** The index normalisation of [String.prototype.slice]: a negative index
    counts from the end, and everything is clamped to [0 .. length]. *)
Definition clampIndex (n k : Z) : Z :=
  if k <? 0 then Z.max (n + k) 0 else Z.min k n.

(** [s.slice(start, end)] *)
Definition slice (s : string) (start stop : Z) : string :=
  let b := clampIndex (len s) start in
  let e := clampIndex (len s) stop in
  substring (Z.to_nat b) (Z.to_nat (e - b)) s.

(** [s.slice(start)] *)
Definition sliceFrom (s : string) (start : Z) : string := slice s start (len s).

Definition lowerAscii (a : ascii) : ascii :=
  let n := nat_of_ascii a in
  if ((65 <=? n)%nat && (n <=? 90)%nat)%bool then ascii_of_nat (n + 32) else a.

(** [s.toLowerCase()] *)
Fixpoint toLowerCase (s : string) : string :=
  match s with
  | EmptyString => EmptyString
  | String a s' => String (lowerAscii a) (toLowerCase s')
  end.

(** [s.endsWith(suffix)] *)
Definition endsWith (s suffix : string) : bool :=
  let n := String.length s in
  let m := String.length suffix in
  ((m <=? n)%nat && String.eqb (substring (n - m) m s) suffix)%bool.

(** [s.includes(needle)] *)
Fixpoint includes (s needle : string) : bool :=
  (String.prefix needle s ||
   match s with
   | EmptyString => false
   | String _ s' => includes s' needle
   end)%bool.

(** The byte [a] has the value [n]. *)
Definition byte (a : ascii) (n : nat) : bool := Nat.eqb (nat_of_ascii a) n.

(** The characters [trim] strips, the WhiteSpace and LineTerminator code
    points of ECMAScript, by the length of their UTF-8 encoding.  One byte:
    U+0009 to U+000D and U+0020. *)
Definition whiteSpace1 (a : ascii) : bool := Ascii.is_space a.

(** Two bytes: U+00A0. *)
Definition whiteSpace2 (a b : ascii) : bool := byte a 194 && byte b 160.

(** Three bytes: U+1680; U+2000 to U+200A, U+2028, U+2029 and U+202F;
    U+205F; U+3000; U+FEFF. *)
Definition whiteSpace3 (a b c : ascii) : bool :=
  (byte a 225 && byte b 154 && byte c 128)
  || (byte a 226 && byte b 128
      && ((128 <=? nat_of_ascii c)%nat && (nat_of_ascii c <=? 138)%nat
          || byte c 168 || byte c 169 || byte c 175))
  || (byte a 226 && byte b 129 && byte c 159)
  || (byte a 227 && byte b 128 && byte c 128)
  || (byte a 239 && byte b 187 && byte c 191).

(** The rest of [s] after one character of a class at its start, when one
    starts there; the class is given by its encodings of one, two and three
    bytes. *)
Definition classAt (one : ascii → bool) (two : ascii → ascii → bool)
    (three : ascii → ascii → ascii → bool) (s : string) : option string :=
  match s with
  | String a s1 =>
      if one a then Some s1
      else
        match s1 with
        | String b s2 =>
            if two a b then Some s2
            else
              match s2 with
              | String c s3 => if three a b c then Some s3 else None
              | EmptyString => None
              end
        | EmptyString => None
        end
  | EmptyString => None
  end.

(** [s] without the characters of a class at its start: the scan goes on
    as long as [classAt] finds one. *)
Fixpoint strip (one : ascii → bool) (two : ascii → ascii → bool)
    (three : ascii → ascii → ascii → bool) (s : string) : string :=
  match s with
  | String a s1 =>
      if one a then strip one two three s1
      else
        match s1 with
        | String b s2 =>
            if two a b then strip one two three s2
            else
              match s2 with
              | String c s3 => if three a b c then strip one two three s3 else s
              | EmptyString => s
              end
        | EmptyString => s
        end
  | EmptyString => EmptyString
  end.

(** [s.trimStart()] *)
Definition trimStart (s : string) : string :=
  strip whiteSpace1 whiteSpace2 whiteSpace3 s.

(** [s.trimEnd()]: the same scan from the end, on the encodings read
    backwards. *)
Definition trimEnd (s : string) : string :=
  String.rev (strip whiteSpace1 (λ b a, whiteSpace2 a b) (λ c b a, whiteSpace3 a b c)
                (String.rev s)).

(** [s.trim()] *)
Definition trim (s : string) : string := trimEnd (trimStart s).

(** Truthiness of a [string | undefined] value: [undefined] and the empty
    string are falsy. *)
Definition truthy (o : option string) : bool :=
  match o with
  | Some s => negb (String.eqb s "")
  | None => false
  end.

(** [a || b] on strings, with [b] a string. *)
Definition orElse (a : option string) (b : string) : string :=
  match a with
  | Some s => if String.eqb s "" then b else s
  | None => b
  end.

(** [a ?? b] with [b] a string. *)
Definition nullish (a : option string) (b : string) : string :=
  match a with
  | Some s => s
  | None => b
  end.

End JsString.

(** ** The data model of [store.ts] *)

Inductive SigningJobStatus := pending | completed | error.

#[global] Instance SigningJobStatus_eq_dec : EqDecision SigningJobStatus.
Proof. solve_decision. Defined.

Module SigningJob.
Record t := mk {
  id : string;
  fileName : string;
  fileType : string;
  status : SigningJobStatus;
  createdAt : Z;
  updatedAt : Z;
  workflowId : option string;
  workflowStatus : option string;
  signedDocument : option (list byte);
  signedFileName : option string;
  signedContentType : option string;
  errorMessage : option string
}.
End SigningJob.

(** The argument of [completeJob]. *)
Module Payload.
Record t := mk {
  bytes : list byte;
  fileName : option string;
  contentType : option string
}.
End Payload.

Module SigningStore.

Import SigningJob.

(** The private fields [#jobs] and [#ttlMs]. *)
Record t := mk {
  jobs : gmap string SigningJob.t;
  ttlMs : Z
}.

Definition ONE_HOUR : Z := 1000 * 60 * 60.

(** [new SigningStore(ttlMs)] *)
Definition create (ttl : Z) : t := {| jobs := ∅; ttlMs := ttl |}.

(** [export const signingStore = new SigningStore()] *)
Definition signingStore : t := create ONE_HOUR.

Definition withJobs (st : t) (m : gmap string SigningJob.t) : t :=
  {| jobs := m; ttlMs := ttlMs st |}.

(** [createJob(fileName, fileType)]; [uuid] is what [crypto.randomUUID()]
    returns and [now] what [Date.now()] returns.  The result is the new
    record and the store holding it. *)
Definition createJob (uuid : string) (now : Z) (name type : string) (st : t)
  : SigningJob.t * t :=
  let job :=
    {| id := uuid; fileName := name; fileType := type; status := pending;
       createdAt := now; updatedAt := now;
       workflowId := None; workflowStatus := None;
       signedDocument := None; signedFileName := None;
       signedContentType := None; errorMessage := None |} in
  (job, withJobs st (<[uuid := job]> (jobs st))).

(** The three assignments of [setWorkflow] on the record found. *)
Definition assignWorkflow (wid : string) (ws : option string) (now : Z)
    (job : SigningJob.t) : SigningJob.t :=
  {| id := id job; fileName := fileName job; fileType := fileType job;
     status := status job; createdAt := createdAt job; updatedAt := now;
     workflowId := Some wid; workflowStatus := ws;
     signedDocument := signedDocument job; signedFileName := signedFileName job;
     signedContentType := signedContentType job;
     errorMessage := errorMessage job |}.

Definition assignWorkflowStatus (ws : string) (now : Z)
    (job : SigningJob.t) : SigningJob.t :=
  {| id := id job; fileName := fileName job; fileType := fileType job;
     status := status job; createdAt := createdAt job; updatedAt := now;
     workflowId := workflowId job; workflowStatus := Some ws;
     signedDocument := signedDocument job; signedFileName := signedFileName job;
     signedContentType := signedContentType job;
     errorMessage := errorMessage job |}.

(** [#defaultSignedName(original)] *)
Definition defaultSignedName (original : string) : string :=
  let dotIdx := JsString.lastIndexOf original "."%char in
  if dotIdx =? -1 then original +:+ "-signed.pdf"
  else
    let base := JsString.slice original 0 dotIdx in
    let ext := JsString.sliceFrom original dotIdx in
    base +:+ "-signed" +:+ ext.

Definition assignCompleted (payload : Payload.t) (now : Z)
    (job : SigningJob.t) : SigningJob.t :=
  {| id := id job; fileName := fileName job; fileType := fileType job;
     status := completed; createdAt := createdAt job; updatedAt := now;
     workflowId := workflowId job; workflowStatus := workflowStatus job;
     signedDocument := Some (Payload.bytes payload);
     signedFileName :=
       Some (JsString.nullish (Payload.fileName payload)
                            (defaultSignedName (fileName job)));
     signedContentType :=
       Some (JsString.nullish (Payload.contentType payload) (fileType job));
     errorMessage := errorMessage job |}.

Definition assignFailed (message : string) (now : Z)
    (job : SigningJob.t) : SigningJob.t :=
  {| id := id job; fileName := fileName job; fileType := fileType job;
     status := error; createdAt := createdAt job; updatedAt := now;
     workflowId := workflowId job; workflowStatus := workflowStatus job;
     signedDocument := signedDocument job; signedFileName := signedFileName job;
     signedContentType := signedContentType job;
     errorMessage := Some message |}.

(** The shape shared by the four mutators: look the record up, return at
    once when it is missing, otherwise mutate it in place. *)
Definition mutate (key : string) (f : SigningJob.t → SigningJob.t) (st : t) : t :=
  match jobs st !! key with
  | None => st
  | Some job => withJobs st (<[key := f job]> (jobs st))
  end.

(** [setWorkflow(id, workflowId, workflowStatus?)] *)
Definition setWorkflow (key wid : string) (ws : option string) (now : Z) : t → t :=
  mutate key (assignWorkflow wid ws now).

(** [setWorkflowStatus(id, workflowStatus)] *)
Definition setWorkflowStatus (key ws : string) (now : Z) : t → t :=
  mutate key (assignWorkflowStatus ws now).

(** [completeJob(id, payload)] *)
Definition completeJob (key : string) (payload : Payload.t) (now : Z) : t → t :=
  mutate key (assignCompleted payload now).

(** [failJob(id, errorMessage)] *)
Definition failJob (key message : string) (now : Z) : t → t :=
  mutate key (assignFailed message now).

(** [getJob(id)] *)
Definition getJob (key : string) (st : t) : option SigningJob.t := jobs st !! key.

(** The test of the loop of [#evictExpired]. *)
Definition expired (now ttl : Z) (job : SigningJob.t) : bool :=
  now - updatedAt job >? ttl.

(** One iteration of the loop over [this.#jobs.entries()]. *)
Definition evictStep (now ttl : Z) (m : gmap string SigningJob.t)
    (entry : string * SigningJob.t) : gmap string SigningJob.t :=
  if expired now ttl entry.2 then delete entry.1 m else m.

(** [#evictExpired()], the timer callback: the loop visits the entries of the
    map one after the other and deletes the expired ones as it goes.  A
    deletion removes the entry being visited only, so every entry is visited;
    the order of the visit, which a [gmap] does not keep, has no effect on
    the result ([evictExpired_lookup]). *)
Definition evictExpired (now : Z) (st : t) : t :=
  withJobs st (fold_left (evictStep now (ttlMs st)) (map_to_list (jobs st)) (jobs st)).

End SigningStore.

(** ** Sequences of store operations *)

(** One call on the store, by a handler or by the eviction timer, with the
    values the environment supplies to it. *)
Inductive StoreOp :=
| OpCreateJob (uuid : string) (now : Z) (fileName fileType : string)
| OpSetWorkflow (key workflowId : string) (workflowStatus : option string) (now : Z)
| OpSetWorkflowStatus (key workflowStatus : string) (now : Z)
| OpCompleteJob (key : string) (payload : Payload.t) (now : Z)
| OpFailJob (key errorMessage : string) (now : Z)
| OpEvictExpired (now : Z).

Definition applyOp (st : SigningStore.t) (op : StoreOp) : SigningStore.t :=
  match op with
  | OpCreateJob uuid now name type => (SigningStore.createJob uuid now name type st).2
  | OpSetWorkflow key wid ws now => SigningStore.setWorkflow key wid ws now st
  | OpSetWorkflowStatus key ws now => SigningStore.setWorkflowStatus key ws now st
  | OpCompleteJob key payload now => SigningStore.completeJob key payload now st
  | OpFailJob key message now => SigningStore.failJob key message now st
  | OpEvictExpired now => SigningStore.evictExpired now st
  end.

(** The store after the calls [ops], made in order from [st]. *)
Definition runOps (ops : list StoreOp) (st : SigningStore.t) : SigningStore.t :=
  fold_left applyOp ops st.

(** The four mutators the handlers call with a job id. *)
Definition isMutation (op : StoreOp) : bool :=
  match op with
  | OpSetWorkflow _ _ _ _ | OpSetWorkflowStatus _ _ _
  | OpCompleteJob _ _ _ | OpFailJob _ _ _ => true
  | OpCreateJob _ _ _ _ | OpEvictExpired _ => false
  end.

(** The calls that assign the [workflowId] field of the record under [key]:
    [setWorkflow] on that key, and [createJob] drawing that key again. *)
Definition assignsWorkflowId (key : string) (op : StoreOp) : bool :=
  match op with
  | OpSetWorkflow k _ _ _ => bool_decide (k = key)
  | OpCreateJob uuid _ _ _ => bool_decide (uuid = key)
  | _ => false
  end.

(** Every record is filed under its own [id]. *)
Definition keyed (st : SigningStore.t) : Prop :=
  ∀ key job, SigningStore.jobs st !! key = Some job → SigningJob.id job = key.

(** ** The provider client of [goodflag.ts], as the handlers see it *)

(** What a [throw] carries: an [Error] with its message, or anything else. *)
Inductive Thrown :=
| ErrorObject (message : string)
| NonError.

Definition typeError : Thrown :=
  ErrorObject "Cannot read properties of undefined".

Module Goodflag.

(** The [signerInfo] object [handleSign] builds. *)
Record SignerInfo := {
  email : string;
  firstName : option string;
  lastName : option string;
  preferredLocale : option string;
  comments : option string;
  consentPageId : option string;
  userId : option string
}.

Record CreateWorkflowOptions := {
  name : string;
  signer : SignerInfo
}.

Record GoodflagWorkflow := {
  id : string;
  workflowStatus : option string
}.

Record UploadWorkflowDocumentResult := {
  documentId : option string
}.

Record DownloadResult := {
  bytes : list byte;
  fileName : option string;
  contentType : string
}.

(** An uploaded [File]. *)
Record File := {
  fname : string;
  ftype : string;
  fbytes : list byte
}.

(** The remote calls. Each one is an HTTP exchange in the source; here it
    answers with the value it resolves to or the value it throws. *)
Record Api := {
  createWorkflow : CreateWorkflowOptions → Thrown + GoodflagWorkflow;
  uploadWorkflowDocument : string → File → Thrown + UploadWorkflowDocumentResult;
  applyDefaultSignatureField : string → Thrown + unit;
  startWorkflow : string → Thrown + GoodflagWorkflow;
  fetchWorkflow : string → Thrown + GoodflagWorkflow;
  downloadWorkflowDocuments : string → Thrown + DownloadResult
}.

End Goodflag.

(** ** A state and exception monad for the bodies of [try] blocks *)

Definition Try (S A : Type) : Type := S → (Thrown + A) * S.

#[global] Instance Try_ret {S} : MRet (Try S) := λ A a s, (inr a, s).

#[global] Instance Try_bind {S} : MBind (Try S) := λ A B f m s,
  match m s with
  | (inl e, s') => (inl e, s')
  | (inr a, s') => f a s'
  end.

(** [await call]: the payload, or the rejection rethrown. *)
Definition await {S A} (r : Thrown + A) : Try S A := λ s, (r, s).

Definition getState {S} : Try S S := λ s, (inr s, s).

Definition modifyState {S} (f : S → S) : Try S unit := λ s, (inr tt, f s).

(** [try { body } catch (error) { handler(error) }] *)
Definition tryCatch {S A} (body : Try S A) (handler : Thrown → Try S A) : Try S A :=
  λ s, match body s with
       | (inl e, s') => handler e s'
       | (inr a, s') => (inr a, s')
       end.

(** ** The HTTP layer of [main.ts] *)

Module Http.

(** The objects the handlers serialise with [JSON.stringify]. *)
Inductive Json :=
| ErrorJson (error : string)
| SignJson (jobId : string) (status : SigningJobStatus) (workflowId : string)
    (workflowStatus : string) (fileName : string)
| StatusJson (jobId : string) (status : SigningJobStatus) (updatedAt : Z)
    (fileName : string) (signedFileName workflowId workflowStatus error
    downloadUrl : option string).

Inductive Body :=
| JsonBody (data : Json)
| BytesBody (bytes : list byte).

(** A [Response]: its status, the two headers that depend on the job, and
    its body.  The CORS and cache headers are the same on every response
    and are left out. *)
Record Response := {
  status : Z;
  contentType : string;
  contentDisposition : option string;
  body : Body
}.

(** [jsonResponse(data, { status })]; the status is 200 when no [init] is
    given. *)
Definition jsonResponse (data : Json) (code : Z) : Response :=
  {| status := code; contentType := "application/json";
     contentDisposition := None; body := JsonBody data |}.

(** *** [new Headers(init)] on the values of the download *)

(** The [TypeError] of [new Headers]; its message is worded by the runtime
    and only logged by the server. *)
Definition invalidHeader : Thrown := ErrorObject "Invalid header value".

(** A ByteString has no code point above U+00FF: in the UTF-8 encoding, no
    byte from 196 on. *)
Fixpoint byteString (v : string) : bool :=
  match v with
  | String a v' => (nat_of_ascii a <? 196)%nat && byteString v'
  | EmptyString => true
  end.

(** HTTP whitespace: tab, line feed, carriage return and space. *)
Definition httpWhitespace (a : ascii) : bool :=
  JsString.byte a 9 || JsString.byte a 10 || JsString.byte a 13 || JsString.byte a 32.

Definition skipWhitespace (v : string) : string :=
  JsString.strip httpWhitespace (λ _ _, false) (λ _ _ _, false) v.

(** The normalisation of a header value: HTTP whitespace is stripped at
    both ends. *)
Definition httpTrim (v : string) : string :=
  String.rev (skipWhitespace (String.rev (skipWhitespace v))).

(** A header value holds no NUL, line feed or carriage return. *)
Fixpoint clean (v : string) : bool :=
  match v with
  | String a v' =>
      negb (JsString.byte a 0 || JsString.byte a 10 || JsString.byte a 13) && clean v'
  | EmptyString => true
  end.

(** What [new Headers] stores for the value [v], or the [TypeError] it
    throws: [v] is converted to a ByteString, normalised and validated. *)
Definition headerValue (v : string) : Thrown + string :=
  if byteString v && clean (httpTrim v) then inr (httpTrim v) else inl invalidHeader.

(** [new Headers({ Content-Type, Content-Disposition, ...corsHeaders })]:
    the two values that depend on the job, as stored. *)
Definition downloadHeaders (contentType contentDisposition : string)
  : Thrown + string * string :=
  match headerValue contentType, headerValue contentDisposition with
  | inr type, inr disposition => inr (type, disposition)
  | _, _ => inl invalidHeader
  end.

Inductive FormDataEntryValue :=
| EntryString (s : string)
| EntryFile (f : Goodflag.File).

(** [formData.get(name)]: the first entry of that name, or [null]. *)
Fixpoint formGet (form : list (string * FormDataEntryValue)) (field : string)
  : option FormDataEntryValue :=
  match form with
  | [] => None
  | (k, v) :: rest => if String.eqb k field then Some v else formGet rest field
  end.

(** A [Request] to [POST /api/sign]: its content-type header and what
    [req.formData()] resolves to or throws. *)
Record Request := {
  contentTypeHeader : option string;
  formData : Thrown + list (string * FormDataEntryValue)
}.

End Http.

Import Http.

(** The double quote character, for the content-disposition header. *)
Definition dquote : string := String (ascii_of_nat 34) EmptyString.

(** [getTextValue(value)] *)
Definition getTextValue (value : option FormDataEntryValue) : option string :=
  match value with
  | Some (EntryString s) =>
      let trimmed := JsString.trim s in
      if (0 <? JsString.len trimmed) then Some trimmed else None
  | _ => None
  end.

(** The condition of the PDF-only check of [handleSign]. *)
Definition notPdf (file : Goodflag.File) : bool :=
  JsString.truthy (Some (Goodflag.ftype file))
  && negb (String.eqb (Goodflag.ftype file) "application/pdf")
  && negb (JsString.endsWith (JsString.toLowerCase (Goodflag.fname file)) ".pdf").

(** [a ?? b] with [b] itself optional. *)
Definition nullishOr {A} (a b : option A) : option A :=
  match a with
  | Some _ => a
  | None => b
  end.

(** The remote statuses that fail a job. *)
Definition failedStatuses : list string := ["stopped"; "refused"; "canceled"; "failed"].

(** [list.includes(s)] *)
Definition listIncludes (l : list string) (s : string) : bool :=
  existsb (String.eqb s) l.

Section Handlers.

(** The provider as it answers during the request, the identifier
    [crypto.randomUUID()] returns, and the reading of [Date.now()] at each
    of the store calls of a handler, numbered in program order. *)
Variable api : Goodflag.Api.
Variable randomUUID : string.
Variable now : nat → Z.

(** The record the constant [job] of [handleSign] refers to: the object
    [createJob] returned is the one the map holds under its id, so a read
    of a field sees what the store calls have written since. *)
Definition live (job : SigningJob.t) (st : SigningStore.t) : SigningJob.t :=
  default job (SigningStore.getJob (SigningJob.id job) st).

(** The body of the [try] block of [handleSign]. *)
Definition startSigning (job : SigningJob.t) (file : Goodflag.File)
    (workflowName : string) (signerInfo : Goodflag.SignerInfo)
  : Try SigningStore.t Response :=
  workflow ← await (Goodflag.createWorkflow api
                      {| Goodflag.name := workflowName;
                         Goodflag.signer := signerInfo |});
  modifyState (SigningStore.setWorkflow (SigningJob.id job)
                 (Goodflag.id workflow) (Goodflag.workflowStatus workflow)
                 (now 1)) ;;
  uploadResult ← await (Goodflag.uploadWorkflowDocument api
                          (Goodflag.id workflow) file);
  (match Goodflag.documentId uploadResult with
   | Some documentId =>
       if JsString.truthy (Some documentId) then
         tryCatch (await (Goodflag.applyDefaultSignatureField api documentId))
                  (λ signatureError, mret tt)
       else mret tt
   | None => mret tt
   end) ;;
  startedWorkflow ← await (Goodflag.startWorkflow api (Goodflag.id workflow));
  (match Goodflag.workflowStatus startedWorkflow with
   | Some ws =>
       if JsString.truthy (Some ws) then
         modifyState (SigningStore.setWorkflowStatus (SigningJob.id job) ws (now 2))
       else mret tt
   | None => mret tt
   end) ;;
  st ← getState;
  mret (jsonResponse
          (SignJson (SigningJob.id (live job st))
                    (SigningJob.status (live job st))
                    (Goodflag.id workflow)
                    (JsString.nullish
                       (nullishOr (Goodflag.workflowStatus startedWorkflow)
                                  (Goodflag.workflowStatus workflow))
                       "started")
                    (SigningJob.fileName (live job st)))
          200).

(** The [catch] block of [handleSign]. *)
Definition signingFailed (job : SigningJob.t) (err : Thrown)
  : Try SigningStore.t Response :=
  let message := match err with
                 | ErrorObject m => m
                 | NonError => "Unknown error"
                 end in
  modifyState (SigningStore.failJob (SigningJob.id job) message (now 3)) ;;
  mret (jsonResponse (ErrorJson "Failed to create Goodflag workflow") 502).

(** [handleSign(req)]: the response, or what the handler throws, and the
    store it leaves. *)
Definition handleSign (req : Request) (st : SigningStore.t)
  : (Thrown + Response) * SigningStore.t :=
  let contentType := JsString.nullish (contentTypeHeader req) "" in
  if negb (JsString.includes contentType "multipart/form-data") then
    (inr (jsonResponse (ErrorJson "Request must be multipart/form-data") 400), st)
  else
    match formData req with
    | inl e => (inl e, st)
    | inr form =>
        match formGet form "file" with
        | Some (EntryFile file) =>
            if notPdf file then
              (inr (jsonResponse (ErrorJson "Only PDF files are supported") 400), st)
            else
              match getTextValue (formGet form "signer_email") with
              | None =>
                  (inr (jsonResponse (ErrorJson "Signer email is required") 400), st)
              | Some signerEmail =>
                  let signerInfo :=
                    {| Goodflag.email := signerEmail;
                       Goodflag.firstName := getTextValue (formGet form "signer_first_name");
                       Goodflag.lastName := getTextValue (formGet form "signer_last_name");
                       Goodflag.preferredLocale := getTextValue (formGet form "signer_locale");
                       Goodflag.comments := getTextValue (formGet form "signer_comments");
                       Goodflag.consentPageId :=
                         getTextValue (formGet form "signer_consent_page_id");
                       Goodflag.userId := getTextValue (formGet form "signer_user_id") |} in
                  let workflowName :=
                    JsString.orElse (getTextValue (formGet form "workflow_name"))
                        (JsString.orElse (Some (Goodflag.fname file))
                                         "Document signature workflow") in
                  let '(job, st1) :=
                    SigningStore.createJob randomUUID (now 0%nat)
                      (JsString.orElse (Some (Goodflag.fname file)) "document.pdf")
                      (JsString.orElse (Some (Goodflag.ftype file)) "application/pdf")
                      st in
                  tryCatch (startSigning job file workflowName signerInfo)
                           (signingFailed job) st1
              end
        | _ => (inr (jsonResponse (ErrorJson "File field is required") 400), st)
        end
    end.

End Handlers.

Section StatusHandler.

Variable api : Goodflag.Api.
Variable now : nat → Z.

(** The state the [try] block of [handleGetStatus] works on: the store and
    the variable [job], which the non-null assertions [getJob(jobId)!] may
    leave [undefined]. *)
Definition Poll : Type := SigningStore.t * option SigningJob.t.

(** A read of a property of [job]: a [TypeError] when it is [undefined]. *)
Definition theJob : Try Poll SigningJob.t :=
  λ s, match s.2 with
       | Some job => (inr job, s)
       | None => (inl typeError, s)
       end.

(** A call on [signingStore]. *)
Definition onStore (f : SigningStore.t → SigningStore.t) : Try Poll unit :=
  modifyState (λ s : Poll, (f s.1, s.2)).

(** [job = signingStore.getJob(jobId)!] *)
Definition reloadJob (jobId : string) : Try Poll unit :=
  modifyState (λ s : Poll, (s.1, SigningStore.getJob jobId s.1)).

(** The first statement of the [try] block after the fetch: when the fetched
    workflow has a status, record it and read the job again. *)
Definition recordStatus (jobId : string) (workflow : Goodflag.GoodflagWorkflow)
  : Try Poll unit :=
  match Goodflag.workflowStatus workflow with
  | Some ws =>
      if JsString.truthy (Some ws) then
        job ← theJob;
        onStore (SigningStore.setWorkflowStatus (SigningJob.id job) ws (now 0%nat)) ;;
        reloadJob jobId
      else mret tt
  | None => mret tt
  end.

(** The [if] / [else if] on the normalized status.  A [workflowId] that is
    [undefined] would reach the provider as the text "undefined"; the guard of
    the block and the store calls rule that out. *)
Definition settle (jobId : string) (workflow : Goodflag.GoodflagWorkflow)
  : Try Poll unit :=
  let normalizedStatus := JsString.toLowerCase <$> Goodflag.workflowStatus workflow in
  if bool_decide (normalizedStatus = Some "finished") then
    job ← theJob;
    signed ← await (Goodflag.downloadWorkflowDocuments api
                      (JsString.nullish (SigningJob.workflowId job) "undefined"));
    job ← theJob;
    onStore (SigningStore.completeJob (SigningJob.id job)
               {| Payload.bytes := Goodflag.bytes signed;
                  Payload.fileName := Goodflag.fileName signed;
                  Payload.contentType := Some (Goodflag.contentType signed) |}
               (now 1%nat)) ;;
    reloadJob jobId
  else if JsString.truthy normalizedStatus
          && listIncludes failedStatuses (JsString.nullish normalizedStatus "")
  then
    job ← theJob;
    onStore (SigningStore.failJob (SigningJob.id job)
               ("Workflow " +:+ JsString.nullish (Goodflag.workflowStatus workflow)
                                                "undefined")
               (now 1%nat)) ;;
    reloadJob jobId
  else mret tt.

(** The body of the [try] block of [handleGetStatus]. *)
Definition refreshWorkflow (jobId : string) : Try Poll unit :=
  job ← theJob;
  workflow ← await (Goodflag.fetchWorkflow api
                      (JsString.nullish (SigningJob.workflowId job) "undefined"));
  recordStatus jobId workflow ;;
  settle jobId workflow.

(** The summary [handleGetStatus] answers with. *)
Definition statusSummary (job : SigningJob.t) : Response :=
  jsonResponse
    (StatusJson (SigningJob.id job) (SigningJob.status job)
       (SigningJob.updatedAt job) (SigningJob.fileName job)
       (SigningJob.signedFileName job) (SigningJob.workflowId job)
       (SigningJob.workflowStatus job) (SigningJob.errorMessage job)
       (if bool_decide (SigningJob.status job = completed)
        then Some ("/api/sign/" +:+ SigningJob.id job +:+ "/file")
        else None))
    200.

(** [handleGetStatus(jobId)] *)
Definition handleGetStatus (jobId : string) (st : SigningStore.t)
  : (Thrown + Response) * SigningStore.t :=
  match SigningStore.getJob jobId st with
  | None => (inr (jsonResponse (ErrorJson "Signing job not found") 404), st)
  | Some job0 =>
      let after : Poll :=
        if bool_decide (SigningJob.status job0 = pending)
           && JsString.truthy (SigningJob.workflowId job0)
        then (tryCatch (refreshWorkflow jobId) (λ err, mret tt) (st, Some job0)).2
        else (st, Some job0) in
      match after.2 with
      | Some job => (inr (statusSummary job), after.1)
      | None => (inl typeError, after.1)
      end
  end.

(** [handleDownload(jobId)]: the response, or the [TypeError] of
    [new Headers]. *)
Definition handleDownload (jobId : string) (st : SigningStore.t) : Thrown + Response :=
  match SigningStore.getJob jobId st with
  | None => inr (jsonResponse (ErrorJson "Signing job not found") 404)
  | Some job =>
      if negb (bool_decide (SigningJob.status job = completed))
         || negb (bool_decide (is_Some (SigningJob.signedDocument job)))
      then inr (jsonResponse (ErrorJson "Signed document is not available yet") 409)
      else
        match SigningJob.signedDocument job with
        | None =>
            inr (jsonResponse (ErrorJson "Signed document is not available yet") 409)
        | Some signedBytes =>
            match downloadHeaders
                    (JsString.orElse (SigningJob.signedContentType job)
                       (JsString.orElse (Some (SigningJob.fileType job))
                                        "application/pdf"))
                    ("attachment; filename=" +:+ dquote
                     +:+ JsString.nullish (SigningJob.signedFileName job)
                                          (SigningJob.fileName job)
                     +:+ dquote) with
            | inl e => inl e
            | inr headers =>
                inr {| status := 200;
                       contentType := headers.1;
                       contentDisposition := Some headers.2;
                       body := BytesBody signedBytes |}
            end
        end
  end.

(** *** The timer during a poll *)

(** The timer of the store fires between the turns of the event loop, and
    so also while [handleGetStatus] awaits the provider.  [sweeps k] lists
    the readings of [Date.now()] of the sweeps that run during the [k]-th
    [await] of the handler, [0] for the fetch and [1] for the download. *)
Variable sweeps : nat → list Z.

Definition timerFires (times : list Z) (st : SigningStore.t) : SigningStore.t :=
  fold_left (λ st' time, SigningStore.evictExpired time st') times st.

(** [await call] with the timer firing in the meantime: the payload, or the
    rejection rethrown, on the store as the sweeps leave it. *)
Definition awaitAmid {A} (k : nat) (r : Thrown + A) : Try Poll A :=
  λ s, (r, (timerFires (sweeps k) s.1, s.2)).

(** The [if] / [else if] on the normalized status, as [settle]. *)
Definition settleAmid (jobId : string) (workflow : Goodflag.GoodflagWorkflow)
  : Try Poll unit :=
  let normalizedStatus := JsString.toLowerCase <$> Goodflag.workflowStatus workflow in
  if bool_decide (normalizedStatus = Some "finished") then
    job ← theJob;
    signed ← awaitAmid 1 (Goodflag.downloadWorkflowDocuments api
                            (JsString.nullish (SigningJob.workflowId job) "undefined"));
    job ← theJob;
    onStore (SigningStore.completeJob (SigningJob.id job)
               {| Payload.bytes := Goodflag.bytes signed;
                  Payload.fileName := Goodflag.fileName signed;
                  Payload.contentType := Some (Goodflag.contentType signed) |}
               (now 1%nat)) ;;
    reloadJob jobId
  else if JsString.truthy normalizedStatus
          && listIncludes failedStatuses (JsString.nullish normalizedStatus "")
  then
    job ← theJob;
    onStore (SigningStore.failJob (SigningJob.id job)
               ("Workflow " +:+ JsString.nullish (Goodflag.workflowStatus workflow)
                                                "undefined")
               (now 1%nat)) ;;
    reloadJob jobId
  else mret tt.

(** The body of the [try] block, as [refreshWorkflow]. *)
Definition refreshWorkflowAmid (jobId : string) : Try Poll unit :=
  job ← theJob;
  workflow ← awaitAmid 0 (Goodflag.fetchWorkflow api
                            (JsString.nullish (SigningJob.workflowId job) "undefined"));
  recordStatus jobId workflow ;;
  settleAmid jobId workflow.

(** [handleGetStatus(jobId)] with the timer firing during its awaits. *)
Definition handleGetStatusAmid (jobId : string) (st : SigningStore.t)
  : (Thrown + Response) * SigningStore.t :=
  match SigningStore.getJob jobId st with
  | None => (inr (jsonResponse (ErrorJson "Signing job not found") 404), st)
  | Some job0 =>
      let after : Poll :=
        if bool_decide (SigningJob.status job0 = pending)
           && JsString.truthy (SigningJob.workflowId job0)
        then (tryCatch (refreshWorkflowAmid jobId) (λ err, mret tt) (st, Some job0)).2
        else (st, Some job0) in
      match after.2 with
      | Some job => (inr (statusSummary job), after.1)
      | None => (inl typeError, after.1)
      end
  end.

End StatusHandler.

(** ** The environment and [config.ts] *)

Module Config.

(** The signature field geometry; [num] is the type of JS numbers. *)
Record SignatureField (num : Type) := {
  page : num;
  x : num;
  y : num;
  width : num;
  height : num
}.

Record AppConfig (num : Type) := {
  goodflagBaseUrl : string;
  goodflagApiKey : string;
  goodflagUserId : string;
  goodflagSignatureProfileId : string;
  goodflagConsentPageId : option string;
  defaultLocale : string;
  signatureField : SignatureField num;
  port : num;
  frontendOrigin : string
}.

Arguments page {num}.
Arguments x {num}.
Arguments y {num}.
Arguments width {num}.
Arguments height {num}.
Arguments goodflagBaseUrl {num}.
Arguments goodflagApiKey {num}.
Arguments goodflagUserId {num}.
Arguments goodflagSignatureProfileId {num}.
Arguments goodflagConsentPageId {num}.
Arguments defaultLocale {num}.
Arguments signatureField {num}.
Arguments port {num}.
Arguments frontendOrigin {num}.

(** [getEnv(key, fallback)] on the environment [env] ([Deno.env.get] is the
    lookup): the value, or the thrown [Error]. *)
Definition getEnv (env : gmap string string) (key : string)
    (fallback : option string) : Thrown + string :=
  match env !! key with
  | Some value => inr value
  | None =>
      match fallback with
      | Some value => inr value
      | None => inl (ErrorObject ("Missing required environment variable: " +:+ key))
      end
  end.

(** The evaluation of the [config] object literal, property by property in
    source order; the first [getEnv] that throws ends it.  [Number] is the JS
    conversion of a string to a number, which never throws. *)
Definition config {num : Type} (Number : string → num) (env : gmap string string)
  : Thrown + AppConfig num :=
  match getEnv env "GOODFLAG_BASE_URL" None with
  | inl e => inl e
  | inr baseUrl =>
  match getEnv env "GOODFLAG_API_KEY" None with
  | inl e => inl e
  | inr apiKey =>
  match getEnv env "GOODFLAG_USER_ID" None with
  | inl e => inl e
  | inr userId =>
  match getEnv env "GOODFLAG_SIGNATURE_PROFILE_ID" None with
  | inl e => inl e
  | inr profileId =>
  match getEnv env "PORT" (Some "8000") with
  | inl e => inl e
  | inr portText =>
      inr {| goodflagBaseUrl := baseUrl;
             goodflagApiKey := apiKey;
             goodflagUserId := userId;
             goodflagSignatureProfileId := profileId;
             goodflagConsentPageId := env !! "GOODFLAG_CONSENT_PAGE_ID";
             defaultLocale := JsString.nullish (env !! "GOODFLAG_DEFAULT_LOCALE") "en";
             signatureField :=
               {| page := Number (JsString.nullish (env !! "SIGNATURE_FIELD_PAGE") "-1");
                  x := Number (JsString.nullish (env !! "SIGNATURE_FIELD_X") "390");
                  y := Number (JsString.nullish (env !! "SIGNATURE_FIELD_Y") "710");
                  width := Number (JsString.nullish (env !! "SIGNATURE_FIELD_WIDTH") "150");
                  height := Number (JsString.nullish (env !! "SIGNATURE_FIELD_HEIGHT") "80") |};
             port := Number portText;
             frontendOrigin := JsString.nullish (env !! "FRONTEND_ORIGIN") "*" |}
  end end end end end.

End Config.

(** ** The request side of the provider client of [goodflag.ts] *)

Module Client.

(** A JS object with string values, by its own properties; a property may
    hold [undefined]. *)
Abbreviation JsObject := (gmap string (option string)).

(** [o[key]]: [undefined] for a missing property too. *)
Definition prop (o : JsObject) (key : string) : option string :=
  match o !! key with
  | Some value => value
  | None => None
  end.

(** [{ ...base, ...over }] *)
Definition spread (base over : JsObject) : JsObject := over ∪ base.

(** [s.startsWith(p)] *)
Definition startsWith (s p : string) : bool := String.prefix p s.

(** [buildUrl(path)]; [newURL input base] is [new URL(input, base).toString()],
    which throws on what is no URL. *)
Definition buildUrl {A : Type} (newURL : string → string → A)
    (goodflagBaseUrl path : string) : A :=
  let base := if JsString.endsWith goodflagBaseUrl "/"
              then goodflagBaseUrl else goodflagBaseUrl +:+ "/" in
  let normalized := if startsWith path "/" then JsString.sliceFrom path 1 else path in
  newURL normalized base.

Definition optionalKeys : list string :=
  ["firstName"; "lastName"; "phoneNumber"; "preferredLocale"; "comments";
   "consentPageId"; "organizationId"; "country"].

(** One turn of the loop of [sanitizeRecipient]. *)
Definition copyIfSet (recipient payload : JsObject) (key : string) : JsObject :=
  let value := prop recipient key in
  if JsString.truthy value then <[key := value]> payload else payload.

(** [sanitizeRecipient(recipient)] *)
Definition sanitizeRecipient (recipient : JsObject) : JsObject :=
  fold_left (copyIfSet recipient) optionalKeys {[ "email" := prop recipient "email" ]}.

(** The constant [signer] of [createWorkflow], the recipient of the request
    body, for the configured default locale and consent page. *)
Definition createWorkflowSigner (defaultLocale : string)
    (goodflagConsentPageId : option string) (signer : JsObject) : JsObject :=
  let sanitized :=
    sanitizeRecipient (spread {[ "preferredLocale" := Some defaultLocale ]} signer) in
  if JsString.truthy goodflagConsentPageId
     && negb (JsString.truthy (prop sanitized "consentPageId"))
  then <["consentPageId" := goodflagConsentPageId]> sanitized
  else sanitized.

(** The object literal [signerInfo] of [handleSign]: every one of its seven
    properties is set, to [undefined] where the form gave no text. *)
Definition signerObject (info : Goodflag.SignerInfo) : JsObject :=
  <["email" := Some (Goodflag.email info)]>
  (<["firstName" := Goodflag.firstName info]>
  (<["lastName" := Goodflag.lastName info]>
  (<["preferredLocale" := Goodflag.preferredLocale info]>
  (<["comments" := Goodflag.comments info]>
  (<["consentPageId" := Goodflag.consentPageId info]>
  (<["userId" := Goodflag.userId info]> ∅)))))).

(** *** [parseFileName] and its regular expression *)

Definition dq : ascii := ascii_of_nat 34.

(** The literal [lit] at the start of [s], letters compared without case
    (the [i] flag): what follows it. *)
Fixpoint stripPrefixCI (lit s : string) : option string :=
  match lit, s with
  | EmptyString, _ => Some s
  | String a lit', String b s' =>
      if Ascii.eqb (JsString.lowerAscii a) (JsString.lowerAscii b)
      then stripPrefixCI lit' s' else None
  | String _ _, EmptyString => None
  end.

(** The longest run of characters of a class at the start of [s]. *)
Fixpoint run (inClass : ascii → bool) (s : string) : string :=
  match s with
  | String a s' => if inClass a then String a (run inClass s') else EmptyString
  | EmptyString => EmptyString
  end.

Definition nonEmpty (s : string) : option string :=
  match s with
  | EmptyString => None
  | String _ _ => Some s
  end.

(** The first alternative at the start of [s]: the literal [filename*=UTF-8]
    and two apostrophes, then the capture: one or more characters other than
    a semicolon, as many as there are. *)
Definition extendedForm (s : string) : option string :=
  match stripPrefixCI "filename*=UTF-8''" s with
  | Some rest => nonEmpty (run (λ c, negb (Ascii.eqb c ";")) rest)
  | None => None
  end.

(** The second alternative at the start of [s]: the literal [filename=], an
    optional double quote, the capture (one or more characters that are
    neither a semicolon nor a double quote, as many as there are), and an
    optional double quote.  When the class fails after the optional quote
    was taken, it fails on the quote itself without it, so no backtracking
    changes the outcome. *)
Definition plainForm (s : string) : option string :=
  match stripPrefixCI "filename=" s with
  | Some rest =>
      let unquoted := match rest with
                      | String c rest' => if Ascii.eqb c dq then rest' else rest
                      | EmptyString => rest
                      end in
      nonEmpty (run (λ c, negb (Ascii.eqb c ";") && negb (Ascii.eqb c dq)) unquoted)
  | None => None
  end.

(** [disposition.match(...)] followed by [match[1] ?? match[2]]: the capture
    of the leftmost match, the first alternative tried first at each start. *)
Fixpoint fileNameMatch (s : string) : option string :=
  match nullishOr (extendedForm s) (plainForm s) with
  | Some capture => Some capture
  | None =>
      match s with
      | String _ s' => fileNameMatch s'
      | EmptyString => None
      end
  end.

(** [parseFileName(disposition)]; [decodeURIComponent] is the JS function,
    which throws on a malformed escape. *)
Definition parseFileName (decodeURIComponent : string → Thrown + string)
    (disposition : option string) : option string :=
  if negb (JsString.truthy disposition) then None
  else
    match fileNameMatch (JsString.nullish disposition "") with
    | None => None
    | Some encoded =>
        match decodeURIComponent encoded with
        | inr decoded => Some decoded
        | inl _ => Some encoded
        end
    end.

End Client.

(** ** Routing: [handler] and the [Deno.serve] callback of [main.ts] *)

Module Router.

(** [s.split(sep)] for a one-character separator. *)
Fixpoint split (sep : ascii) (s : string) : list string :=
  match s with
  | EmptyString => [EmptyString]
  | String a s' =>
      if Ascii.eqb a sep then EmptyString :: split sep s'
      else match split sep s' with
           | piece :: pieces => String a piece :: pieces
           | [] => [String a EmptyString]
           end
  end.

(** [parts.filter(Boolean)] *)
Definition filterBoolean (parts : list string) : list string :=
  filter (λ piece, piece ≠ EmptyString) parts.

(** What the server answers: a handler's response, the empty 204 of a
    preflight, or the health report with [performance.now()]. *)
Inductive Reply (num : Type) :=
| Preflight
| Health (uptime : num)
| Handled (response : Response).

Arguments Preflight {num}.
Arguments Health {num}.
Arguments Handled {num}.

(** An incoming request: method, [new URL(req.url).pathname], and the part
    [handleSign] reads. *)
Record Incoming := {
  method : string;
  pathname : string;
  upload : Request
}.

Section Serve.

Context {num : Type}.
Variable api : Goodflag.Api.
Variable randomUUID : string.
Variable now : nat → Z.
Variable sweeps : nat → list Z.
Variable uptime : num.

Definition reply (result : (Thrown + Response) * SigningStore.t)
  : (Thrown + Reply num) * SigningStore.t :=
  (match result.1 with
   | inl e => inl e
   | inr response => inr (Handled response)
   end, result.2).

Definition notFound (st : SigningStore.t) : (Thrown + Reply num) * SigningStore.t :=
  (inr (Handled (jsonResponse (ErrorJson "Not found") 404)), st).

(** [handler(req)]; the status poll runs with the timer firing during its
    awaits. *)
Definition handler (req : Incoming) (st : SigningStore.t)
  : (Thrown + Reply num) * SigningStore.t :=
  if String.eqb (method req) "OPTIONS" then (inr Preflight, st)
  else if String.eqb (method req) "GET" && String.eqb (pathname req) "/healthz"
  then (inr (Health uptime), st)
  else if String.eqb (method req) "POST" && String.eqb (pathname req) "/api/sign"
  then reply (handleSign api randomUUID now (upload req) st)
  else if Client.startsWith (pathname req) "/api/sign/" then
    let parts := filterBoolean (split "/" (pathname req)) in
    match parts with
    | [_; _; jobId] =>
        if String.eqb (method req) "GET"
        then reply (handleGetStatusAmid api now sweeps jobId st)
        else notFound st
    | [_; _; jobId; last] =>
        if String.eqb last "file" && String.eqb (method req) "GET"
        then reply (handleDownload jobId st, st)
        else notFound st
    | _ => notFound st
    end
  else notFound st.

(** The callback given to [Deno.serve]: [handler(req).catch(...)]. *)
Definition serve (req : Incoming) (st : SigningStore.t) : Reply num * SigningStore.t :=
  match handler req st with
  | (inr answer, st') => (answer, st')
  | (inl _, st') =>
      (Handled (jsonResponse (ErrorJson "Internal server error") 500), st')
  end.

End Serve.

End Router.

(** ** Predicates the properties are stated with *)

(** The character [c] occurs in [s]. *)
Fixpoint occurs (c : ascii) (s : string) : bool :=
  match s with
  | EmptyString => false
  | String a s' => Ascii.eqb a c || occurs c s'
  end.

(** A property of records holds of every record of the store. *)
Definition everyJob (P : SigningJob.t → Prop) (st : SigningStore.t) : Prop :=
  ∀ key job, SigningStore.getJob key st = Some job → P job.

(** The claim that a finished job keeps its status: no mutation call changes
    the status of a job that is [completed] or [error]. *)
Definition statusIsFinal : Prop :=
  ∀ (st : SigningStore.t) (key : string) (job job' : SigningJob.t) (op : StoreOp),
    SigningStore.getJob key st = Some job →
    SigningJob.status job ≠ pending →
    isMutation op = true →
    SigningStore.getJob key (applyOp st op) = Some job' →
    SigningJob.status job' = SigningJob.status job.

(** The claimed correspondence between the optional fields and the status. *)
Definition fieldsMatchStatus (job : SigningJob.t) : Prop :=
  (is_Some (SigningJob.signedDocument job) ↔ SigningJob.status job = completed)
  ∧ (is_Some (SigningJob.errorMessage job) ↔ SigningJob.status job = error).

(** What the store does keep: a completed job has its document, a failed job
    has its message, and a pending job has neither. *)
Definition fieldsCoverStatus (job : SigningJob.t) : Prop :=
  (SigningJob.status job = completed → is_Some (SigningJob.signedDocument job))
  ∧ (SigningJob.status job = error → is_Some (SigningJob.errorMessage job))
  ∧ (SigningJob.status job = pending →
       SigningJob.signedDocument job = None ∧ SigningJob.errorMessage job = None).

(** The claim that a [workflowId], once set, survives every store call. *)
Definition workflowIdIsFixed : Prop :=
  ∀ (st : SigningStore.t) (key wid : string) (job job' : SigningJob.t) (op : StoreOp),
    SigningStore.getJob key st = Some job →
    SigningJob.workflowId job = Some wid →
    SigningStore.getJob key (applyOp st op) = Some job' →
    SigningJob.workflowId job' = Some wid.

(** The payload [handleGetStatus] hands to [completeJob]. *)
Definition signedPayload (signed : Goodflag.DownloadResult) : Payload.t :=
  {| Payload.bytes := Goodflag.bytes signed;
     Payload.fileName := Goodflag.fileName signed;
     Payload.contentType := Some (Goodflag.contentType signed) |}.



(** ** Sample inputs, used to run the operations on concrete values *)

Definition samplePayload : Payload.t :=
  {| Payload.bytes := [x25; x50; x44; x46];
     Payload.fileName := None;
     Payload.contentType := None |}.

(** One pending job ["j1"] for [report.pdf], created at time 0. *)
Definition pendingStore : SigningStore.t :=
  runOps [OpCreateJob "j1" 0 "report.pdf" "application/pdf"]
         SigningStore.signingStore.

(** The same job after [setWorkflow("j1", "wf-1", "draft")] at time 1. *)
Definition startedStore : SigningStore.t :=
  applyOp pendingStore (OpSetWorkflow "j1" "wf-1" (Some "draft") 1).

(** The same job after [completeJob("j1", { bytes })] at time 2. *)
Definition completedStore : SigningStore.t :=
  applyOp startedStore (OpCompleteJob "j1" samplePayload 2).

(** Job ["j1"] completed with a payload whose content type is the empty
    string, as [completeJob("j1", { bytes, contentType: "" })] at time 2
    leaves it. *)
Definition untypedStore : SigningStore.t :=
  applyOp pendingStore
    (OpCompleteJob "j1"
       {| Payload.bytes := [x25; x50; x44; x46]; Payload.fileName := None;
          Payload.contentType := Some "" |} 2).

(** Job ["j1"] for an upload named in Japanese, completed with a payload
    that names no file: the store derives the signed name from the
    original one. *)
Definition unicodeStore : SigningStore.t :=
  runOps [OpCreateJob "j1" 0 "日本語.pdf" "application/pdf";
          OpCompleteJob "j1" samplePayload 2]
         SigningStore.signingStore.

(** Job ["j1"] completed with a payload whose content type is one space. *)
Definition blankTypeStore : SigningStore.t :=
  applyOp pendingStore
    (OpCompleteJob "j1"
       {| Payload.bytes := [x25; x50; x44; x46]; Payload.fileName := None;
          Payload.contentType := Some " " |} 2).

(** A timer that does not fire during the awaits of a poll. *)
Definition quietTimer (k : nat) : list Z := [].

(** A timer that fires once while the poll awaits [fetchWorkflow], a
    millisecond after the hour that follows the last write to job ["j1"] of
    [startedStore]. *)
Definition sweepingTimer (k : nat) : list Z :=
  match k with
  | O => [3600002]
  | S _ => []
  end.

(** U+00A0, the no-break space, in UTF-8. *)
Definition noBreakSpace : string :=
  String (ascii_of_nat 194) (String (ascii_of_nat 160) EmptyString).

(** A provider whose calls all resolve, except the placement of the
    signature field, with the given statuses after create, start and fetch. *)
Definition sampleApi (afterCreate afterStart fetched : option string) : Goodflag.Api :=
  {| Goodflag.createWorkflow := λ _,
       inr {| Goodflag.id := "wf-1"; Goodflag.workflowStatus := afterCreate |};
     Goodflag.uploadWorkflowDocument := λ _ _,
       inr {| Goodflag.documentId := Some "doc-1" |};
     Goodflag.applyDefaultSignatureField := λ _,
       inl (ErrorObject "Goodflag signature field placement failed (500): ");
     Goodflag.startWorkflow := λ _,
       inr {| Goodflag.id := "wf-1"; Goodflag.workflowStatus := afterStart |};
     Goodflag.fetchWorkflow := λ _,
       inr {| Goodflag.id := "wf-1"; Goodflag.workflowStatus := fetched |};
     Goodflag.downloadWorkflowDocuments := λ _,
       inr {| Goodflag.bytes := [x25; x50; x44; x46];
              Goodflag.fileName := None;
              Goodflag.contentType := "application/pdf" |} |}.

(** An upload of [invoice.pdf] for signer [ann@example.org]. *)
Definition sampleRequest : Request :=
  {| contentTypeHeader := Some "multipart/form-data; boundary=x";
     formData :=
       inr [("file", EntryFile {| Goodflag.fname := "invoice.pdf";
                                  Goodflag.ftype := "application/pdf";
                                  Goodflag.fbytes := [x25; x50; x44; x46] |});
            ("signer_email", EntryString " ann@example.org ")] |}.

(** A clock that reads 10, 11, 12, ... at the successive store calls. *)
Definition sampleClock (n : nat) : Z := 10 + Z.of_nat n.

(** ** Further predicates and sample inputs *)

(** The job id a mutation call is made with. *)
Definition opKey (op : StoreOp) : option string :=
  match op with
  | OpSetWorkflow key _ _ _ | OpSetWorkflowStatus key _ _
  | OpCompleteJob key _ _ | OpFailJob key _ _ => Some key
  | OpCreateJob _ _ _ _ | OpEvictExpired _ => None
  end.

(** The reading of the clock a call is made at. *)
Definition opTime (op : StoreOp) : Z :=
  match op with
  | OpCreateJob _ now _ _ | OpSetWorkflow _ _ _ now | OpSetWorkflowStatus _ _ now
  | OpCompleteJob _ _ now | OpFailJob _ _ now | OpEvictExpired now => now
  end.

(** [createJob] drawing the id [key]. *)
Definition recreates (key : string) (op : StoreOp) : bool :=
  match op with
  | OpCreateJob uuid _ _ _ => bool_decide (uuid = key)
  | _ => false
  end.

(** The fields set at creation. *)
Definition sameIdentity (job job' : SigningJob.t) : Prop :=
  SigningJob.id job' = SigningJob.id job
  ∧ SigningJob.fileName job' = SigningJob.fileName job
  ∧ SigningJob.fileType job' = SigningJob.fileType job
  ∧ SigningJob.createdAt job' = SigningJob.createdAt job.

(** The three fields [completeJob] writes are all set or all unset. *)
Definition signedTogether (job : SigningJob.t) : Prop :=
  (is_Some (SigningJob.signedDocument job) ↔ is_Some (SigningJob.signedFileName job))
  ∧ (is_Some (SigningJob.signedDocument job) ↔ is_Some (SigningJob.signedContentType job)).

(** What a status poll may have done to the polled job [job] of [st]: nothing;
    recorded the remote status; recorded it and completed the job; recorded
    it and failed the job. *)
Inductive PollEffect (jobId : string) (job : SigningJob.t) (st : SigningStore.t)
  : SigningJob.t → SigningStore.t → Prop :=
| PollNothing : PollEffect jobId job st job st
| PollRecorded ws t :
    PollEffect jobId job st
      (SigningStore.assignWorkflowStatus ws t job)
      (SigningStore.setWorkflowStatus jobId ws t st)
| PollCompleted ws t payload t' :
    PollEffect jobId job st
      (SigningStore.assignCompleted payload t'
         (SigningStore.assignWorkflowStatus ws t job))
      (SigningStore.completeJob jobId payload t'
         (SigningStore.setWorkflowStatus jobId ws t st))
| PollFailed ws t message t' :
    PollEffect jobId job st
      (SigningStore.assignFailed message t'
         (SigningStore.assignWorkflowStatus ws t job))
      (SigningStore.failJob jobId message t'
         (SigningStore.setWorkflowStatus jobId ws t st)).

(** A provider that is down: every call rejects. *)
Definition failingApi : Goodflag.Api :=
  {| Goodflag.createWorkflow := λ _, inl (ErrorObject "Goodflag workflow creation failed (503): down");
     Goodflag.uploadWorkflowDocument := λ _ _, inl NonError;
     Goodflag.applyDefaultSignatureField := λ _, inl NonError;
     Goodflag.startWorkflow := λ _, inl NonError;
     Goodflag.fetchWorkflow := λ _, inl (ErrorObject "Goodflag workflow fetch failed (503): down");
     Goodflag.downloadWorkflowDocuments := λ _, inl NonError |}.

(** The message the [catch] of [handleSign] records for a thrown value. *)
Definition messageOf (e : Thrown) : string :=
  match e with
  | ErrorObject message => message
  | NonError => "Unknown error"
  end.

(** The provider [api] with the placement of the signature field answering
    as [place] does. *)
Definition withSignatureField (place : string → Thrown + unit) (api : Goodflag.Api)
  : Goodflag.Api :=
  {| Goodflag.createWorkflow := Goodflag.createWorkflow api;
     Goodflag.uploadWorkflowDocument := Goodflag.uploadWorkflowDocument api;
     Goodflag.applyDefaultSignatureField := place;
     Goodflag.startWorkflow := Goodflag.startWorkflow api;
     Goodflag.fetchWorkflow := Goodflag.fetchWorkflow api;
     Goodflag.downloadWorkflowDocuments := Goodflag.downloadWorkflowDocuments api |}.

(** What [downloadWorkflowDocuments] resolves to when the provider's response
    is [ok]: the body, the content type header or [application/pdf], and the
    file name parsed from the content-disposition header. *)
Definition downloadResult (decodeURIComponent : string → Thrown + string)
    (arrayBuffer : list byte) (headers : string → option string)
  : Goodflag.DownloadResult :=
  {| Goodflag.bytes := arrayBuffer;
     Goodflag.contentType := JsString.nullish (headers "content-type") "application/pdf";
     Goodflag.fileName :=
       Client.parseFileName decodeURIComponent (headers "content-disposition") |}.

(** The header [handleDownload] builds for the attachment name [name]. *)
Definition attachmentHeader (name : string) : string :=
  "attachment; filename=" +:+ dquote +:+ name +:+ dquote.

(** [rest] is empty or starts with a semicolon or a double quote. *)
Definition endsName (rest : string) : Prop :=
  match rest with
  | EmptyString => True
  | String c _ => c = ";"%char ∨ c = Client.dq
  end.

(** The variables [config.ts] reads with no fallback, in the order it reads
    them. *)
Definition requiredVariables : list string :=
  ["GOODFLAG_BASE_URL"; "GOODFLAG_API_KEY"; "GOODFLAG_USER_ID";
   "GOODFLAG_SIGNATURE_PROFILE_ID"].

(** The headers of a download response that names the file. *)
Definition sampleHeaders (h : string) : option string :=
  if String.eqb h "content-disposition"
  then Some (attachmentHeader "signed.pdf") else None.

(** A provider whose workflow is finished and whose download names the file. *)
Definition namingApi : Goodflag.Api :=
  {| Goodflag.createWorkflow := λ _, inl NonError;
     Goodflag.uploadWorkflowDocument := λ _ _, inl NonError;
     Goodflag.applyDefaultSignatureField := λ _, inl NonError;
     Goodflag.startWorkflow := λ _, inl NonError;
     Goodflag.fetchWorkflow := λ _,
       inr {| Goodflag.id := "wf-1"; Goodflag.workflowStatus := Some "finished" |};
     Goodflag.downloadWorkflowDocuments := λ _,
       inr (downloadResult (λ s, inr s) [x25; x50; x44; x46] sampleHeaders) |}.

(** * Properties *)

(** ** Lookup lemmas for the store operations *)

Section StoreFacts.

Import SigningStore.

Implicit Types (st : SigningStore.t) (job : SigningJob.t) (key : string).

Lemma mutate_unknown key f st :
  jobs st !! key = None → mutate key f st = st.
Proof. intros Hnone. unfold mutate. by rewrite Hnone. Qed.

Lemma mutate_lookup key f st k :
  jobs (mutate key f st) !! k
  = if decide (key = k) then f <$> jobs st !! k else jobs st !! k.
Proof.
  unfold mutate. destruct (jobs st !! key) as [job|] eqn:Hjob.
  - cbn. rewrite lookup_insert. destruct (decide (key = k)) as [<-|]; [|done].
    by rewrite Hjob.
  - destruct (decide (key = k)) as [<-|]; [|done]. by rewrite Hjob.
Qed.

Lemma mutate_lookup_same key f st job :
  jobs st !! key = Some job → jobs (mutate key f st) !! key = Some (f job).
Proof. intros Hjob. rewrite mutate_lookup, decide_True, Hjob; done. Qed.

Lemma mutate_lookup_other key f st k :
  key ≠ k → jobs (mutate key f st) !! k = jobs st !! k.
Proof. intros Hne. by rewrite mutate_lookup, decide_False. Qed.

Lemma createJob_lookup uuid now name type st k :
  jobs (createJob uuid now name type st).2 !! k
  = if decide (uuid = k) then Some (createJob uuid now name type st).1
    else jobs st !! k.
Proof. cbn. by rewrite lookup_insert. Qed.

(** The loop of [#evictExpired] over a list of entries. *)
Lemma evict_loop_absent now ttl (m : gmap string SigningJob.t) l k :
  m !! k = None → fold_left (evictStep now ttl) l m !! k = None.
Proof.
  revert m. induction l as [|[k' job'] l IH]; intros m Hnone; [done|].
  cbn [fold_left]. apply IH. unfold evictStep. cbn [fst snd].
  destruct (expired now ttl job'); [|done].
  rewrite lookup_delete. by case_decide.
Qed.

Lemma evict_loop_keeps now ttl (m : gmap string SigningJob.t) l k :
  (∀ job, (k, job) ∈ l → expired now ttl job = false) →
  fold_left (evictStep now ttl) l m !! k = m !! k.
Proof.
  revert m. induction l as [|[k' job'] l IH]; intros m Hfresh; [done|].
  cbn [fold_left]. rewrite IH by (intros job Hin; apply Hfresh; by right).
  unfold evictStep. cbn [fst snd].
  destruct (expired now ttl job') eqn:Hexp; [|done].
  destruct (decide (k' = k)) as [->|Hne].
  - rewrite (Hfresh job') in Hexp; [done|]. left.
  - by rewrite lookup_delete_ne.
Qed.

Lemma evict_loop_drops now ttl (m : gmap string SigningJob.t) l k job :
  (k, job) ∈ l → expired now ttl job = true →
  fold_left (evictStep now ttl) l m !! k = None.
Proof.
  revert m. induction l as [|[k' job'] l IH]; intros m Hin Hexp.
  - by apply elem_of_nil in Hin.
  - cbn [fold_left]. apply elem_of_cons in Hin as [Heq|Hin].
    + injection Heq as <- <-. apply evict_loop_absent.
      unfold evictStep. cbn [fst snd]. rewrite Hexp. apply lookup_delete_eq.
    + by apply IH.
Qed.

Lemma evictExpired_lookup now st k :
  jobs (evictExpired now st) !! k
  = match jobs st !! k with
    | Some job => if expired now (ttlMs st) job then None else Some job
    | None => None
    end.
Proof.
  unfold evictExpired. cbn [jobs withJobs].
  destruct (jobs st !! k) as [job|] eqn:Hjob.
  - destruct (expired now (ttlMs st) job) eqn:Hexp.
    + eapply evict_loop_drops; [|done]. by apply elem_of_map_to_list.
    + rewrite evict_loop_keeps; [done|].
      intros job' Hin%elem_of_map_to_list. congruence.
  - rewrite evict_loop_keeps; [done|].
    intros job' Hin%elem_of_map_to_list. congruence.
Qed.

(** What one store call does to the record under [key], when the call is
    not a [createJob] drawing [key] again. *)
Lemma applyOp_keyed st op : keyed st → keyed (applyOp st op).
Proof.
  intros Hk key job. destruct op; cbn [applyOp].
  - rewrite createJob_lookup. case_decide; [|by apply Hk].
    intros [= <-]. done.
  - unfold setWorkflow. rewrite mutate_lookup. case_decide; [|by apply Hk].
    destruct (jobs st !! key) as [j|] eqn:Hj; [|done].
    intros [= <-]. by apply (Hk _ _ Hj).
  - unfold setWorkflowStatus. rewrite mutate_lookup. case_decide; [|by apply Hk].
    destruct (jobs st !! key) as [j|] eqn:Hj; [|done].
    intros [= <-]. by apply (Hk _ _ Hj).
  - unfold completeJob. rewrite mutate_lookup. case_decide; [|by apply Hk].
    destruct (jobs st !! key) as [j|] eqn:Hj; [|done].
    intros [= <-]. by apply (Hk _ _ Hj).
  - unfold failJob. rewrite mutate_lookup. case_decide; [|by apply Hk].
    destruct (jobs st !! key) as [j|] eqn:Hj; [|done].
    intros [= <-]. by apply (Hk _ _ Hj).
  - rewrite evictExpired_lookup.
    destruct (jobs st !! key) as [j|] eqn:Hj; [|done].
    destruct (expired _ _ j); [done|]. intros [= <-]. by apply (Hk _ _ Hj).
Qed.

Lemma runOps_keyed ops st : keyed st → keyed (runOps ops st).
Proof.
  revert st. induction ops as [|op ops IH]; intros st Hk; [done|].
  cbn. apply IH. by apply applyOp_keyed.
Qed.

Lemma create_keyed ttl : keyed (create ttl).
Proof. intros key job. cbn. by rewrite lookup_empty. Qed.

End StoreFacts.

(** ** Unknown job ids *)

(** C7. A mutation call ([setWorkflow], [setWorkflowStatus], [completeJob],
    [failJob]) whose job id is not a key of the store returns the store it
    was given, whatever its other arguments, and [getJob] on that id gives
    nothing, before and after.  None of the four operations has an error
    outcome: each is a total function from stores to stores. *)
Theorem unknown_id_is_noop (st : SigningStore.t) (key : string) :
  key ∉ dom (SigningStore.jobs st) →
  (∀ wid ws now, SigningStore.setWorkflow key wid ws now st = st)
  ∧ (∀ ws now, SigningStore.setWorkflowStatus key ws now st = st)
  ∧ (∀ payload now, SigningStore.completeJob key payload now st = st)
  ∧ (∀ message now, SigningStore.failJob key message now st = st)
  ∧ SigningStore.getJob key st = None
  ∧ (∀ op, isMutation op = true → SigningStore.getJob key (applyOp st op) = None).
Proof.
  intros Hnone%not_elem_of_dom.
  repeat split; try (intros; by apply mutate_unknown); [done|].
  intros op Hop. unfold SigningStore.getJob.
  destruct op; try discriminate Hop; cbn [applyOp];
    unfold SigningStore.setWorkflow, SigningStore.setWorkflowStatus,
           SigningStore.completeJob, SigningStore.failJob;
    rewrite mutate_lookup; case_decide; subst; by rewrite ?Hnone.
Qed.

Lemma unknown_id_is_noop_witness :
  ("ghost" ∉ dom (SigningStore.jobs pendingStore))
  ∧ SigningStore.failJob "ghost" "boom" 5 pendingStore = pendingStore
  ∧ SigningStore.getJob "ghost" pendingStore = None.
Proof.
  assert (Hghost : "ghost" ∉ dom (SigningStore.jobs pendingStore)).
  { apply not_elem_of_dom. vm_compute. reflexivity. }
  destruct (unknown_id_is_noop pendingStore "ghost" Hghost)
    as (_ & _ & _ & Hfail & Hget & _).
  split; [exact Hghost|]. split; [apply Hfail | exact Hget].
Defined.

(** ** Eviction *)

(** C6. After the sweep run at time [now], a job whose idle time
    [now - updatedAt] exceeds [ttlMs] is gone from the store, and a job whose
    idle time is at most [ttlMs] is still there with the record it had. *)
Theorem evictExpired_sweep (now : Z) (st : SigningStore.t) (key : string)
    (job : SigningJob.t) :
  SigningStore.getJob key st = Some job →
  (now - SigningJob.updatedAt job > SigningStore.ttlMs st →
     SigningStore.getJob key (SigningStore.evictExpired now st) = None)
  ∧ (now - SigningJob.updatedAt job ≤ SigningStore.ttlMs st →
     SigningStore.getJob key (SigningStore.evictExpired now st) = Some job).
Proof.
  unfold SigningStore.getJob. intros Hjob.
  rewrite evictExpired_lookup, Hjob. unfold SigningStore.expired.
  split; intros Hidle.
  - rewrite (proj2 (Z.gtb_gt _ _)); [done | lia].
  - destruct (Z.gtb_spec (now - SigningJob.updatedAt job) (SigningStore.ttlMs st));
      [lia | done].
Qed.

Lemma evictExpired_sweep_witness :
  SigningStore.getJob "j1" (SigningStore.evictExpired 3600001 pendingStore) = None
  ∧ SigningStore.getJob "j1" (SigningStore.evictExpired 3600000 pendingStore)
    = SigningStore.getJob "j1" pendingStore.
Proof.
  assert (Hjob : SigningStore.getJob "j1" pendingStore
                 = Some (SigningStore.createJob "j1" 0 "report.pdf" "application/pdf"
                           SigningStore.signingStore).1).
  { vm_compute. reflexivity. }
  split.
  - apply (proj1 (evictExpired_sweep 3600001 pendingStore "j1" _ Hjob)).
    vm_compute. reflexivity.
  - rewrite Hjob.
    apply (proj2 (evictExpired_sweep 3600000 pendingStore "j1" _ Hjob)).
    vm_compute. discriminate.
Defined.

(** ** Status transitions *)

(** C1, as stated, fails: job ["j1"] is [completed] in [completedStore], and
    [failJob("j1", "boom")] at time 3 leaves it in status [error]. *)
Lemma completed_job_can_fail :
  SigningJob.status <$> SigningStore.getJob "j1" completedStore = Some completed
  ∧ SigningJob.status <$>
      SigningStore.getJob "j1" (applyOp completedStore (OpFailJob "j1" "boom" 3))
    = Some error
  ∧ ¬ statusIsFinal.
Proof.
  assert (Hbefore : SigningJob.status <$> SigningStore.getJob "j1" completedStore
                    = Some completed) by (vm_compute; reflexivity).
  assert (Hafter : SigningJob.status <$>
            SigningStore.getJob "j1" (applyOp completedStore (OpFailJob "j1" "boom" 3))
            = Some error) by (vm_compute; reflexivity).
  split; [done|]. split; [done|]. intros Hfinal.
  destruct (SigningStore.getJob "j1" completedStore) as [job|] eqn:Hjob; [|done].
  destruct (SigningStore.getJob "j1" (applyOp completedStore (OpFailJob "j1" "boom" 3)))
    as [job'|] eqn:Hjob'; [|done].
  injection Hbefore as Hbefore. injection Hafter as Hafter.
  specialize (Hfinal completedStore "j1" job job' (OpFailJob "j1" "boom" 3) Hjob).
  rewrite Hbefore, Hafter in Hfinal. by discriminate Hfinal.
Qed.

(** C1, amended. A mutation call keeps the job in the store;
    [setWorkflow] and [setWorkflowStatus] leave its status as it is;
    [completeJob] on the job's id sets the status to [completed] and
    [failJob] on the job's id sets it to [error], whatever it was before.
    A call with another id leaves the status alone.  The guard on the
    previous status is the caller's: a status poll for a job that is not
    [pending] answers with the job as it is and leaves the store untouched. *)
Theorem status_after_mutation (st : SigningStore.t) (key : string)
    (job : SigningJob.t) :
  SigningStore.getJob key st = Some job →
  (∀ op, isMutation op = true →
     ∃ job', SigningStore.getJob key (applyOp st op) = Some job'
       ∧ SigningJob.status job' =
           match op with
           | OpCompleteJob k _ _ => if decide (k = key) then completed
                                    else SigningJob.status job
           | OpFailJob k _ _ => if decide (k = key) then error
                                else SigningJob.status job
           | _ => SigningJob.status job
           end)
  ∧ (SigningJob.status job ≠ pending →
     ∀ api now, handleGetStatus api now key st = (inr (statusSummary job), st)).
Proof.
  unfold SigningStore.getJob. intros Hjob. split.
  - intros op Hop.
    destruct op; try discriminate Hop; cbn [applyOp];
      unfold SigningStore.setWorkflow, SigningStore.setWorkflowStatus,
             SigningStore.completeJob, SigningStore.failJob;
      rewrite mutate_lookup, Hjob; case_decide; cbn; eauto.
  - intros Hdone api now. unfold handleGetStatus, SigningStore.getJob.
    rewrite Hjob. by rewrite bool_decide_eq_false_2.
Qed.

Lemma status_after_mutation_witness :
  (∃ job', SigningStore.getJob "j1"
             (applyOp completedStore (OpSetWorkflowStatus "j1" "finished" 3))
           = Some job'
     ∧ SigningJob.status job' = completed)
  ∧ (handleGetStatus (sampleApi None None (Some "refused")) sampleClock "j1"
       completedStore).2 = completedStore.
Proof.
  assert (Hjob : SigningStore.getJob "j1" completedStore
                 = Some (SigningStore.assignCompleted samplePayload 2
                           (SigningStore.assignWorkflow "wf-1" (Some "draft") 1
                              (SigningStore.createJob "j1" 0 "report.pdf"
                                 "application/pdf" SigningStore.signingStore).1)))
    by (vm_compute; reflexivity).
  destruct (status_after_mutation completedStore "j1" _ Hjob) as [Hstore Hpoll].
  split.
  - exact (Hstore (OpSetWorkflowStatus "j1" "finished" 3) eq_refl).
  - rewrite Hpoll; [reflexivity | discriminate].
Defined.

(** ** Fields and status *)

Section Invariants.

Variable P : SigningJob.t → Prop.

Hypothesis P_created : ∀ uuid now name type st,
  P (SigningStore.createJob uuid now name type st).1.
Hypothesis P_workflow : ∀ wid ws now job,
  P job → P (SigningStore.assignWorkflow wid ws now job).
Hypothesis P_workflowStatus : ∀ ws now job,
  P job → P (SigningStore.assignWorkflowStatus ws now job).
Hypothesis P_completed : ∀ payload now job,
  P job → P (SigningStore.assignCompleted payload now job).
Hypothesis P_failed : ∀ message now job,
  P job → P (SigningStore.assignFailed message now job).

Lemma applyOp_everyJob st op : everyJob P st → everyJob P (applyOp st op).
Proof using All.
  unfold everyJob, SigningStore.getJob. intros Hst key job.
  destruct op; cbn [applyOp];
    unfold SigningStore.setWorkflow, SigningStore.setWorkflowStatus,
           SigningStore.completeJob, SigningStore.failJob;
    rewrite ?createJob_lookup, ?mutate_lookup, ?evictExpired_lookup.
  - case_decide; [|by apply Hst]. intros [= <-]. exact (P_created _ _ _ _ st).
  - case_decide; [|by apply Hst].
    destruct (SigningStore.jobs st !! key) as [j|] eqn:Hj; [|done].
    intros [= <-]. apply P_workflow. by apply (Hst key).
  - case_decide; [|by apply Hst].
    destruct (SigningStore.jobs st !! key) as [j|] eqn:Hj; [|done].
    intros [= <-]. apply P_workflowStatus. by apply (Hst key).
  - case_decide; [|by apply Hst].
    destruct (SigningStore.jobs st !! key) as [j|] eqn:Hj; [|done].
    intros [= <-]. apply P_completed. by apply (Hst key).
  - case_decide; [|by apply Hst].
    destruct (SigningStore.jobs st !! key) as [j|] eqn:Hj; [|done].
    intros [= <-]. apply P_failed. by apply (Hst key).
  - destruct (SigningStore.jobs st !! key) as [j|] eqn:Hj; [|done].
    destruct (SigningStore.expired _ _ j); [done|].
    intros [= <-]. by apply (Hst key).
Qed.

Lemma runOps_everyJob ops st : everyJob P st → everyJob P (runOps ops st).
Proof using All.
  revert st. induction ops as [|op ops IH]; intros st Hst; [done|].
  cbn. apply IH. by apply applyOp_everyJob.
Qed.

Lemma reachable_everyJob ops ttl : everyJob P (runOps ops (SigningStore.create ttl)).
Proof using All.
  apply runOps_everyJob. intros key job. unfold SigningStore.getJob. cbn.
  by rewrite lookup_empty.
Qed.

End Invariants.

(** C2, as stated, fails: after [createJob], [completeJob] and [failJob] on
    the same id the job is in status [error] and still has the signed
    document, next to the error message. *)
Lemma failed_job_keeps_document :
  (let job := SigningStore.getJob "j1"
                (runOps [OpCreateJob "j1" 0 "report.pdf" "application/pdf";
                         OpCompleteJob "j1" samplePayload 1;
                         OpFailJob "j1" "boom" 2]
                        (SigningStore.create SigningStore.ONE_HOUR)) in
   SigningJob.status <$> job = Some error
   ∧ SigningJob.signedDocument <$> job = Some (Some [x25; x50; x44; x46])
   ∧ SigningJob.errorMessage <$> job = Some (Some "boom"))
  ∧ ¬ (∀ ops ttl, everyJob fieldsMatchStatus (runOps ops (SigningStore.create ttl))).
Proof.
  split; [vm_compute; done|]. intros Hall.
  set (ops := [OpCreateJob "j1" 0 "report.pdf" "application/pdf";
               OpCompleteJob "j1" samplePayload 1; OpFailJob "j1" "boom" 2]).
  destruct (SigningStore.getJob "j1" (runOps ops (SigningStore.create SigningStore.ONE_HOUR)))
    as [job|] eqn:Hjob; [|by vm_compute in Hjob].
  destruct (Hall ops SigningStore.ONE_HOUR "j1" job Hjob) as [[Hdoc _] _].
  vm_compute in Hjob. injection Hjob as <-. cbn in Hdoc.
  by discriminate Hdoc.
Qed.

(** C2, amended. In every store reached from the empty store by store
    operations, a job in status [completed] has a signed document, a job in
    status [error] has an error message, and a [pending] job has neither; so
    outside [pending] a job is never without both. *)
Theorem reachable_fields_cover_status (ops : list StoreOp) (ttl : Z)
    (key : string) (job : SigningJob.t) :
  SigningStore.getJob key (runOps ops (SigningStore.create ttl)) = Some job →
  fieldsCoverStatus job.
Proof.
  revert key job. fold (everyJob fieldsCoverStatus (runOps ops (SigningStore.create ttl))).
  apply reachable_everyJob; unfold fieldsCoverStatus; cbn.
  - intros. repeat split; done.
  - intros wid ws now job (Hc & He & Hp). done.
  - intros ws now job (Hc & He & Hp). done.
  - intros payload now job (Hc & He & Hp). repeat split; eauto; done.
  - intros message now job (Hc & He & Hp). repeat split; eauto; done.
Qed.

Lemma reachable_fields_cover_status_witness :
  fieldsCoverStatus
    (SigningStore.assignFailed "boom" 2
       (SigningStore.assignCompleted samplePayload 1
          (SigningStore.createJob "j1" 0 "report.pdf" "application/pdf"
             (SigningStore.create SigningStore.ONE_HOUR)).1)).
Proof.
  apply (reachable_fields_cover_status
           [OpCreateJob "j1" 0 "report.pdf" "application/pdf";
            OpCompleteJob "j1" samplePayload 1; OpFailJob "j1" "boom" 2]
           SigningStore.ONE_HOUR "j1").
  vm_compute. reflexivity.
Defined.

(** ** The workflow identifier *)

(** C3, as stated, fails: job ["j1"] of [startedStore] has workflow id
    ["wf-1"], and [setWorkflow("j1", "wf-2")] at time 2 replaces it. *)
Lemma setWorkflow_overwrites_id :
  SigningJob.workflowId <$> SigningStore.getJob "j1" startedStore = Some (Some "wf-1")
  ∧ SigningJob.workflowId <$>
      SigningStore.getJob "j1" (applyOp startedStore (OpSetWorkflow "j1" "wf-2" None 2))
    = Some (Some "wf-2")
  ∧ ¬ workflowIdIsFixed.
Proof.
  split; [vm_compute; done|]. split; [vm_compute; done|]. intros Hfixed.
  destruct (SigningStore.getJob "j1" startedStore) as [job|] eqn:Hjob;
    [|by vm_compute in Hjob].
  destruct (SigningStore.getJob "j1"
              (applyOp startedStore (OpSetWorkflow "j1" "wf-2" None 2)))
    as [job'|] eqn:Hjob'; [|by vm_compute in Hjob'].
  specialize (Hfixed startedStore "j1" "wf-1" job job'
                (OpSetWorkflow "j1" "wf-2" None 2) Hjob).
  vm_compute in Hjob. injection Hjob as <-.
  specialize (Hfixed eq_refl Hjob').
  vm_compute in Hjob'. injection Hjob' as <-.
  by discriminate Hfixed.
Qed.

(** One store call that does not assign the field leaves it as it is, as
    long as the job is still in the store. *)
Lemma applyOp_workflowId st key job job' op :
  SigningStore.getJob key st = Some job →
  assignsWorkflowId key op = false →
  SigningStore.getJob key (applyOp st op) = Some job' →
  SigningJob.workflowId job' = SigningJob.workflowId job.
Proof.
  unfold SigningStore.getJob. intros Hjob Hop.
  destruct op; cbn [applyOp assignsWorkflowId] in *;
    unfold SigningStore.setWorkflow, SigningStore.setWorkflowStatus,
           SigningStore.completeJob, SigningStore.failJob;
    rewrite ?createJob_lookup, ?mutate_lookup, ?evictExpired_lookup, ?Hjob.
  - apply bool_decide_eq_false in Hop. rewrite decide_False by done.
    rewrite ?Hjob. by intros [= <-].
  - apply bool_decide_eq_false in Hop. rewrite decide_False by done.
    rewrite ?Hjob. by intros [= <-].
  - case_decide; rewrite ?Hjob; by intros [= <-].
  - case_decide; rewrite ?Hjob; by intros [= <-].
  - case_decide; rewrite ?Hjob; by intros [= <-].
  - destruct (SigningStore.expired _ _ job); [done|]. by intros [= <-].
Qed.

(** A store call never brings back a job that is not in the store, unless
    it is a [createJob] drawing that key. *)
Lemma applyOp_absent st key op :
  SigningStore.getJob key st = None →
  assignsWorkflowId key op = false →
  SigningStore.getJob key (applyOp st op) = None.
Proof.
  unfold SigningStore.getJob. intros Hnone Hop.
  destruct op; cbn [applyOp assignsWorkflowId] in *;
    unfold SigningStore.setWorkflow, SigningStore.setWorkflowStatus,
           SigningStore.completeJob, SigningStore.failJob;
    rewrite ?createJob_lookup, ?mutate_lookup, ?evictExpired_lookup, ?Hnone;
    try (case_decide; by rewrite ?Hnone); try done.
  all: apply bool_decide_eq_false in Hop; by rewrite decide_False.
Qed.

(** C3, amended. Once the [workflowId] of a job is set, it has the same value
    after any sequence of store calls in which the job is still present at
    the end and which holds no [setWorkflow] on the job's id (and no
    [createJob] that draws the id again): [setWorkflowStatus], [completeJob],
    [failJob], the eviction sweep and calls on other ids leave it alone.
    [setWorkflow] on the job's id replaces it with its argument. *)
Theorem workflowId_kept (ops : list StoreOp) (st : SigningStore.t)
    (key wid : string) (job job' : SigningJob.t) :
  SigningStore.getJob key st = Some job →
  SigningJob.workflowId job = Some wid →
  forallb (λ op, negb (assignsWorkflowId key op)) ops = true →
  SigningStore.getJob key (runOps ops st) = Some job' →
  SigningJob.workflowId job' = Some wid
  ∧ ∀ wid' ws now,
      SigningJob.workflowId <$>
        SigningStore.getJob key (SigningStore.setWorkflow key wid' ws now (runOps ops st))
      = Some (Some wid').
Proof.
  intros Hjob Hwid Hops Hjob'. split.
  - revert st job Hjob Hwid Hops Hjob'.
    induction ops as [|op ops IH]; intros st job Hjob Hwid Hops Hjob'.
    + cbn in Hjob'. congruence.
    + cbn in Hops. apply andb_true_iff in Hops as [Hop Hops].
      apply negb_true_iff in Hop. cbn in Hjob'.
      destruct (SigningStore.getJob key (applyOp st op)) as [job1|] eqn:Hjob1.
      * apply (IH (applyOp st op) job1); try done.
        by rewrite (applyOp_workflowId st key job job1 op).
      * exfalso. clear IH Hjob Hwid Hop.
        revert Hjob1 Hjob'. generalize (applyOp st op). clear st.
        induction ops as [|op' ops IH]; intros st Hnone Hsome.
        -- cbn in Hsome. congruence.
        -- cbn in Hops. apply andb_true_iff in Hops as [Hop' Hops].
           apply negb_true_iff in Hop'. cbn in Hsome.
           apply (IH Hops (applyOp st op')); [|done].
           by apply applyOp_absent.
  - intros wid' ws now. unfold SigningStore.getJob, SigningStore.setWorkflow in *.
    by rewrite mutate_lookup, decide_True, Hjob'.
Qed.

Lemma workflowId_kept_witness :
  SigningJob.workflowId <$> SigningStore.getJob "j1" completedStore = Some (Some "wf-1").
Proof.
  assert (Hjob : SigningStore.getJob "j1" startedStore
                 = Some (SigningStore.assignWorkflow "wf-1" (Some "draft") 1
                           (SigningStore.createJob "j1" 0 "report.pdf"
                              "application/pdf" SigningStore.signingStore).1))
    by (vm_compute; reflexivity).
  assert (Hjob' : SigningStore.getJob "j1"
                    (runOps [OpCompleteJob "j1" samplePayload 2] startedStore)
                  = Some (SigningStore.assignCompleted samplePayload 2
                            (SigningStore.assignWorkflow "wf-1" (Some "draft") 1
                               (SigningStore.createJob "j1" 0 "report.pdf"
                                  "application/pdf" SigningStore.signingStore).1)))
    by (vm_compute; reflexivity).
  change completedStore with (runOps [OpCompleteJob "j1" samplePayload 2] startedStore).
  rewrite Hjob'.
  exact (f_equal Some
           (proj1 (workflowId_kept [OpCompleteJob "j1" samplePayload 2] startedStore
                     "j1" "wf-1" _ _ Hjob eq_refl eq_refl Hjob'))).
Defined.

(** ** Strings *)

Section StringFacts.

Implicit Types (s t base ext : string) (c a : ascii).

Lemma app_cons a s t : String a s +:+ t = String a (s +:+ t).
Proof. reflexivity. Qed.

Lemma app_empty t : EmptyString +:+ t = t.
Proof. reflexivity. Qed.

Lemma length_app s t :
  String.length (s +:+ t) = (String.length s + String.length t)%nat.
Proof. induction s as [|a s IH]; [done|]. rewrite app_cons. cbn. by rewrite IH. Qed.

Lemma len_app s t : JsString.len (s +:+ t) = JsString.len s + JsString.len t.
Proof. unfold JsString.len. rewrite length_app. lia. Qed.

Lemma len_nonneg s : 0 ≤ JsString.len s.
Proof. unfold JsString.len. lia. Qed.

Lemma substring_all s : substring 0 (String.length s) s = s.
Proof. induction s as [|a s IH]; [done|]. cbn. by rewrite IH. Qed.

Lemma substring_head s t : substring 0 (String.length s) (s +:+ t) = s.
Proof.
  induction s as [|a s IH].
  - rewrite app_empty. by destruct t.
  - rewrite app_cons. cbn. by rewrite IH.
Qed.

Lemma substring_tail s t :
  substring (String.length s) (String.length t) (s +:+ t) = t.
Proof.
  induction s as [|a s IH].
  - rewrite app_empty. apply substring_all.
  - rewrite app_cons. cbn. apply IH.
Qed.

Lemma substring_split n s :
  (n ≤ String.length s)%nat →
  s = substring 0 n s +:+ substring n (String.length s - n) s.
Proof.
  revert s. induction n as [|n IH]; intros s Hn.
  - rewrite Nat.sub_0_r, substring_all. by destruct s.
  - destruct s as [|a s]; [cbn in Hn; lia|].
    cbn [substring String.length Nat.sub]. rewrite app_cons. f_equal.
    apply IH. cbn in Hn. lia.
Qed.

Lemma slice_head s t : JsString.slice (s +:+ t) 0 (JsString.len s) = s.
Proof.
  unfold JsString.slice, JsString.clampIndex. rewrite len_app.
  pose proof (len_nonneg s). pose proof (len_nonneg t).
  replace (0 <? 0) with false by done.
  destruct (Z.ltb_spec (JsString.len s) 0); [lia|].
  rewrite Z.min_l, Z.min_l by lia. rewrite Z.sub_0_r.
  unfold JsString.len. rewrite Nat2Z.id. apply substring_head.
Qed.

Lemma sliceFrom_tail s t : JsString.sliceFrom (s +:+ t) (JsString.len s) = t.
Proof.
  unfold JsString.sliceFrom, JsString.slice, JsString.clampIndex. rewrite len_app.
  pose proof (len_nonneg s). pose proof (len_nonneg t).
  destruct (Z.ltb_spec (JsString.len s) 0); [lia|].
  destruct (Z.ltb_spec (JsString.len s + JsString.len t) 0); [lia|].
  rewrite Z.min_l, Z.min_l by lia.
  replace (JsString.len s + JsString.len t - JsString.len s) with (JsString.len t) by lia.
  unfold JsString.len. rewrite !Nat2Z.id. apply substring_tail.
Qed.

Lemma lastIndexOfFrom_absent c s i acc :
  occurs c s = false → JsString.lastIndexOfFrom c s i acc = acc.
Proof.
  revert i acc. induction s as [|a s IH]; intros i acc Hocc; [done|].
  cbn in *. apply orb_false_iff in Hocc as [-> Hocc]. by apply IH.
Qed.

Lemma lastIndexOfFrom_last c base ext i acc :
  occurs c ext = false →
  JsString.lastIndexOfFrom c (base +:+ String c ext) i acc = i + JsString.len base.
Proof.
  intros Hocc. revert i acc. induction base as [|a base IH]; intros i acc.
  - rewrite app_empty. cbn. rewrite Ascii.eqb_refl.
    rewrite lastIndexOfFrom_absent by done. unfold JsString.len. cbn. lia.
  - rewrite app_cons. cbn [JsString.lastIndexOfFrom]. rewrite IH.
    unfold JsString.len. cbn [String.length]. lia.
Qed.

(** [#defaultSignedName] on a name with no dot, and on a name whose last dot
    starts the extension [ext]. *)
Lemma defaultSignedName_no_extension s :
  occurs "." s = false →
  SigningStore.defaultSignedName s = s +:+ "-signed.pdf".
Proof.
  intros Hocc. unfold SigningStore.defaultSignedName, JsString.lastIndexOf.
  by rewrite lastIndexOfFrom_absent.
Qed.

Lemma defaultSignedName_extension base ext :
  occurs "." ext = false →
  SigningStore.defaultSignedName (base +:+ "." +:+ ext)
  = base +:+ "-signed" +:+ "." +:+ ext.
Proof.
  intros Hocc. unfold SigningStore.defaultSignedName, JsString.lastIndexOf.
  change ("." +:+ ext) with (String "."%char ext).
  rewrite lastIndexOfFrom_last by done. rewrite Z.add_0_l.
  pose proof (len_nonneg base).
  destruct (Z.eqb_spec (JsString.len base) (-1)); [lia|].
  by rewrite slice_head, sliceFrom_tail.
Qed.

(** [endsWith] holds exactly of the strings that are some prefix followed by
    the suffix. *)
Lemma endsWith_spec s suffix :
  JsString.endsWith s suffix = true ↔ ∃ p, s = p +:+ suffix.
Proof.
  unfold JsString.endsWith. split.
  - intros [Hle Heq]%andb_true_iff. apply Nat.leb_le in Hle.
    apply String.eqb_eq in Heq.
    remember (String.length suffix) as m eqn:Hm.
    remember (String.length s) as n eqn:Hn.
    exists (substring 0 (n - m) s).
    etrans; [apply (substring_split (n - m)); lia|].
    f_equal. rewrite <- Heq. f_equal. lia.
  - intros [p ->]. rewrite length_app. apply andb_true_iff. split.
    + apply Nat.leb_le. lia.
    + replace (String.length p + String.length suffix - String.length suffix)%nat
        with (String.length p) by lia.
      rewrite substring_tail. apply String.eqb_refl.
Qed.

End StringFacts.

(** ** The derived name of the signed file *)

(** C5. When [completeJob] is called with no file name in its payload, the
    signed file name it records is derived from the original name of the
    job: ["-signed"] is inserted before the last extension (the part from the
    last dot on), and a name with no dot gets ["-signed.pdf"] appended.
    [report.pdf] gives [report-signed.pdf] and [README] gives
    [README-signed.pdf]. *)
Theorem completeJob_default_signed_name (st : SigningStore.t) (key : string)
    (job : SigningJob.t) (bytes : list byte) (contentType : option string)
    (now : Z) :
  SigningStore.getJob key st = Some job →
  (∃ job',
      SigningStore.getJob key
        (SigningStore.completeJob key
           {| Payload.bytes := bytes; Payload.fileName := None;
              Payload.contentType := contentType |} now st) = Some job'
      ∧ SigningJob.signedFileName job'
        = Some (SigningStore.defaultSignedName (SigningJob.fileName job)))
  ∧ (∀ base ext,
       SigningJob.fileName job = base +:+ "." +:+ ext →
       occurs "." ext = false →
       SigningStore.defaultSignedName (SigningJob.fileName job)
       = base +:+ "-signed" +:+ "." +:+ ext)
  ∧ (occurs "." (SigningJob.fileName job) = false →
       SigningStore.defaultSignedName (SigningJob.fileName job)
       = SigningJob.fileName job +:+ "-signed.pdf")
  ∧ SigningStore.defaultSignedName "report.pdf" = "report-signed.pdf"
  ∧ SigningStore.defaultSignedName "README" = "README-signed.pdf".
Proof.
  intros Hjob. split; [|split; [|split; [|split]]].
  - eexists. split.
    + unfold SigningStore.getJob, SigningStore.completeJob in *.
      by apply mutate_lookup_same.
    + reflexivity.
  - intros base ext -> Hext. by apply defaultSignedName_extension.
  - apply defaultSignedName_no_extension.
  - reflexivity.
  - reflexivity.
Qed.

Lemma completeJob_default_signed_name_witness :
  SigningJob.signedFileName <$>
    SigningStore.getJob "j1"
      (SigningStore.completeJob "j1" samplePayload 2 pendingStore)
  = Some (Some "report-signed.pdf").
Proof.
  assert (Hjob : SigningStore.getJob "j1" pendingStore
                 = Some (SigningStore.createJob "j1" 0 "report.pdf" "application/pdf"
                           SigningStore.signingStore).1)
    by (vm_compute; reflexivity).
  destruct (completeJob_default_signed_name pendingStore "j1" _
              [x25; x50; x44; x46] None 2 Hjob)
    as [(job' & Hjob' & Hname) _].
  change samplePayload
    with {| Payload.bytes := [x25; x50; x44; x46]; Payload.fileName := None;
            Payload.contentType := None |}.
  rewrite Hjob'. exact (f_equal Some Hname).
Defined.

(** ** The upload handler *)

Section UploadFacts.

Variable api : Goodflag.Api.
Variable randomUUID : string.
Variable now : nat → Z.

(** The two ways the [try]/[catch] of [handleSign] ends: the three remote
    calls resolved and the answer is the job summary, or the answer is the
    gateway error. *)
Lemma startSigning_outcome job file workflowName signerInfo st :
  let result := (tryCatch (startSigning api now job file workflowName signerInfo)
                          (signingFailed now job) st).1 in
  (∃ workflow started jobId jobStatus fileName,
      Goodflag.createWorkflow api
        {| Goodflag.name := workflowName; Goodflag.signer := signerInfo |}
      = inr workflow
      ∧ Goodflag.startWorkflow api (Goodflag.id workflow) = inr started
      ∧ result = inr (jsonResponse
                        (SignJson jobId jobStatus (Goodflag.id workflow)
                           (JsString.nullish
                              (nullishOr (Goodflag.workflowStatus started)
                                         (Goodflag.workflowStatus workflow))
                              "started")
                           fileName)
                        200))
  ∨ result = inr (jsonResponse (ErrorJson "Failed to create Goodflag workflow") 502).
Proof.
  cbn zeta.
  unfold tryCatch, startSigning, signingFailed, mbind, Try_bind, mret, Try_ret,
    await, modifyState, getState, tryCatch.
  destruct (Goodflag.createWorkflow api _) as [e|workflow] eqn:Hcreate;
    [by right|].
  destruct (Goodflag.uploadWorkflowDocument api _ _) as [e|uploadResult];
    [by right|].
  destruct (Goodflag.documentId uploadResult) as [documentId|];
    [destruct (JsString.truthy (Some documentId));
     [destruct (Goodflag.applyDefaultSignatureField api documentId) as [e1|[]]|]|];
    (destruct (Goodflag.startWorkflow api (Goodflag.id workflow))
       as [e2|started] eqn:Hstarted; [by right|]);
    (destruct (Goodflag.workflowStatus started) as [ws|] eqn:Hws;
       [destruct (JsString.truthy (Some ws))|]);
    left; eexists workflow, started, _, _, _;
    (split; [done|]); (split; [done|]); rewrite ?Hws; reflexivity.
Qed.

End UploadFacts.

Section SignFacts.

Variable api : Goodflag.Api.
Variable randomUUID : string.
Variable now : nat → Z.

Ltac run_sign :=
  unfold tryCatch, startSigning, signingFailed, mbind, Try_bind, mret, Try_ret,
    await, modifyState, getState; cbn [fst snd].

(** The placement of the signature field has no part in the outcome. *)
Lemma startSigning_field_irrelevant place job file workflowName signerInfo st :
  tryCatch (startSigning (withSignatureField place api) now job file workflowName signerInfo)
           (signingFailed now job) st
  = tryCatch (startSigning api now job file workflowName signerInfo)
             (signingFailed now job) st.
Proof.
  run_sign. cbn [withSignatureField Goodflag.createWorkflow
                 Goodflag.uploadWorkflowDocument Goodflag.startWorkflow
                 Goodflag.applyDefaultSignatureField].
  destruct (Goodflag.createWorkflow api _) as [e|workflow]; [done|].
  destruct (Goodflag.uploadWorkflowDocument api _ _) as [e|uploadResult]; [done|].
  destruct (Goodflag.documentId uploadResult) as [documentId|]; [|done].
  destruct (JsString.truthy (Some documentId)); [|done].
  by destruct (place documentId) as [?|[]],
              (Goodflag.applyDefaultSignatureField api documentId) as [?|[]].
Qed.

(** The [try]/[catch] of [handleSign] run on a store that holds [job] under
    its id: the three remote calls in order, the store calls between them,
    and the answer. *)
Lemma startSigning_run job file workflowName signerInfo st :
  SigningStore.getJob (SigningJob.id job) st = Some job →
  tryCatch (startSigning api now job file workflowName signerInfo)
           (signingFailed now job) st
  = let failed (e : Thrown) (st' : SigningStore.t) :=
      (inr (jsonResponse (ErrorJson "Failed to create Goodflag workflow") 502),
       SigningStore.failJob (SigningJob.id job) (messageOf e) (now 3%nat) st') in
    match Goodflag.createWorkflow api
            {| Goodflag.name := workflowName; Goodflag.signer := signerInfo |} with
    | inl e => failed e st
    | inr workflow =>
        let st2 := SigningStore.setWorkflow (SigningJob.id job) (Goodflag.id workflow)
                     (Goodflag.workflowStatus workflow) (now 1%nat) st in
        match Goodflag.uploadWorkflowDocument api (Goodflag.id workflow) file with
        | inl e => failed e st2
        | inr _ =>
            match Goodflag.startWorkflow api (Goodflag.id workflow) with
            | inl e => failed e st2
            | inr started =>
                (inr (jsonResponse
                        (SignJson (SigningJob.id job) (SigningJob.status job)
                           (Goodflag.id workflow)
                           (JsString.nullish
                              (nullishOr (Goodflag.workflowStatus started)
                                         (Goodflag.workflowStatus workflow))
                              "started")
                           (SigningJob.fileName job))
                        200),
                 match Goodflag.workflowStatus started with
                 | Some ws =>
                     if JsString.truthy (Some ws)
                     then SigningStore.setWorkflowStatus (SigningJob.id job) ws
                            (now 2%nat) st2
                     else st2
                 | None => st2
                 end)
            end
        end
    end.
Proof.
  intros Hjob. cbn zeta.
  rewrite <- (startSigning_field_irrelevant (λ _, inr tt)).
  run_sign. cbn [withSignatureField Goodflag.createWorkflow
                 Goodflag.uploadWorkflowDocument Goodflag.startWorkflow
                 Goodflag.applyDefaultSignatureField].
  destruct (Goodflag.createWorkflow api _) as [e|workflow]; [by destruct e|].
  destruct (Goodflag.uploadWorkflowDocument api _ _) as [e|uploadResult];
    [by destruct e|].
  assert (Hlive : ∀ st' wid wsText,
    (∃ f, SigningStore.getJob (SigningJob.id job) st' = Some (f job)
          ∧ SigningJob.id (f job) = SigningJob.id job
          ∧ SigningJob.status (f job) = SigningJob.status job
          ∧ SigningJob.fileName (f job) = SigningJob.fileName job) →
    jsonResponse
      (SignJson (SigningJob.id (live job st')) (SigningJob.status (live job st'))
         wid wsText (SigningJob.fileName (live job st'))) 200
    = jsonResponse
        (SignJson (SigningJob.id job) (SigningJob.status job)
           wid wsText (SigningJob.fileName job)) 200).
  { intros st' wid wsText (f & Hf & Hid & Hstatus & Hname). unfold live. rewrite Hf. cbn.
    by rewrite Hid, Hstatus, Hname. }
  assert (Hst2 : SigningStore.getJob (SigningJob.id job)
                   (SigningStore.setWorkflow (SigningJob.id job) (Goodflag.id workflow)
                      (Goodflag.workflowStatus workflow) (now 1%nat) st)
                 = Some (SigningStore.assignWorkflow (Goodflag.id workflow)
                           (Goodflag.workflowStatus workflow) (now 1%nat) job)).
  { unfold SigningStore.getJob, SigningStore.setWorkflow in *.
    by apply mutate_lookup_same. }
  set (st2 := SigningStore.setWorkflow (SigningJob.id job) (Goodflag.id workflow)
                (Goodflag.workflowStatus workflow) (now 1%nat) st) in *.
  assert (Hex2 : ∃ f, SigningStore.getJob (SigningJob.id job) st2 = Some (f job)
                      ∧ SigningJob.id (f job) = SigningJob.id job
                      ∧ SigningJob.status (f job) = SigningJob.status job
                      ∧ SigningJob.fileName (f job) = SigningJob.fileName job).
  { by exists (SigningStore.assignWorkflow (Goodflag.id workflow)
                 (Goodflag.workflowStatus workflow) (now 1%nat)). }
  assert (Hex3 : ∀ ws,
            ∃ f, SigningStore.getJob (SigningJob.id job)
                   (SigningStore.setWorkflowStatus (SigningJob.id job) ws (now 2%nat) st2)
                 = Some (f job)
                 ∧ SigningJob.id (f job) = SigningJob.id job
                 ∧ SigningJob.status (f job) = SigningJob.status job
                 ∧ SigningJob.fileName (f job) = SigningJob.fileName job).
  { intros ws.
    exists (λ j, SigningStore.assignWorkflowStatus ws (now 2%nat)
                   (SigningStore.assignWorkflow (Goodflag.id workflow)
                      (Goodflag.workflowStatus workflow) (now 1%nat) j)).
    split; [|done].
    unfold SigningStore.getJob, SigningStore.setWorkflowStatus in *.
    by apply mutate_lookup_same. }
  destruct (Goodflag.documentId uploadResult) as [documentId|];
    [destruct (JsString.truthy (Some documentId))|];
    (destruct (Goodflag.startWorkflow api (Goodflag.id workflow)) as [e|started];
     [by destruct e|]);
    (destruct (Goodflag.workflowStatus started) as [ws|] eqn:Hws;
     [destruct (JsString.truthy (Some ws))|]);
    unfold tryCatch; cbn [fst snd]; (rewrite Hlive; [reflexivity|]);
    first [exact Hex2 | apply Hex3].
Qed.

(** [handleSign] either rejects the request, leaving the store alone, or
    creates the job and runs the [try] block on it. *)
Lemma handleSign_cases req st :
  (∃ resp, handleSign api randomUUID now req st = (inr resp, st) ∧ status resp = 400)
  ∨ (∃ e, formData req = inl e ∧ handleSign api randomUUID now req st = (inl e, st))
  ∨ (∃ file workflowName signerInfo,
       handleSign api randomUUID now req st
       = tryCatch
           (startSigning api now
              (SigningStore.createJob randomUUID (now 0%nat)
                 (JsString.orElse (Some (Goodflag.fname file)) "document.pdf")
                 (JsString.orElse (Some (Goodflag.ftype file)) "application/pdf") st).1
              file workflowName signerInfo)
           (signingFailed now
              (SigningStore.createJob randomUUID (now 0%nat)
                 (JsString.orElse (Some (Goodflag.fname file)) "document.pdf")
                 (JsString.orElse (Some (Goodflag.ftype file)) "application/pdf") st).1)
           (SigningStore.createJob randomUUID (now 0%nat)
              (JsString.orElse (Some (Goodflag.fname file)) "document.pdf")
              (JsString.orElse (Some (Goodflag.ftype file)) "application/pdf") st).2).
Proof.
  unfold handleSign.
  destruct (negb (JsString.includes _ _)); [left; by eexists|].
  destruct (formData req) as [e|form]; [right; left; by eexists|].
  destruct (formGet form "file") as [[s|file]|]; [left; by eexists| |left; by eexists].
  destruct (notPdf file); [left; by eexists|].
  destruct (getTextValue (formGet form "signer_email")) as [signerEmail|];
    [|left; by eexists].
  right. right. by eexists file, _, _.
Qed.

(** What [handleSign] gives back: the rejection of [req.formData()], with the
    store as it was, or an answer that is not the internal error. *)
Lemma handleSign_answers req st :
  match handleSign api randomUUID now req st with
  | (inl e, st') => formData req = inl e ∧ st' = st
  | (inr resp, _) => status resp ≠ 500
  end.
Proof.
  destruct (handleSign_cases req st)
    as [(resp & -> & H400)|[(e & Hform & ->)|(file & workflowName & signerInfo & ->)]].
  - by rewrite H400.
  - done.
  - rewrite startSigning_run.
    2: { unfold SigningStore.getJob. cbn. apply lookup_insert_eq. }
    cbn zeta.
    destruct (Goodflag.createWorkflow api _) as [e|workflow]; [done|].
    destruct (Goodflag.uploadWorkflowDocument api _ _) as [e|uploadResult]; [done|].
    by destruct (Goodflag.startWorkflow api _) as [e|started].
Qed.

End SignFacts.

(** C9. On an upload that is accepted (a multipart request with a file that
    passes the PDF check and a signer email) and whose create-workflow,
    upload-document and start-workflow calls resolve, [handleSign] answers
    200 with the job summary, and the workflow status of the summary is the
    status the start call returned when it has one, otherwise the status
    the create call returned when it has one, otherwise the text [started].
    Conversely a 200 answer of [handleSign] is such a summary: the create
    and start calls resolved and the workflow status is the one so
    resolved. *)
Theorem handleSign_workflow_status (api : Goodflag.Api) (randomUUID : string)
    (now : nat → Z) (req : Request) (st : SigningStore.t) :
  (∀ form file signerEmail workflow uploadResult started,
     JsString.includes (JsString.nullish (contentTypeHeader req) "")
                       "multipart/form-data" = true →
     formData req = inr form →
     formGet form "file" = Some (EntryFile file) →
     notPdf file = false →
     getTextValue (formGet form "signer_email") = Some signerEmail →
     Goodflag.createWorkflow api
       {| Goodflag.name :=
            JsString.orElse (getTextValue (formGet form "workflow_name"))
              (JsString.orElse (Some (Goodflag.fname file))
                               "Document signature workflow");
          Goodflag.signer :=
            {| Goodflag.email := signerEmail;
               Goodflag.firstName := getTextValue (formGet form "signer_first_name");
               Goodflag.lastName := getTextValue (formGet form "signer_last_name");
               Goodflag.preferredLocale := getTextValue (formGet form "signer_locale");
               Goodflag.comments := getTextValue (formGet form "signer_comments");
               Goodflag.consentPageId :=
                 getTextValue (formGet form "signer_consent_page_id");
               Goodflag.userId := getTextValue (formGet form "signer_user_id") |} |}
     = inr workflow →
     Goodflag.uploadWorkflowDocument api (Goodflag.id workflow) file = inr uploadResult →
     Goodflag.startWorkflow api (Goodflag.id workflow) = inr started →
     (handleSign api randomUUID now req st).1
     = inr (jsonResponse
              (SignJson randomUUID pending (Goodflag.id workflow)
                 match Goodflag.workflowStatus started with
                 | Some afterStart => afterStart
                 | None =>
                     match Goodflag.workflowStatus workflow with
                     | Some afterCreate => afterCreate
                     | None => "started"
                     end
                 end
                 (JsString.orElse (Some (Goodflag.fname file)) "document.pdf"))
              200))
  ∧ (∀ resp st',
       handleSign api randomUUID now req st = (inr resp, st') →
       status resp = 200 →
       ∃ options workflow started jobId jobStatus fileName,
         Goodflag.createWorkflow api options = inr workflow
         ∧ Goodflag.startWorkflow api (Goodflag.id workflow) = inr started
         ∧ body resp
           = JsonBody
               (SignJson jobId jobStatus (Goodflag.id workflow)
                  match Goodflag.workflowStatus started with
                  | Some afterStart => afterStart
                  | None =>
                      match Goodflag.workflowStatus workflow with
                      | Some afterCreate => afterCreate
                      | None => "started"
                      end
                  end
                  fileName)).
Proof.
  split.
  - intros form file signerEmail workflow uploadResult started
      Hmulti Hform Hfile Hpdf Hemail Hcreate Hupload Hstart.
    unfold handleSign. rewrite Hmulti, Hform, Hfile, Hpdf, Hemail.
    cbn [negb SigningStore.createJob].
    rewrite startSigning_run.
    2: { unfold SigningStore.getJob. cbn. apply lookup_insert_eq. }
    cbn zeta. rewrite Hcreate. cbn [SigningJob.id].
    rewrite Hupload, Hstart. cbn [fst SigningJob.status SigningJob.fileName].
    by destruct (Goodflag.workflowStatus started), (Goodflag.workflowStatus workflow).
  - unfold handleSign. intros resp st' Hrun Hok.
    destruct (negb (JsString.includes _ _)).
    { injection Hrun as <- _. discriminate Hok. }
    destruct (formData req) as [e|form]; [discriminate Hrun|].
    destruct (formGet form "file") as [[s|file]|].
    1, 3: injection Hrun as <- _; discriminate Hok.
    destruct (notPdf file).
    { injection Hrun as <- _. discriminate Hok. }
    destruct (getTextValue (formGet form "signer_email")) as [signerEmail|].
    2: { injection Hrun as <- _. discriminate Hok. }
    cbn [SigningStore.createJob] in Hrun.
    match type of Hrun with
    | tryCatch (startSigning _ _ ?job ?file ?name ?info) _ ?s = _ =>
        destruct (startSigning_outcome api now job file name info s)
          as [(workflow & started & jobId & jobStatus & fileName & Hcreate & Hstart & Hres)
             |Hres];
        cbn zeta in Hres; rewrite Hrun in Hres; cbn [fst] in Hres;
        injection Hres as ->
    end.
    + eexists _, workflow, started, jobId, jobStatus, fileName.
      split; [exact Hcreate|]. split; [exact Hstart|]. cbn [body jsonResponse].
      by destruct (Goodflag.workflowStatus started), (Goodflag.workflowStatus workflow).
    + discriminate Hok.
Qed.

Lemma handleSign_workflow_status_witness :
  (handleSign (sampleApi (Some "draft") (Some "started by ann") None) "j1" sampleClock
     sampleRequest SigningStore.signingStore).1
  = inr (jsonResponse (SignJson "j1" pending "wf-1" "started by ann" "invoice.pdf") 200)
  ∧ (handleSign (sampleApi (Some "draft") None None) "j1" sampleClock
       sampleRequest SigningStore.signingStore).1
    = inr (jsonResponse (SignJson "j1" pending "wf-1" "draft" "invoice.pdf") 200)
  ∧ (handleSign (sampleApi None None None) "j1" sampleClock
       sampleRequest SigningStore.signingStore).1
    = inr (jsonResponse (SignJson "j1" pending "wf-1" "started" "invoice.pdf") 200).
Proof.
  split; [|split].
  - exact (proj1 (handleSign_workflow_status
                    (sampleApi (Some "draft") (Some "started by ann") None) "j1"
                    sampleClock sampleRequest SigningStore.signingStore)
             _ _ "ann@example.org" _ _ _
             eq_refl eq_refl eq_refl eq_refl eq_refl eq_refl eq_refl eq_refl).
  - exact (proj1 (handleSign_workflow_status
                    (sampleApi (Some "draft") None None) "j1"
                    sampleClock sampleRequest SigningStore.signingStore)
             _ _ "ann@example.org" _ _ _
             eq_refl eq_refl eq_refl eq_refl eq_refl eq_refl eq_refl eq_refl).
  - exact (proj1 (handleSign_workflow_status
                    (sampleApi None None None) "j1"
                    sampleClock sampleRequest SigningStore.signingStore)
             _ _ "ann@example.org" _ _ _
             eq_refl eq_refl eq_refl eq_refl eq_refl eq_refl eq_refl eq_refl).
Defined.

(** C10. The PDF-only check of [handleSign] rejects a file exactly when its
    MIME type is not empty, differs from [application/pdf], and its
    lowercased name does not end in [.pdf]; [handleSign] answers
    "Only PDF files are supported" exactly when the request is multipart,
    carries a file, and the check rejects it.  A file whose MIME type is
    empty passes the check whatever its name. *)
Theorem handleSign_pdf_check (api : Goodflag.Api) (randomUUID : string)
    (now : nat → Z) :
  (∀ file,
     notPdf file = true
     ↔ Goodflag.ftype file ≠ ""
       ∧ Goodflag.ftype file ≠ "application/pdf"
       ∧ ¬ ∃ p, JsString.toLowerCase (Goodflag.fname file) = p +:+ ".pdf")
  ∧ (∀ req st,
       (handleSign api randomUUID now req st).1
       = inr (jsonResponse (ErrorJson "Only PDF files are supported") 400)
       ↔ ∃ form file,
           JsString.includes (JsString.nullish (contentTypeHeader req) "")
                             "multipart/form-data" = true
           ∧ formData req = inr form
           ∧ formGet form "file" = Some (EntryFile file)
           ∧ notPdf file = true)
  ∧ (∀ name bytes,
       notPdf {| Goodflag.fname := name; Goodflag.ftype := ""; Goodflag.fbytes := bytes |}
       = false).
Proof.
  split; [|split].
  - intros file. unfold notPdf, JsString.truthy.
    rewrite !andb_true_iff, !negb_true_iff.
    rewrite <- (not_true_iff_false (JsString.endsWith _ _)), endsWith_spec.
    rewrite !String.eqb_neq. tauto.
  - intros req st. unfold handleSign. split.
    + destruct (JsString.includes _ _) eqn:Hmulti; cbn [negb fst]; [|discriminate].
      destruct (formData req) as [e|form]; [discriminate|].
      destruct (formGet form "file") as [[s|file]|] eqn:Hfile; try discriminate.
      destruct (notPdf file) eqn:Hpdf.
      { intros _. by exists form, file. }
      destruct (getTextValue (formGet form "signer_email")); [|discriminate].
      cbn [SigningStore.createJob].
      match goal with
      | |- (tryCatch (startSigning _ _ ?job ?file ?name ?info) _ ?s).1 = _ → _ =>
          destruct (startSigning_outcome api now job file name info s)
            as [(w & sw & j & js & fn & _ & _ & Hres)|Hres];
          cbn zeta in Hres; rewrite Hres; discriminate
      end.
    + intros (form & file & Hmulti & Hform & Hfile & Hpdf).
      by rewrite Hmulti, Hform, Hfile, Hpdf.
  - reflexivity.
Qed.

(** ** The status handler *)

Section StatusFacts.

Variable api : Goodflag.Api.
Variable now : nat → Z.

Implicit Types (st : SigningStore.t) (job : SigningJob.t).

Ltac run_try :=
  unfold mbind, Try_bind, mret, Try_ret, await, theJob, onStore, reloadJob,
    modifyState; cbn [fst snd].

Lemma truthy_Some_true s : s ≠ "" → JsString.truthy (Some s) = true.
Proof. intros Hne. unfold JsString.truthy. by rewrite (proj2 (String.eqb_neq _ _) Hne). Qed.

(** The poll state after [recordStatus]. *)
Lemma recordStatus_run jobId st job workflow :
  SigningStore.getJob jobId st = Some job →
  SigningJob.id job = jobId →
  recordStatus now jobId workflow (st, Some job)
  = (inr tt,
     match Goodflag.workflowStatus workflow with
     | Some ws =>
         if JsString.truthy (Some ws)
         then (SigningStore.setWorkflowStatus jobId ws (now 0%nat) st,
               Some (SigningStore.assignWorkflowStatus ws (now 0%nat) job))
         else (st, Some job)
     | None => (st, Some job)
     end).
Proof.
  intros Hjob Hid. unfold recordStatus.
  destruct (Goodflag.workflowStatus workflow) as [ws|]; [|done].
  destruct (JsString.truthy (Some ws)); [|done].
  run_try. rewrite Hid. unfold SigningStore.getJob, SigningStore.setWorkflowStatus in *.
  by rewrite (mutate_lookup_same _ _ _ _ Hjob).
Qed.

Lemma settle_finished jobId st job wid workflow signed :
  SigningStore.getJob jobId st = Some job →
  SigningJob.id job = jobId →
  SigningJob.workflowId job = Some wid →
  JsString.toLowerCase <$> Goodflag.workflowStatus workflow = Some "finished" →
  Goodflag.downloadWorkflowDocuments api wid = inr signed →
  settle api now jobId workflow (st, Some job)
  = (inr tt,
     (SigningStore.completeJob jobId (signedPayload signed) (now 1%nat) st,
      Some (SigningStore.assignCompleted (signedPayload signed) (now 1%nat) job))).
Proof.
  intros Hjob Hid Hwid Hfin Hdl. unfold settle.
  rewrite bool_decide_eq_true_2 by done.
  run_try. rewrite Hwid. cbn [JsString.nullish]. rewrite Hdl, Hid.
  unfold SigningStore.getJob, SigningStore.completeJob in *.
  by rewrite (mutate_lookup_same _ _ _ _ Hjob).
Qed.

Lemma settle_finished_rejected jobId st job wid workflow e :
  SigningJob.workflowId job = Some wid →
  JsString.toLowerCase <$> Goodflag.workflowStatus workflow = Some "finished" →
  Goodflag.downloadWorkflowDocuments api wid = inl e →
  settle api now jobId workflow (st, Some job) = (inl e, (st, Some job)).
Proof.
  intros Hwid Hfin Hdl. unfold settle.
  rewrite bool_decide_eq_true_2 by done.
  run_try. rewrite Hwid. cbn [JsString.nullish]. by rewrite Hdl.
Qed.




(** The [try] block with its [catch], once the fetch has resolved: the store
    and the variable [job] it leaves are those of [settle], run after
    [recordStatus], whether [settle] throws or not. *)
Lemma refreshWorkflow_run jobId st job wid remote :
  SigningStore.getJob jobId st = Some job →
  SigningJob.id job = jobId →
  SigningJob.workflowId job = Some wid →
  Goodflag.fetchWorkflow api wid = inr remote →
  (tryCatch (refreshWorkflow api now jobId) (λ err, mret tt) (st, Some job)).2
  = (settle api now jobId remote
       (recordStatus now jobId remote (st, Some job)).2).2.
Proof.
  intros Hjob Hid Hwid Hfetch.
  unfold tryCatch, refreshWorkflow, mbind, Try_bind, await, theJob. cbn [fst snd].
  rewrite Hwid. cbn [JsString.nullish]. rewrite Hfetch.
  rewrite (recordStatus_run jobId st job remote Hjob Hid). cbn [snd].
  by destruct (settle api now jobId remote _) as [[e|[]] s'].
Qed.

End StatusFacts.



(** The [catch] of the status poll: when the remote status is [finished] but
    the download is rejected, the rejection is swallowed and the job stays
    [pending], with the remote status recorded; the next poll tries again. *)
Lemma handleGetStatus_download_rejected (api : Goodflag.Api) (now : nat → Z)
    (ops : list StoreOp) (ttl : Z) (jobId wid ws : string) (job : SigningJob.t)
    (remote : Goodflag.GoodflagWorkflow) (e : Thrown) :
  let st := runOps ops (SigningStore.create ttl) in
  SigningStore.getJob jobId st = Some job →
  SigningJob.status job = pending →
  SigningJob.workflowId job = Some wid →
  wid ≠ "" →
  Goodflag.fetchWorkflow api wid = inr remote →
  Goodflag.workflowStatus remote = Some ws →
  JsString.toLowerCase ws = "finished" →
  Goodflag.downloadWorkflowDocuments api wid = inl e →
  handleGetStatus api now jobId st
  = (inr (statusSummary (SigningStore.assignWorkflowStatus ws (now 0%nat) job)),
     SigningStore.setWorkflowStatus jobId ws (now 0%nat) st).
Proof.
  intros st Hjob Hpending Hwid Hne Hfetch Hws Hfin Hdl.
  assert (Hid : SigningJob.id job = jobId).
  { by apply (runOps_keyed ops (SigningStore.create ttl) (create_keyed ttl) jobId). }
  assert (Hws_ne : ws ≠ "") by (intros ->; discriminate Hfin).
  unfold handleGetStatus. rewrite Hjob, Hpending, Hwid.
  rewrite bool_decide_eq_true_2 by done. rewrite truthy_Some_true by done.
  cbn [andb]. rewrite (refreshWorkflow_run api now jobId st job wid remote) by done.
  rewrite (recordStatus_run now jobId st job remote Hjob Hid), Hws.
  rewrite truthy_Some_true by done. cbn [snd].
  erewrite settle_finished_rejected; [done|exact Hwid| |exact Hdl].
  rewrite Hws. cbn. by rewrite Hfin.
Qed.

(** ** Reversal, and the scan of [trim] and of the header normalisation *)

Section ReverseFacts.

Implicit Types (s t : string) (c : ascii).

Lemma rev_app_app s t : String.rev_app s t = String.rev_app s "" +:+ t.
Proof.
  revert t. induction s as [|a s IH]; intros t; [done|]. cbn.
  rewrite (IH (String a t)), (IH (String a "")).
  generalize (String.rev_app s ""). intros r.
  induction r as [|b r IHr]; [done|]. rewrite !app_cons. by rewrite IHr.
Qed.

Lemma rev_cons a s : String.rev (String a s) = String.rev s +:+ String a "".
Proof. unfold String.rev. cbn. apply rev_app_app. Qed.

Lemma app_empty_r s : s +:+ "" = s.
Proof. induction s as [|a s IH]; [done|]. rewrite app_cons. by rewrite IH. Qed.

Lemma app_assoc_s s t u : (s +:+ t) +:+ u = s +:+ (t +:+ u).
Proof. induction s as [|a s IH]; [done|]. rewrite !app_cons. by rewrite IH. Qed.

Lemma rev_app_s s t : String.rev (s +:+ t) = String.rev t +:+ String.rev s.
Proof.
  induction s as [|a s IH].
  - rewrite app_empty. by rewrite app_empty_r.
  - rewrite app_cons, !rev_cons, IH. apply app_assoc_s.
Qed.

Lemma rev_involutive_s s : String.rev (String.rev s) = s.
Proof.
  induction s as [|a s IH]; [done|].
  rewrite rev_cons, rev_app_s, IH. done.
Qed.

End ReverseFacts.

Section StripFacts.

Variable one : ascii → bool.
Variable two : ascii → ascii → bool.
Variable three : ascii → ascii → ascii → bool.

Implicit Types (s t : string).

Local Abbreviation strip := (JsString.strip one two three).
Local Abbreviation classAt := (JsString.classAt one two three).

Lemma strip_step s :
  strip s = match classAt s with
            | Some rest => strip rest
            | None => s
            end.
Proof.
  destruct s as [|a [|b [|c s]]]; cbn; try done.
  - by destruct (one a).
  - destruct (one a); [done|]. by destruct (two a b).
  - destruct (one a); [done|]. destruct (two a b); [done|]. by destruct (three a b c).
Qed.

Lemma classAt_shorter s rest :
  classAt s = Some rest → (String.length rest < String.length s)%nat.
Proof.
  destruct s as [|a [|b [|c s]]]; cbn; try done.
  - destruct (one a); [|done]. intros [= <-]. cbn. lia.
  - destruct (one a); [intros [= <-]; cbn; lia|].
    destruct (two a b); [|done]. intros [= <-]. cbn. lia.
  - destruct (one a); [intros [= <-]; cbn; lia|].
    destruct (two a b); [intros [= <-]; cbn; lia|].
    destruct (three a b c); [|done]. intros [= <-]. cbn. lia.
Qed.

Lemma classAt_app s t rest :
  classAt s = Some rest → classAt (s +:+ t) = Some (rest +:+ t).
Proof.
  destruct s as [|a [|b [|c s]]]; rewrite ?app_cons, ?app_empty; cbn; try done.
  - destruct (one a); [|done]. intros [= <-]. rewrite app_empty.
    destruct t as [|b [|c t]]; cbn; done.
  - destruct (one a).
    { intros [= <-]. by rewrite app_cons, app_empty. }
    destruct (two a b); [|done]. intros [= <-]. by rewrite app_empty.
  - destruct (one a).
    { intros [= <-]. by rewrite !app_cons. }
    destruct (two a b).
    { intros [= <-]. by rewrite !app_cons. }
    destruct (three a b c); [|done]. by intros [= <-].
Qed.

(** The scan stops where no character of the class starts. *)
Lemma strip_stops s : classAt (strip s) = None.
Proof.
  remember (String.length s) as n eqn:Hn. revert s Hn.
  induction n as [n IH] using lt_wf_ind. intros s ->.
  rewrite strip_step. destruct (classAt s) as [rest|] eqn:Hat; [|done].
  apply (IH (String.length rest)); [by apply classAt_shorter | done].
Qed.

Lemma strip_fixed s : classAt s = None → strip s = s.
Proof. intros Hat. by rewrite strip_step, Hat. Qed.

(** What the scan leaves is the end of the string. *)
Lemma strip_suffix s : ∃ pre, s = pre +:+ strip s.
Proof.
  remember (String.length s) as n eqn:Hn. revert s Hn.
  induction n as [n IH] using lt_wf_ind. intros s ->.
  rewrite strip_step. destruct (classAt s) as [rest|] eqn:Hat; [|by exists ""].
  destruct (IH (String.length rest) (classAt_shorter s rest Hat) rest eq_refl)
    as [pre Hpre].
  revert Hat. destruct s as [|a [|b [|c s]]]; cbn; try done.
  - destruct (one a); [|done]. intros [= <-]. exists (String a ""). done.
  - destruct (one a).
    { intros [= <-]. exists (String a pre). rewrite app_cons. by rewrite <- Hpre. }
    destruct (two a b); [|done]. intros [= <-].
    exists (String a (String b "")). done.
  - destruct (one a).
    { intros [= <-]. exists (String a pre). rewrite app_cons. by rewrite <- Hpre. }
    destruct (two a b).
    { intros [= <-]. exists (String a (String b pre)). rewrite !app_cons.
      by rewrite <- Hpre. }
    destruct (three a b c); [|done]. intros [= <-].
    exists (String a (String b (String c pre))). rewrite !app_cons. by rewrite <- Hpre.
Qed.

End StripFacts.

(** ** The values [new Headers] accepts *)

Section HeaderValueFacts.

Implicit Types (v w name : string).

Lemma byteString_app v w : byteString (v +:+ w) = byteString v && byteString w.
Proof.
  induction v as [|a v IH]; [by rewrite app_empty|].
  rewrite app_cons. cbn. by rewrite IH, andb_assoc.
Qed.

Lemma clean_app v w : clean (v +:+ w) = clean v && clean w.
Proof.
  induction v as [|a v IH]; [by rewrite app_empty|].
  rewrite app_cons. cbn. by rewrite IH, andb_assoc.
Qed.

Lemma skipWhitespace_head a v :
  httpWhitespace a = false → skipWhitespace (String a v) = String a v.
Proof.
  intros Ha. apply strip_fixed. destruct v as [|b [|c v]]; cbn; by rewrite Ha.
Qed.

(** A value that neither starts nor ends with HTTP whitespace is left as it
    is by the normalisation. *)
Lemma httpTrim_between a v b :
  httpWhitespace a = false → httpWhitespace b = false →
  httpTrim (String a (v +:+ String b "")) = String a (v +:+ String b "").
Proof.
  intros Ha Hb. unfold httpTrim. rewrite (skipWhitespace_head a _ Ha).
  assert (Hrev : String.rev (String a (v +:+ String b ""))
                 = String b (String.rev v +:+ String a "")).
  { rewrite rev_cons, rev_app_s. change (String.rev (String b "")) with (String b "").
    by rewrite !app_cons, app_empty. }
  rewrite Hrev, (skipWhitespace_head b _ Hb).
  rewrite rev_cons, rev_app_s, rev_involutive_s.
  change (String.rev (String a "")) with (String a "").
  by rewrite !app_cons, app_empty.
Qed.

Lemma httpTrim_attachment name :
  httpTrim (attachmentHeader name) = attachmentHeader name.
Proof.
  unfold attachmentHeader, dquote.
  change ("attachment; filename=" +:+ String (ascii_of_nat 34) "" +:+ name
          +:+ String (ascii_of_nat 34) "")
    with (String "a" (("ttachment; filename=" +:+ String (ascii_of_nat 34) "" +:+ name)
                      +:+ String (ascii_of_nat 34) "")).
  by apply httpTrim_between.
Qed.

(** The attachment header is accepted exactly when the name has no code
    point above U+00FF and no NUL, line feed or carriage return, and it is
    stored as written. *)
Lemma headerValue_attachment name :
  headerValue (attachmentHeader name)
  = if byteString name && clean name
    then inr (attachmentHeader name) else inl invalidHeader.
Proof.
  unfold headerValue. rewrite httpTrim_attachment. unfold attachmentHeader.
  rewrite !byteString_app, !clean_app.
  change (byteString "attachment; filename=") with true.
  change (byteString dquote) with true.
  change (clean "attachment; filename=") with true.
  change (clean dquote) with true.
  cbn [andb]. rewrite !andb_true_r.
  by destruct (byteString name), (clean name).
Qed.

Lemma headerValue_inr v w :
  headerValue v = inr w →
  w = httpTrim v ∧ byteString v = true ∧ clean (httpTrim v) = true.
Proof.
  unfold headerValue. destruct (byteString v); [|discriminate].
  destruct (clean (httpTrim v)); [|discriminate]. by intros [= <-].
Qed.

Lemma downloadHeaders_attachment type name :
  downloadHeaders type (attachmentHeader name)
  = if byteString type && clean (httpTrim type) && byteString name && clean name
    then inr (httpTrim type, attachmentHeader name) else inl invalidHeader.
Proof.
  unfold downloadHeaders. rewrite headerValue_attachment. unfold headerValue.
  destruct (byteString type), (clean (httpTrim type)), (byteString name), (clean name);
    done.
Qed.

End HeaderValueFacts.

(** ** The download handler *)


(** The recorded content type is not always the one served.  In
    [untypedStore] it is the empty string, and the download answers with
    [application/pdf], the original type of the file. *)
Lemma download_replaces_empty_type :
  SigningJob.signedContentType <$> SigningStore.getJob "j1" untypedStore
  = Some (Some "")
  ∧ handleDownload "j1" untypedStore
    = inr {| status := 200;
             contentType := "application/pdf";
             contentDisposition :=
               Some ("attachment; filename=" +:+ dquote +:+ "report-signed.pdf"
                     +:+ dquote);
             body := BytesBody [x25; x50; x44; x46] |}.
Proof. split; vm_compute; reflexivity. Qed.

(** In [blankTypeStore] the recorded content type is one space, and the
    download answers with the empty content type: [new Headers] strips the
    whitespace at the ends of a value. *)
Lemma download_strips_blank_type :
  SigningJob.signedContentType <$> SigningStore.getJob "j1" blankTypeStore
  = Some (Some " ")
  ∧ handleDownload "j1" blankTypeStore
    = inr {| status := 200;
             contentType := "";
             contentDisposition :=
               Some ("attachment; filename=" +:+ dquote +:+ "report-signed.pdf"
                     +:+ dquote);
             body := BytesBody [x25; x50; x44; x46] |}.
Proof. split; vm_compute; reflexivity. Qed.

(** The download of a completed job that has its signed document: the
    headers are built from the content type and the attachment name, and
    the answer depends on whether [new Headers] accepts them. *)
Lemma handleDownload_completed st jobId job doc :
  SigningStore.getJob jobId st = Some job →
  SigningJob.status job = completed →
  SigningJob.signedDocument job = Some doc →
  handleDownload jobId st
  = let type := JsString.orElse (SigningJob.signedContentType job)
                  (JsString.orElse (Some (SigningJob.fileType job)) "application/pdf") in
    let name := JsString.nullish (SigningJob.signedFileName job)
                  (SigningJob.fileName job) in
    if byteString type && clean (httpTrim type) && byteString name && clean name
    then inr {| status := 200;
                contentType := httpTrim type;
                contentDisposition := Some (attachmentHeader name);
                body := BytesBody doc |}
    else inl invalidHeader.
Proof.
  intros Hjob Hstatus Hdoc. unfold handleDownload. rewrite Hjob, Hstatus, Hdoc.
  rewrite bool_decide_eq_true_2 by done.
  rewrite bool_decide_eq_true_2 by by eexists.
  cbn [negb orb]. cbn zeta.
  match goal with
  | |- context [downloadHeaders ?t ("attachment; filename=" +:+ dquote +:+ ?n +:+ dquote)] =>
      fold (attachmentHeader n); rewrite (downloadHeaders_attachment t n);
      by destruct (byteString t && clean (httpTrim t) && byteString n && clean n)
  end.
Qed.



(** * Further properties of the code *)

(** ** The store under sequences of calls *)

Section MoreStoreFacts.

Import SigningStore.
Implicit Types (st : SigningStore.t) (job : SigningJob.t) (key : string).

Lemma store_eq st1 st2 :
  jobs st1 = jobs st2 → ttlMs st1 = ttlMs st2 → st1 = st2.
Proof. destruct st1, st2. cbn. by intros -> ->. Qed.

Lemma mutate_ttl key f st : ttlMs (mutate key f st) = ttlMs st.
Proof. unfold mutate. by destruct (jobs st !! key). Qed.

Lemma mutate_dom key f st : dom (jobs (mutate key f st)) = dom (jobs st).
Proof.
  apply set_eq. intros k. rewrite !elem_of_dom, mutate_lookup.
  case_decide; [|done]. by rewrite fmap_is_Some.
Qed.

Lemma mutate_comm k1 k2 f g st :
  k1 ≠ k2 → mutate k1 f (mutate k2 g st) = mutate k2 g (mutate k1 f st).
Proof.
  intros Hne. apply store_eq; [|by rewrite !mutate_ttl].
  apply map_eq. intros k. rewrite !mutate_lookup.
  repeat case_decide; subst; done.
Qed.

(** A mutation call is [mutate] with the assignments of that call. *)
Lemma mutation_is_mutate op :
  isMutation op = true →
  ∃ key f, opKey op = Some key ∧ ∀ st, applyOp st op = mutate key f st.
Proof.
  destruct op; try discriminate; intros _; eexists _, _; (split; [done|]);
    intros st; reflexivity.
Qed.

Lemma applyOp_ttl st op : ttlMs (applyOp st op) = ttlMs st.
Proof.
  destruct op; cbn [applyOp]; try apply mutate_ttl; done.
Qed.

Lemma runOps_ttl ops st : ttlMs (runOps ops st) = ttlMs st.
Proof.
  revert st. induction ops as [|op ops IH]; intros st; [done|].
  cbn. by rewrite IH, applyOp_ttl.
Qed.

End MoreStoreFacts.

(** A relation between the record of a job before and after store calls that
    every assignment of the store respects. *)
Section Preserved.

Variable R : SigningJob.t → SigningJob.t → Prop.

Hypothesis R_refl : ∀ job, R job job.
Hypothesis R_trans : ∀ job1 job2 job3, R job1 job2 → R job2 job3 → R job1 job3.
Hypothesis R_workflow : ∀ wid ws now job,
  R job (SigningStore.assignWorkflow wid ws now job).
Hypothesis R_workflowStatus : ∀ ws now job,
  R job (SigningStore.assignWorkflowStatus ws now job).
Hypothesis R_completed : ∀ payload now job,
  R job (SigningStore.assignCompleted payload now job).
Hypothesis R_failed : ∀ message now job,
  R job (SigningStore.assignFailed message now job).

Lemma applyOp_preserved st key job op :
  SigningStore.getJob key st = Some job →
  recreates key op = false →
  match SigningStore.getJob key (applyOp st op) with
  | Some job' => R job job'
  | None => True
  end.
Proof using All.
  unfold SigningStore.getJob. intros Hjob Hop.
  destruct op; cbn [applyOp recreates] in *;
    unfold SigningStore.setWorkflow, SigningStore.setWorkflowStatus,
           SigningStore.completeJob, SigningStore.failJob;
    rewrite ?createJob_lookup, ?mutate_lookup, ?evictExpired_lookup.
  - apply bool_decide_eq_false in Hop. rewrite decide_False by done.
    rewrite Hjob. apply R_refl.
  - case_decide; rewrite Hjob; cbn; [apply R_workflow | apply R_refl].
  - case_decide; rewrite Hjob; cbn; [apply R_workflowStatus | apply R_refl].
  - case_decide; rewrite Hjob; cbn; [apply R_completed | apply R_refl].
  - case_decide; rewrite Hjob; cbn; [apply R_failed | apply R_refl].
  - rewrite Hjob. destruct (SigningStore.expired _ _ job); [done | apply R_refl].
Qed.

Lemma applyOp_stays_absent st key op :
  SigningStore.getJob key st = None →
  recreates key op = false →
  SigningStore.getJob key (applyOp st op) = None.
Proof using Type.
  unfold SigningStore.getJob. intros Hnone Hop.
  destruct op; cbn [applyOp recreates] in *;
    unfold SigningStore.setWorkflow, SigningStore.setWorkflowStatus,
           SigningStore.completeJob, SigningStore.failJob;
    rewrite ?createJob_lookup, ?mutate_lookup, ?evictExpired_lookup, ?Hnone;
    try (case_decide; by rewrite ?Hnone); try done.
  all: apply bool_decide_eq_false in Hop; by rewrite decide_False.
Qed.

Lemma runOps_stays_absent ops st key :
  SigningStore.getJob key st = None →
  forallb (λ op, negb (recreates key op)) ops = true →
  SigningStore.getJob key (runOps ops st) = None.
Proof using Type.
  revert st. induction ops as [|op ops IH]; intros st Hnone Hops; [done|].
  cbn in Hops. apply andb_true_iff in Hops as [Hop%negb_true_iff Hops].
  cbn. apply IH; [|done]. by apply applyOp_stays_absent.
Qed.

Lemma runOps_preserved ops st key job job' :
  SigningStore.getJob key st = Some job →
  forallb (λ op, negb (recreates key op)) ops = true →
  SigningStore.getJob key (runOps ops st) = Some job' →
  R job job'.
Proof using All.
  revert st job. induction ops as [|op ops IH]; intros st job Hjob Hops Hjob'.
  - cbn in Hjob'. rewrite Hjob in Hjob'. injection Hjob' as <-. apply R_refl.
  - cbn in Hops. apply andb_true_iff in Hops as [Hop%negb_true_iff Hops].
    cbn in Hjob'. pose proof (applyOp_preserved st key job op Hjob Hop) as Hstep.
    destruct (SigningStore.getJob key (applyOp st op)) as [job1|] eqn:Hjob1.
    + eapply R_trans; [exact Hstep|]. by eapply IH.
    + rewrite runOps_stays_absent in Hjob'; done.
Qed.

End Preserved.

(** X1.  In every store reached from the empty store by store calls, a job is
    filed under its own id: what [getJob key] returns has [id = key]. *)
Theorem reachable_store_keyed (ops : list StoreOp) (ttl : Z) (key : string)
    (job : SigningJob.t) :
  SigningStore.getJob key (runOps ops (SigningStore.create ttl)) = Some job →
  SigningJob.id job = key.
Proof.
  intros Hjob.
  by apply (runOps_keyed ops (SigningStore.create ttl) (create_keyed ttl) key).
Qed.

Lemma reachable_store_keyed_witness :
  SigningJob.id <$> SigningStore.getJob "j1" completedStore = Some "j1".
Proof.
  destruct (SigningStore.getJob "j1" completedStore) as [job|] eqn:Hjob;
    [|by vm_compute in Hjob].
  cbn. f_equal.
  exact (reachable_store_keyed
           [OpCreateJob "j1" 0 "report.pdf" "application/pdf";
            OpSetWorkflow "j1" "wf-1" (Some "draft") 1;
            OpCompleteJob "j1" samplePayload 2]
           SigningStore.ONE_HOUR "j1" job Hjob).
Defined.

(** X2.  The fields [createJob] sets and no other method assigns, [id],
    [fileName], [fileType] and [createdAt], keep their values: after any
    sequence of store calls in which [createJob] does not draw the job's id
    again, the job, when it is still there, has the four as before. *)
Theorem identity_fields_kept (ops : list StoreOp) (st : SigningStore.t)
    (key : string) (job job' : SigningJob.t) :
  SigningStore.getJob key st = Some job →
  forallb (λ op, negb (recreates key op)) ops = true →
  SigningStore.getJob key (runOps ops st) = Some job' →
  sameIdentity job job'.
Proof.
  apply (runOps_preserved sameIdentity); unfold sameIdentity; cbn; try done.
  intros job1 job2 job3 (-> & -> & -> & ->) (-> & -> & -> & ->). done.
Qed.

Lemma identity_fields_kept_witness :
  ∃ job', SigningStore.getJob "j1" completedStore = Some job'
    ∧ SigningJob.fileName job' = "report.pdf" ∧ SigningJob.createdAt job' = 0.
Proof.
  destruct (SigningStore.getJob "j1" completedStore) as [job'|] eqn:Hjob';
    [|by vm_compute in Hjob'].
  assert (Hjob : SigningStore.getJob "j1" pendingStore
                 = Some (SigningStore.createJob "j1" 0 "report.pdf" "application/pdf"
                           SigningStore.signingStore).1)
    by (vm_compute; reflexivity).
  destruct (identity_fields_kept
              [OpSetWorkflow "j1" "wf-1" (Some "draft") 1;
               OpCompleteJob "j1" samplePayload 2]
              pendingStore "j1" _ job' Hjob eq_refl Hjob')
    as (_ & Hname & _ & Hcreated).
  exists job'. split; [done|]. split; [exact Hname | exact Hcreated].
Defined.

(** X3.  What one store call does to the set of ids the map holds:
    [createJob] adds the id it drew, the four mutators leave the set as it
    is (they create no entry for an unknown id and delete none), and the
    sweep only removes ids. *)
Theorem key_set_after_call (st : SigningStore.t) (op : StoreOp) :
  match op with
  | OpCreateJob uuid _ _ _ =>
      dom (SigningStore.jobs (applyOp st op)) = {[uuid]} ∪ dom (SigningStore.jobs st)
  | OpEvictExpired _ =>
      dom (SigningStore.jobs (applyOp st op)) ⊆ dom (SigningStore.jobs st)
  | _ => dom (SigningStore.jobs (applyOp st op)) = dom (SigningStore.jobs st)
  end.
Proof.
  destruct op; cbn [applyOp]; try apply mutate_dom.
  - cbn. apply dom_insert_L.
  - intros k. rewrite !elem_of_dom, evictExpired_lookup.
    destruct (SigningStore.jobs st !! k); [done|]. by intros [? ?].
Qed.

(** X4.  A mutator called on a job the store holds stamps [updatedAt] with the time
    of the call, so a sweep at a time no more than [ttlMs] after the call
    keeps the job as the call left it. *)
Theorem touched_job_survives (st : SigningStore.t) (key : string)
    (job : SigningJob.t) (op : StoreOp) (now : Z) :
  SigningStore.getJob key st = Some job →
  opKey op = Some key →
  now - opTime op ≤ SigningStore.ttlMs st →
  ∃ job', SigningStore.getJob key (applyOp st op) = Some job'
    ∧ SigningJob.updatedAt job' = opTime op
    ∧ SigningStore.getJob key (SigningStore.evictExpired now (applyOp st op)) = Some job'.
Proof.
  unfold SigningStore.getJob. intros Hjob Hkey Hfresh.
  assert (Hstep : ∃ job', SigningStore.jobs (applyOp st op) !! key = Some job'
                          ∧ SigningJob.updatedAt job' = opTime op).
  { destruct op; try discriminate Hkey; injection Hkey as ->; cbn [applyOp opTime];
      unfold SigningStore.setWorkflow, SigningStore.setWorkflowStatus,
             SigningStore.completeJob, SigningStore.failJob;
      rewrite (mutate_lookup_same _ _ _ _ Hjob); eauto. }
  destruct Hstep as (job' & Hjob' & Htime). exists job'.
  split; [done|]. split; [done|].
  rewrite evictExpired_lookup, Hjob', applyOp_ttl.
  unfold SigningStore.expired. rewrite Htime.
  destruct (Z.gtb_spec (now - opTime op) (SigningStore.ttlMs st)); [lia | done].
Qed.

Lemma touched_job_survives_witness :
  is_Some (SigningStore.getJob "j1"
             (SigningStore.evictExpired 3600001
                (applyOp pendingStore (OpSetWorkflowStatus "j1" "started" 5)))).
Proof.
  assert (Hjob : SigningStore.getJob "j1" pendingStore
                 = Some (SigningStore.createJob "j1" 0 "report.pdf" "application/pdf"
                           SigningStore.signingStore).1)
    by (vm_compute; reflexivity).
  destruct (touched_job_survives pendingStore "j1" _
              (OpSetWorkflowStatus "j1" "started" 5) 3600001 Hjob eq_refl)
    as (job' & _ & _ & Hkept).
  { vm_compute. discriminate. }
  rewrite Hkept. by eexists.
Defined.

(** X5.  Two sweeps in a row amount to the later one: with [now ≤ now'], sweeping
    at [now] and then at [now'] gives the store a single sweep at [now']
    gives, and a sweep at the earlier time after one at the later time
    removes nothing more. *)
Theorem sweeps_compose (now now' : Z) (st : SigningStore.t) :
  now ≤ now' →
  SigningStore.evictExpired now' (SigningStore.evictExpired now st)
  = SigningStore.evictExpired now' st
  ∧ SigningStore.evictExpired now (SigningStore.evictExpired now' st)
    = SigningStore.evictExpired now' st.
Proof.
  intros Hle.
  assert (Hmono : ∀ job, SigningStore.expired now (SigningStore.ttlMs st) job = true →
                         SigningStore.expired now' (SigningStore.ttlMs st) job = true).
  { intros job. unfold SigningStore.expired. rewrite !Z.gtb_gt. lia. }
  split; (apply store_eq; [|done]); apply map_eq; intros k;
    rewrite !evictExpired_lookup; cbn [SigningStore.ttlMs SigningStore.evictExpired
                                        SigningStore.withJobs];
    destruct (SigningStore.jobs st !! k) as [job|]; try done.
  - destruct (SigningStore.expired now _ job) eqn:Hnow.
    + by rewrite (Hmono job Hnow).
    + done.
  - destruct (SigningStore.expired now' _ job) eqn:Hnow'; [done|].
    destruct (SigningStore.expired now _ job) eqn:Hnow; [|done].
    by rewrite (Hmono job Hnow) in Hnow'.
Qed.

Lemma sweeps_compose_witness :
  SigningStore.evictExpired 3600001 (SigningStore.evictExpired 10 completedStore)
  = SigningStore.evictExpired 3600001 completedStore.
Proof.
  assert (Hle : 10 ≤ 3600001) by (vm_compute; discriminate).
  exact (proj1 (sweeps_compose 10 3600001 completedStore Hle)).
Defined.

(** X6.  Mutator calls made with different job ids commute: the store after the
    two calls is the same in either order, so the order in which the calls
    of two requests on different jobs interleave does not matter. *)
Theorem mutations_of_other_jobs_commute (st : SigningStore.t) (op1 op2 : StoreOp) :
  isMutation op1 = true →
  isMutation op2 = true →
  opKey op1 ≠ opKey op2 →
  applyOp (applyOp st op1) op2 = applyOp (applyOp st op2) op1.
Proof.
  intros (k1 & f1 & Hk1 & Hop1)%mutation_is_mutate
         (k2 & f2 & Hk2 & Hop2)%mutation_is_mutate Hne.
  rewrite !Hop1, !Hop2. apply mutate_comm. congruence.
Qed.

Lemma mutations_of_other_jobs_commute_witness :
  applyOp (applyOp completedStore (OpFailJob "j2" "boom" 4))
          (OpSetWorkflowStatus "j1" "finished" 5)
  = applyOp (applyOp completedStore (OpSetWorkflowStatus "j1" "finished" 5))
            (OpFailJob "j2" "boom" 4).
Proof.
  apply mutations_of_other_jobs_commute; [reflexivity | reflexivity | discriminate].
Defined.

(** X7.  [#defaultSignedName] turns [base.pdf] into [base-signed.pdf], whatever
    dots [base] has, and gives a name without a dot the name it gives the
    same name with [.pdf] appended. *)
Theorem defaultSignedName_of_pdf (base : string) :
  SigningStore.defaultSignedName (base +:+ ".pdf") = base +:+ "-signed.pdf"
  ∧ (occurs "." base = false →
     SigningStore.defaultSignedName base
     = SigningStore.defaultSignedName (base +:+ ".pdf")).
Proof.
  assert (Hpdf : SigningStore.defaultSignedName (base +:+ ".pdf") = base +:+ "-signed.pdf").
  { apply (defaultSignedName_extension base "pdf"). reflexivity. }
  split; [done|]. intros Hdot. rewrite Hpdf.
  by apply defaultSignedName_no_extension.
Qed.

Lemma defaultSignedName_of_pdf_witness :
  SigningStore.defaultSignedName "README"
  = SigningStore.defaultSignedName ("README" +:+ ".pdf").
Proof. apply (proj2 (defaultSignedName_of_pdf "README")). reflexivity. Defined.

(** X8.  In every store reached from the empty store by store calls, a job has
    [signedDocument], [signedFileName] and [signedContentType] all set or
    all unset, and a completed job has all three.  [handleDownload] serves
    it with status 200, the recorded bytes as body, the recorded name in the
    content-disposition header and the recorded content type (the file
    type, then [application/pdf], when it is empty) with the whitespace at
    its ends stripped, unless [new Headers] rejects the content type or the
    name: then it throws. *)
Theorem completed_job_is_downloadable (ops : list StoreOp) (ttl : Z)
    (key : string) (job : SigningJob.t) :
  SigningStore.getJob key (runOps ops (SigningStore.create ttl)) = Some job →
  signedTogether job
  ∧ (SigningJob.status job = completed →
     ∃ doc name recorded,
       SigningJob.signedDocument job = Some doc
       ∧ SigningJob.signedFileName job = Some name
       ∧ SigningJob.signedContentType job = Some recorded
       ∧ handleDownload key (runOps ops (SigningStore.create ttl))
         = let type := JsString.orElse (Some recorded)
                         (JsString.orElse (Some (SigningJob.fileType job))
                                          "application/pdf") in
           if byteString type && clean (httpTrim type) && byteString name && clean name
           then inr {| status := 200;
                       contentType := httpTrim type;
                       contentDisposition :=
                         Some ("attachment; filename=" +:+ dquote +:+ name +:+ dquote);
                       body := BytesBody doc |}
           else inl invalidHeader).
Proof.
  intros Hjob.
  assert (Hinv : signedTogether job
                 ∧ (SigningJob.status job = completed →
                    is_Some (SigningJob.signedDocument job))).
  { revert key job Hjob.
    fold (everyJob (λ job, signedTogether job
                           ∧ (SigningJob.status job = completed →
                              is_Some (SigningJob.signedDocument job)))
                   (runOps ops (SigningStore.create ttl))).
    apply reachable_everyJob; unfold signedTogether; cbn.
    - intros. split; [|done]. split; split; intros [? ?]; done.
    - intros wid ws now job0 H. exact H.
    - intros ws now job0 H. exact H.
    - intros payload now job0 _. split; [|by eauto]. split; split; eauto.
    - intros message now job0 [H1 H2]. split; [exact H1 | discriminate]. }
  destruct Hinv as [Htogether Hdoc]. split; [done|]. intros Hcompleted.
  destruct (Hdoc Hcompleted) as [doc Hsigned].
  destruct (proj1 (proj1 Htogether)) as [name Hname]; [by eexists|].
  destruct (proj1 (proj2 Htogether)) as [recorded Htype]; [by eexists|].
  exists doc, name, recorded. split; [done|]. split; [done|]. split; [done|].
  rewrite (handleDownload_completed _ key job doc Hjob Hcompleted Hsigned).
  by rewrite Hname, Htype.
Qed.

Lemma completed_job_is_downloadable_witness :
  handleDownload "j1" completedStore
  = inr {| status := 200;
           contentType := "application/pdf";
           contentDisposition :=
             Some ("attachment; filename=" +:+ dquote +:+ "report-signed.pdf"
                   +:+ dquote);
           body := BytesBody [x25; x50; x44; x46] |}.
Proof.
  destruct (SigningStore.getJob "j1" completedStore) as [job|] eqn:Hjob;
    [|by vm_compute in Hjob].
  destruct (completed_job_is_downloadable
              [OpCreateJob "j1" 0 "report.pdf" "application/pdf";
               OpSetWorkflow "j1" "wf-1" (Some "draft") 1;
               OpCompleteJob "j1" samplePayload 2]
              SigningStore.ONE_HOUR "j1" job Hjob) as [_ Hdownload].
  vm_compute in Hjob. injection Hjob as <-.
  destruct (Hdownload eq_refl) as (doc & name & recorded & Hdoc & Hname & Htype & Hrun).
  cbn in Hdoc, Hname, Htype.
  injection Hdoc as <-. injection Hname as <-. injection Htype as <-. exact Hrun.
Defined.

(** ** Status polls *)

Section PollFacts.

Variable api : Goodflag.Api.
Variable now : nat → Z.

Ltac run_poll :=
  unfold mbind, Try_bind, mret, Try_ret, await, theJob, onStore, reloadJob,
    modifyState; cbn [fst snd].

(** The outcomes of [settle] on a store that files the job under its id. *)
Lemma settle_cases jobId st job workflow :
  SigningStore.getJob jobId st = Some job →
  SigningJob.id job = jobId →
  ∃ r st' job',
    settle api now jobId workflow (st, Some job) = (r, (st', Some job'))
    ∧ ((st' = st ∧ job' = job)
       ∨ (JsString.truthy (Goodflag.workflowStatus workflow) = true
          ∧ ((∃ payload, st' = SigningStore.completeJob jobId payload (now 1%nat) st
                         ∧ job' = SigningStore.assignCompleted payload (now 1%nat) job)
             ∨ (∃ message, st' = SigningStore.failJob jobId message (now 1%nat) st
                           ∧ job' = SigningStore.assignFailed message (now 1%nat) job)))).
Proof.
  intros Hjob Hid. unfold settle.
  assert (Htruthy : ∀ ws, Goodflag.workflowStatus workflow = Some ws →
                          JsString.toLowerCase ws ≠ "" →
                          JsString.truthy (Goodflag.workflowStatus workflow) = true).
  { intros ws -> Hne. apply truthy_Some_true. by intros ->. }
  destruct (bool_decide _) eqn:Hfin.
  - apply bool_decide_eq_true in Hfin. run_poll.
    destruct (Goodflag.downloadWorkflowDocuments api _) as [e|signed].
    + eexists _, _, _. split; [done|]. by left.
    + rewrite Hid. eexists _, _, _. split.
      * unfold SigningStore.getJob, SigningStore.completeJob in *.
        by rewrite (mutate_lookup_same _ _ _ _ Hjob).
      * right. destruct (Goodflag.workflowStatus workflow) as [ws|] eqn:Hws;
          [|discriminate Hfin].
        injection Hfin as Hfin. split.
        { apply (Htruthy ws eq_refl). by rewrite Hfin. }
        left. by eexists.
  - destruct (JsString.truthy _ && listIncludes _ _) eqn:Hfail.
    + run_poll. rewrite Hid. eexists _, _, _. split.
      * unfold SigningStore.getJob, SigningStore.failJob in *.
        by rewrite (mutate_lookup_same _ _ _ _ Hjob).
      * right. apply andb_true_iff in Hfail as [Hfail _].
        destruct (Goodflag.workflowStatus workflow) as [ws|] eqn:Hws;
          [|discriminate Hfail].
        split.
        { apply (Htruthy ws eq_refl). intros Hempty. cbn in Hfail.
          by rewrite Hempty in Hfail. }
        right. by eexists.
    + eexists _, _, _. split; [done|]. by left.
Qed.

(** Every status poll of a job filed under its id answers with the summary
    of the job as the poll leaves it, and its effect on the store is one of
    the four of [PollEffect]. *)
Lemma poll_outcome jobId st job :
  SigningStore.getJob jobId st = Some job →
  SigningJob.id job = jobId →
  ∃ job' st',
    handleGetStatus api now jobId st = (inr (statusSummary job'), st')
    ∧ PollEffect jobId job st job' st'.
Proof.
  intros Hjob Hid. unfold handleGetStatus. rewrite Hjob.
  destruct (bool_decide _ && JsString.truthy _) eqn:Hguard.
  2: { eexists _, _. split; [done | constructor]. }
  apply andb_true_iff in Hguard as [_ Hwid].
  destruct (SigningJob.workflowId job) as [wid|] eqn:Hwid'; [|discriminate Hwid].
  destruct (Goodflag.fetchWorkflow api wid) as [e|remote] eqn:Hfetch.
  { unfold tryCatch, refreshWorkflow. run_poll. rewrite Hwid'. cbn [JsString.nullish].
    rewrite Hfetch. eexists _, _. split; [done | constructor]. }
  rewrite (refreshWorkflow_run api now jobId st job wid remote) by done.
  rewrite (recordStatus_run now jobId st job remote Hjob Hid). cbn [snd].
  destruct (Goodflag.workflowStatus remote) as [ws|] eqn:Hws.
  - destruct (JsString.truthy (Some ws)) eqn:Htruthy.
    + destruct (settle_cases jobId
                  (SigningStore.setWorkflowStatus jobId ws (now 0%nat) st)
                  (SigningStore.assignWorkflowStatus ws (now 0%nat) job) remote)
        as (r & st' & job' & -> & Hcases); [|done|].
      { unfold SigningStore.getJob, SigningStore.setWorkflowStatus in *.
        by apply mutate_lookup_same. }
      cbn [fst snd]. eexists _, _. split; [done|].
      destruct Hcases as [[-> ->]|[_ [(payload & -> & ->)|(message & -> & ->)]]];
        constructor.
    + destruct (settle_cases jobId st job remote Hjob Hid)
        as (r & st' & job' & -> & Hcases).
      cbn [fst snd]. eexists _, _. split; [done|].
      destruct Hcases as [[-> ->]|[Habs _]]; [constructor|].
      rewrite Hws in Habs. congruence.
  - destruct (settle_cases jobId st job remote Hjob Hid)
      as (r & st' & job' & -> & Hcases).
    cbn [fst snd]. eexists _, _. split; [done|].
    destruct Hcases as [[-> ->]|[Habs _]]; [constructor|].
    rewrite Hws in Habs. discriminate Habs.
Qed.

(** What every effect of a poll keeps. *)
Lemma PollEffect_frame jobId job st job' st' :
  SigningStore.getJob jobId st = Some job →
  PollEffect jobId job st job' st' →
  SigningStore.getJob jobId st' = Some job'
  ∧ (∀ key, key ≠ jobId → SigningStore.getJob key st' = SigningStore.getJob key st)
  ∧ dom (SigningStore.jobs st') = dom (SigningStore.jobs st)
  ∧ SigningStore.ttlMs st' = SigningStore.ttlMs st
  ∧ sameIdentity job job'
  ∧ SigningJob.workflowId job' = SigningJob.workflowId job.
Proof.
  intros Hjob Heffect.
  destruct Heffect;
    unfold SigningStore.getJob, SigningStore.setWorkflowStatus,
      SigningStore.completeJob, SigningStore.failJob in *;
    rewrite ?mutate_dom, ?mutate_ttl.
  - repeat split; done.
  - split; [by apply mutate_lookup_same|].
    split; [intros key Hne; by rewrite mutate_lookup_other|]. by repeat split.
  - split; [by apply mutate_lookup_same, mutate_lookup_same|].
    split; [intros key Hne; by rewrite !mutate_lookup_other|]. by repeat split.
  - split; [by apply mutate_lookup_same, mutate_lookup_same|].
    split; [intros key Hne; by rewrite !mutate_lookup_other|]. by repeat split.
Qed.

(** A status poll of a store that files every job under its id throws
    nothing: it answers 200 for a job the store holds and 404 otherwise. *)
Lemma handleGetStatus_answers jobId st :
  keyed st →
  ∃ resp,
    (handleGetStatus api now jobId st).1 = inr resp
    ∧ status resp = match SigningStore.getJob jobId st with
                    | Some _ => 200
                    | None => 404
                    end.
Proof.
  intros Hkeyed. destruct (SigningStore.getJob jobId st) as [job|] eqn:Hjob.
  - destruct (poll_outcome jobId st job Hjob (Hkeyed jobId job Hjob))
      as (job' & st' & -> & _).
    by eexists.
  - unfold handleGetStatus. rewrite Hjob. by eexists.
Qed.

(** A poll that finds the workflow finished and downloads the signed file,
    followed by the download of the job. *)
Lemma finished_poll_download jobId wid ws st job remote signed :
  SigningJob.id job = jobId →
  SigningStore.getJob jobId st = Some job →
  SigningJob.status job = pending →
  SigningJob.workflowId job = Some wid →
  wid ≠ "" →
  Goodflag.fetchWorkflow api wid = inr remote →
  Goodflag.workflowStatus remote = Some ws →
  JsString.toLowerCase ws = "finished" →
  Goodflag.downloadWorkflowDocuments api wid = inr signed →
  handleDownload jobId (handleGetStatus api now jobId st).2
  = let type := if decide (Goodflag.contentType signed = "")
                then (if decide (SigningJob.fileType job = "")
                      then "application/pdf" else SigningJob.fileType job)
                else Goodflag.contentType signed in
    let name := match Goodflag.fileName signed with
                | Some name => name
                | None => SigningStore.defaultSignedName (SigningJob.fileName job)
                end in
    if byteString type && clean (httpTrim type) && byteString name && clean name
    then inr {| status := 200;
                contentType := httpTrim type;
                contentDisposition :=
                  Some ("attachment; filename=" +:+ dquote +:+ name +:+ dquote);
                body := BytesBody (Goodflag.bytes signed) |}
    else inl invalidHeader.
Proof.
  intros Hid Hjob Hpending Hwid Hne Hfetch Hws Hfin Hdl.
  assert (Hws_ne : ws ≠ "") by (intros ->; discriminate Hfin).
  assert (Hrecorded :
    SigningStore.getJob jobId (SigningStore.setWorkflowStatus jobId ws (now 0%nat) st)
    = Some (SigningStore.assignWorkflowStatus ws (now 0%nat) job)).
  { unfold SigningStore.getJob, SigningStore.setWorkflowStatus in *.
    by apply mutate_lookup_same. }
  unfold handleGetStatus. rewrite Hjob, Hpending, Hwid.
  rewrite bool_decide_eq_true_2 by done. rewrite truthy_Some_true by done.
  cbn [andb]. rewrite (refreshWorkflow_run api now jobId st job wid remote) by done.
  rewrite (recordStatus_run now jobId st job remote Hjob Hid), Hws.
  rewrite truthy_Some_true by done. cbn [snd].
  erewrite settle_finished; [|exact Hrecorded|done|exact Hwid| |exact Hdl].
  2: { rewrite Hws. cbn. by rewrite Hfin. }
  cbn [fst snd].
  rewrite (handleDownload_completed _ jobId
             (SigningStore.assignCompleted
                {| Payload.bytes := Goodflag.bytes signed;
                   Payload.fileName := Goodflag.fileName signed;
                   Payload.contentType := Some (Goodflag.contentType signed) |}
                (now 1%nat) (SigningStore.assignWorkflowStatus ws (now 0%nat) job))
             (Goodflag.bytes signed)); [|
    unfold SigningStore.getJob, SigningStore.completeJob in *;
    by rewrite (mutate_lookup_same _ _ _ _ Hrecorded) | done | done].
  cbn. unfold attachmentHeader, JsString.orElse.
  destruct (String.eqb_spec (Goodflag.contentType signed) ""),
           (String.eqb_spec (SigningJob.fileType job) "");
    repeat case_decide; try done; by destruct (Goodflag.fileName signed).
Qed.

End PollFacts.

(** *** The timer during a poll *)

Section AmidFacts.

Variable api : Goodflag.Api.
Variable now : nat → Z.
Variable sweeps : nat → list Z.

Ltac run_amid :=
  unfold tryCatch, refreshWorkflowAmid, refreshWorkflow, settleAmid, settle,
    recordStatus, awaitAmid, mbind, Try_bind, mret, Try_ret, await, theJob, onStore,
    reloadJob, modifyState; cbn [fst snd].

(** The next read of the polled job from the store, by cases. *)
Ltac reload_job H :=
  match goal with
  | |- context [SigningStore.getJob ?jobId ?store] =>
      destruct (SigningStore.getJob jobId store) eqn:H; cbn
  end.

(** With no sweep during its awaits, the poll is [handleGetStatus]. *)
Lemma handleGetStatusAmid_quiet jobId st :
  sweeps 0%nat = [] → sweeps 1%nat = [] →
  handleGetStatusAmid api now sweeps jobId st = handleGetStatus api now jobId st.
Proof.
  intros Hfetch Hdownload. unfold handleGetStatusAmid, handleGetStatus.
  destruct (SigningStore.getJob jobId st) as [job0|]; [|done].
  destruct (_ && _); [|done]. run_amid. rewrite Hfetch, Hdownload.
  cbn [timerFires fold_left].
  destruct (Goodflag.fetchWorkflow api _) as [e|workflow]; [done|].
  destruct (Goodflag.workflowStatus workflow) as [ws|]; [|done].
  destruct (JsString.truthy (Some ws)); cbn.
  - destruct (SigningStore.getJob jobId _) as [job1|]; cbn.
    + destruct (bool_decide _); cbn.
      * destruct (Goodflag.downloadWorkflowDocuments api _); cbn; done.
      * destruct (_ && _); cbn; done.
    + destruct (bool_decide _); cbn; [done|].
      destruct (_ && _); cbn; done.
  - destruct (bool_decide _); cbn.
    + destruct (Goodflag.downloadWorkflowDocuments api _); cbn; done.
    + destruct (_ && _); cbn; done.
Qed.

(** The poll throws only the [TypeError] of a read on [undefined], and only
    after the store has lost the polled job. *)
Lemma handleGetStatusAmid_outcome jobId st :
  match (handleGetStatusAmid api now sweeps jobId st).1 with
  | inr resp => status resp = match SigningStore.getJob jobId st with
                              | Some _ => 200
                              | None => 404
                              end
  | inl e => e = typeError
             ∧ is_Some (SigningStore.getJob jobId st)
             ∧ SigningStore.getJob jobId
                 (handleGetStatusAmid api now sweeps jobId st).2 = None
  end.
Proof.
  unfold handleGetStatusAmid.
  destruct (SigningStore.getJob jobId st) as [job0|] eqn:Hjob0; [|done].
  destruct (_ && _); [|done]. run_amid.
  destruct (Goodflag.fetchWorkflow api _) as [e|workflow]; [done|].
  destruct (Goodflag.workflowStatus workflow) as [ws|]; [|done].
  destruct (JsString.truthy (Some ws)); cbn.
  - reload_job Hjob1.
    + destruct (bool_decide _); cbn.
      * destruct (Goodflag.downloadWorkflowDocuments api _) as [e|signed]; cbn;
          [done|].
        reload_job Hjob2; [done | by eauto].
      * destruct (_ && _); cbn; [|done].
        reload_job Hjob2; [done | by eauto].
    + destruct (bool_decide _); cbn; [by eauto|].
      destruct (_ && _); cbn; by eauto.
  - destruct (bool_decide _); cbn.
    + destruct (Goodflag.downloadWorkflowDocuments api _) as [e|signed]; cbn; [done|].
      reload_job Hjob2; [done | by eauto].
    + destruct (_ && _); cbn; [|done].
      reload_job Hjob2; [done | by eauto].
Qed.

(** On a store that files every job under its id, a poll that throws had
    the timer fire during one of its awaits. *)
Lemma handleGetStatusAmid_swept jobId st e :
  keyed st →
  (handleGetStatusAmid api now sweeps jobId st).1 = inl e →
  e = typeError
  ∧ is_Some (SigningStore.getJob jobId st)
  ∧ SigningStore.getJob jobId (handleGetStatusAmid api now sweeps jobId st).2 = None
  ∧ (sweeps 0%nat ≠ [] ∨ sweeps 1%nat ≠ []).
Proof.
  intros Hkeyed Hrun.
  pose proof (handleGetStatusAmid_outcome jobId st) as Hout. rewrite Hrun in Hout.
  destruct Hout as (He & Hheld & Hlost). repeat split; try done.
  destruct (sweeps 0%nat) as [|t0 l0] eqn:Hfetch; [|by left].
  destruct (sweeps 1%nat) as [|t1 l1] eqn:Hdownload; [|by right].
  rewrite (handleGetStatusAmid_quiet jobId st Hfetch Hdownload) in Hrun.
  destruct (handleGetStatus_answers api now jobId st Hkeyed) as (resp & Hresp & _).
  rewrite Hresp in Hrun. discriminate Hrun.
Qed.

End AmidFacts.

(** X9.  On a store reached from the empty store by store calls,
    [handleGetStatus] answers 200 when the store holds the job and 404 when
    it does not, whatever the provider does, as long as the timer removes
    nothing under it.  With the timer firing while the handler awaits the
    provider, the one thing it can throw is the [TypeError] of a read on
    [undefined], after [getJob(jobId)!] has found the polled job swept
    away: the store held the job when the poll began, has lost it when the
    poll ends, and the timer fired during one of the two awaits.  A poll
    during which the timer does not fire never throws. *)
Theorem poll_throws_only_when_swept (api : Goodflag.Api) (now : nat → Z)
    (sweeps : nat → list Z) (ops : list StoreOp) (ttl : Z) (jobId : string) :
  let st := runOps ops (SigningStore.create ttl) in
  match (handleGetStatusAmid api now sweeps jobId st).1 with
  | inr resp => status resp = match SigningStore.getJob jobId st with
                              | Some _ => 200
                              | None => 404
                              end
  | inl e => e = typeError
             ∧ is_Some (SigningStore.getJob jobId st)
             ∧ SigningStore.getJob jobId
                 (handleGetStatusAmid api now sweeps jobId st).2 = None
             ∧ (sweeps 0%nat ≠ [] ∨ sweeps 1%nat ≠ [])
  end
  ∧ (sweeps 0%nat = [] → sweeps 1%nat = [] →
     handleGetStatusAmid api now sweeps jobId st = handleGetStatus api now jobId st
     ∧ ∃ resp, (handleGetStatus api now jobId st).1 = inr resp).
Proof.
  intros st.
  assert (Hquiet : sweeps 0%nat = [] → sweeps 1%nat = [] →
            handleGetStatusAmid api now sweeps jobId st = handleGetStatus api now jobId st
            ∧ ∃ resp, (handleGetStatus api now jobId st).1 = inr resp).
  { intros Hfetch Hdownload. split; [by apply handleGetStatusAmid_quiet|].
    destruct (handleGetStatus_answers api now jobId st) as (resp & Hresp & _);
      [apply runOps_keyed, create_keyed | by exists resp]. }
  split; [|exact Hquiet].
  pose proof (handleGetStatusAmid_outcome api now sweeps jobId st) as Hout.
  destruct (handleGetStatusAmid api now sweeps jobId st).1 as [e|resp] eqn:Hrun;
    [|exact Hout].
  apply (handleGetStatusAmid_swept api now sweeps jobId st e); [|exact Hrun].
  apply runOps_keyed, create_keyed.
Qed.

Lemma poll_throws_only_when_swept_witness :
  (handleGetStatusAmid (sampleApi None None (Some "started")) sampleClock sweepingTimer
     "j1" startedStore).1 = inl typeError
  ∧ SigningStore.getJob "j1"
      (handleGetStatusAmid (sampleApi None None (Some "started")) sampleClock
         sweepingTimer "j1" startedStore).2 = None
  ∧ ∃ resp, (handleGetStatus (sampleApi None None (Some "started")) sampleClock
               "j1" startedStore).1 = inr resp.
Proof.
  pose proof (poll_throws_only_when_swept (sampleApi None None (Some "started"))
                sampleClock sweepingTimer
                [OpCreateJob "j1" 0 "report.pdf" "application/pdf";
                 OpSetWorkflow "j1" "wf-1" (Some "draft") 1]
                SigningStore.ONE_HOUR "j1") as [Hswept _].
  pose proof (poll_throws_only_when_swept (sampleApi None None (Some "started"))
                sampleClock quietTimer
                [OpCreateJob "j1" 0 "report.pdf" "application/pdf";
                 OpSetWorkflow "j1" "wf-1" (Some "draft") 1]
                SigningStore.ONE_HOUR "j1") as [_ Hquiet].
  cbn zeta in Hswept, Hquiet.
  change (runOps [OpCreateJob "j1" 0 "report.pdf" "application/pdf";
                  OpSetWorkflow "j1" "wf-1" (Some "draft") 1]
                 (SigningStore.create SigningStore.ONE_HOUR))
    with startedStore in Hswept, Hquiet.
  split; [vm_compute; reflexivity|]. split.
  - destruct (handleGetStatusAmid (sampleApi None None (Some "started")) sampleClock
                sweepingTimer "j1" startedStore).1 as [e|resp] eqn:Hrun;
      [by destruct Hswept as (_ & _ & Hlost & _) | by vm_compute in Hrun].
  - exact (proj2 (Hquiet eq_refl eq_refl)).
Defined.

(** X10.  A status poll leaves every other job, the set of ids and the time to
    live as they are, and the polled job in place with its [id],
    [fileName], [fileType], [createdAt] and [workflowId] unchanged; a poll
    for an unknown id leaves the store as it is. *)
Theorem poll_touches_one_job (api : Goodflag.Api) (now : nat → Z)
    (ops : list StoreOp) (ttl : Z) (jobId : string) :
  let st := runOps ops (SigningStore.create ttl) in
  let st' := (handleGetStatus api now jobId st).2 in
  (∀ key, key ≠ jobId → SigningStore.getJob key st' = SigningStore.getJob key st)
  ∧ dom (SigningStore.jobs st') = dom (SigningStore.jobs st)
  ∧ SigningStore.ttlMs st' = SigningStore.ttlMs st
  ∧ match SigningStore.getJob jobId st with
    | Some job =>
        ∃ job', SigningStore.getJob jobId st' = Some job'
          ∧ sameIdentity job job'
          ∧ SigningJob.workflowId job' = SigningJob.workflowId job
    | None => st' = st
    end.
Proof.
  intros st st'. subst st'.
  destruct (SigningStore.getJob jobId st) as [job|] eqn:Hjob.
  - assert (Hid : SigningJob.id job = jobId).
    { by apply (runOps_keyed ops (SigningStore.create ttl) (create_keyed ttl) jobId). }
    destruct (poll_outcome api now jobId st job Hjob Hid) as (job' & st' & -> & Heffect).
    destruct (PollEffect_frame jobId job st job' st' Hjob Heffect)
      as (Hjob' & Hother & Hdom & Httl & Hsame & Hwid).
    cbn [snd]. repeat split; try done. by exists job'.
  - unfold handleGetStatus. rewrite Hjob. cbn [snd]. done.
Qed.

(** X11.  When [fetchWorkflow] rejects, the [catch] of [handleGetStatus] swallows
    the failure: the answer is the summary of the job as stored, and the
    store is unchanged. *)
Theorem poll_survives_provider_failure (api : Goodflag.Api) (now : nat → Z)
    (jobId : string) (st : SigningStore.t) (job : SigningJob.t) (e : Thrown) :
  SigningStore.getJob jobId st = Some job →
  Goodflag.fetchWorkflow api (JsString.nullish (SigningJob.workflowId job) "undefined")
  = inl e →
  handleGetStatus api now jobId st = (inr (statusSummary job), st).
Proof.
  intros Hjob Hfetch. unfold handleGetStatus. rewrite Hjob.
  destruct (bool_decide _ && JsString.truthy _); [|done].
  unfold tryCatch, refreshWorkflow, mbind, Try_bind, await, theJob. cbn [fst snd].
  by rewrite Hfetch.
Qed.

Lemma poll_survives_provider_failure_witness :
  (handleGetStatus failingApi sampleClock "j1" startedStore).2 = startedStore.
Proof.
  assert (Hjob : SigningStore.getJob "j1" startedStore
                 = Some (SigningStore.assignWorkflow "wf-1" (Some "draft") 1
                           (SigningStore.createJob "j1" 0 "report.pdf"
                              "application/pdf" SigningStore.signingStore).1))
    by (vm_compute; reflexivity).
  by rewrite (poll_survives_provider_failure failingApi sampleClock "j1" startedStore
                _ _ Hjob eq_refl).
Defined.

(** X12.  A poll of a pending job whose workflow the provider reports as finished
    (in any letter case), with the download of the signed document
    resolving, makes the job downloadable at once: [handleDownload] on the
    store the poll leaves builds its headers from the downloaded content
    type (the job's file type, then [application/pdf], when it is empty)
    and the downloaded file name, or the derived name when the download
    names none.  It answers 200 with the downloaded bytes, that content
    type with the whitespace at its ends stripped and that name, unless
    [new Headers] rejects one of the two: then it throws. *)
Theorem finished_poll_then_download (api : Goodflag.Api) (now : nat → Z)
    (ops : list StoreOp) (ttl : Z) (jobId wid ws : string) (job : SigningJob.t)
    (remote : Goodflag.GoodflagWorkflow) (signed : Goodflag.DownloadResult) :
  let st := runOps ops (SigningStore.create ttl) in
  SigningStore.getJob jobId st = Some job →
  SigningJob.status job = pending →
  SigningJob.workflowId job = Some wid →
  wid ≠ "" →
  Goodflag.fetchWorkflow api wid = inr remote →
  Goodflag.workflowStatus remote = Some ws →
  JsString.toLowerCase ws = "finished" →
  Goodflag.downloadWorkflowDocuments api wid = inr signed →
  handleDownload jobId (handleGetStatus api now jobId st).2
  = let type := if decide (Goodflag.contentType signed = "")
                then (if decide (SigningJob.fileType job = "")
                      then "application/pdf" else SigningJob.fileType job)
                else Goodflag.contentType signed in
    let name := match Goodflag.fileName signed with
                | Some name => name
                | None => SigningStore.defaultSignedName (SigningJob.fileName job)
                end in
    if byteString type && clean (httpTrim type) && byteString name && clean name
    then inr {| status := 200;
                contentType := httpTrim type;
                contentDisposition :=
                  Some ("attachment; filename=" +:+ dquote +:+ name +:+ dquote);
                body := BytesBody (Goodflag.bytes signed) |}
    else inl invalidHeader.
Proof.
  intros st Hjob. apply finished_poll_download; [|done].
  by apply (runOps_keyed ops (SigningStore.create ttl) (create_keyed ttl) jobId).
Qed.

Lemma finished_poll_then_download_witness :
  handleDownload "j1"
    (handleGetStatus (sampleApi None None (Some "FINISHED")) sampleClock "j1"
       startedStore).2
  = inr {| status := 200;
           contentType := "application/pdf";
           contentDisposition :=
             Some ("attachment; filename=" +:+ dquote +:+ "report-signed.pdf"
                   +:+ dquote);
           body := BytesBody [x25; x50; x44; x46] |}.
Proof.
  assert (Hjob : SigningStore.getJob "j1"
                   (runOps [OpCreateJob "j1" 0 "report.pdf" "application/pdf";
                            OpSetWorkflow "j1" "wf-1" (Some "draft") 1]
                           (SigningStore.create SigningStore.ONE_HOUR))
                 = Some (SigningStore.assignWorkflow "wf-1" (Some "draft") 1
                           (SigningStore.createJob "j1" 0 "report.pdf"
                              "application/pdf" SigningStore.signingStore).1))
    by (vm_compute; reflexivity).
  assert (Hwid : "wf-1" ≠ "") by discriminate.
  pose proof (finished_poll_then_download (sampleApi None None (Some "FINISHED"))
                sampleClock _ _ "j1" "wf-1" "FINISHED" _ _ _
                Hjob eq_refl eq_refl Hwid eq_refl eq_refl eq_refl eq_refl) as Hrun.
  cbn zeta in Hrun.
  change startedStore
    with (runOps [OpCreateJob "j1" 0 "report.pdf" "application/pdf";
                  OpSetWorkflow "j1" "wf-1" (Some "draft") 1]
                 (SigningStore.create SigningStore.ONE_HOUR)).
  by rewrite Hrun.
Defined.

(** ** Uploads *)

(** X13.  The placement of the signature field has no part in the outcome of an
    upload: [handleSign] answers the same and leaves the same store whether
    [applyDefaultSignatureField] resolves or rejects, since its rejection
    is caught and only logged. *)
Theorem signature_field_is_optional (place : string → Thrown + unit)
    (api : Goodflag.Api) (randomUUID : string) (now : nat → Z) (req : Request)
    (st : SigningStore.t) :
  handleSign (withSignatureField place api) randomUUID now req st
  = handleSign api randomUUID now req st.
Proof.
  unfold handleSign.
  destruct (negb (JsString.includes _ _)); [done|].
  destruct (formData req) as [e|form]; [done|].
  destruct (formGet form "file") as [[s|file]|]; [done| |done].
  destruct (notPdf file); [done|].
  destruct (getTextValue (formGet form "signer_email")) as [signerEmail|]; [|done].
  cbn [SigningStore.createJob]. apply startSigning_field_irrelevant.
Qed.


(** X15.  An upload writes to no job but the one it creates: the jobs filed under
    other ids, and the time to live, are the same after [handleSign]. *)
Theorem upload_touches_one_job (api : Goodflag.Api) (randomUUID : string)
    (now : nat → Z) (req : Request) (st : SigningStore.t) (key : string) :
  key ≠ randomUUID →
  SigningStore.getJob key (handleSign api randomUUID now req st).2
  = SigningStore.getJob key st
  ∧ SigningStore.ttlMs (handleSign api randomUUID now req st).2 = SigningStore.ttlMs st.
Proof.
  intros Hne.
  destruct (handleSign_cases api randomUUID now req st)
    as [(resp & -> & H400)|[(e & Hform & ->)|(file & workflowName & signerInfo & ->)]];
    [done..|].
  rewrite startSigning_run.
  2: { unfold SigningStore.getJob. cbn. apply lookup_insert_eq. }
  cbn zeta. unfold SigningStore.getJob, SigningStore.failJob,
    SigningStore.setWorkflow, SigningStore.setWorkflowStatus.
  set (created := SigningStore.createJob _ _ _ _ st).
  change (SigningJob.id created.1) with randomUUID in *.
  assert (Hcreated : SigningStore.jobs created.2 !! key = SigningStore.jobs st !! key).
  { subst created. cbn. by apply lookup_insert_ne. }
  destruct (Goodflag.createWorkflow api _) as [e|workflow];
    [|destruct (Goodflag.uploadWorkflowDocument api _ _) as [e|uploadResult];
      [|destruct (Goodflag.startWorkflow api _) as [e|started];
        [|destruct (Goodflag.workflowStatus started) as [ws|];
          [destruct (JsString.truthy (Some ws))|]]]];
    cbn [snd]; rewrite ?mutate_ttl, ?mutate_lookup_other by done; done.
Qed.

Lemma upload_touches_one_job_witness :
  SigningStore.getJob "j1"
    (handleSign (sampleApi None None None) "j2" sampleClock sampleRequest completedStore).2
  = SigningStore.getJob "j1" completedStore.
Proof.
  apply (upload_touches_one_job (sampleApi None None None) "j2" sampleClock
           sampleRequest completedStore "j1").
  discriminate.
Defined.





(** ** The request side of the provider client *)

(** X18.  [buildUrl] resolves the same URL whether or not the base URL ends with a
    slash and whether or not the path starts with one. *)
Theorem buildUrl_normalises {A : Type} (newURL : string → string → A)
    (base path : string) :
  (JsString.endsWith base "/" = false →
     Client.buildUrl newURL (base +:+ "/") path = Client.buildUrl newURL base path)
  ∧ (Client.startsWith path "/" = false →
     Client.buildUrl newURL base ("/" +:+ path) = Client.buildUrl newURL base path).
Proof.
  unfold Client.buildUrl. split.
  - intros ->. by rewrite (proj2 (endsWith_spec (base +:+ "/") "/")) by by exists base.
  - intros ->. change ("/" +:+ path) with (String "/" path).
    assert (Hslice : JsString.sliceFrom (String "/" path) 1 = path).
    { apply (sliceFrom_tail "/" path). }
    rewrite Hslice. unfold Client.startsWith. cbn [String.prefix].
    destruct (ascii_dec "/" "/"); [|done]. by destruct path.
Qed.

Lemma buildUrl_normalises_witness :
  Client.buildUrl (λ input base, base +:+ input) ("https://host/api" +:+ "/") "workflows"
  = Client.buildUrl (λ input base, base +:+ input) "https://host/api" "workflows"
  ∧ Client.buildUrl (λ input base, base +:+ input) "https://host/api"
      ("/" +:+ "workflows")
    = Client.buildUrl (λ input base, base +:+ input) "https://host/api" "workflows".
Proof.
  split.
  - apply (proj1 (buildUrl_normalises (λ input base, base +:+ input)
                    "https://host/api" "workflows")). reflexivity.
  - apply (proj2 (buildUrl_normalises (λ input base, base +:+ input)
                    "https://host/api" "workflows")). reflexivity.
Defined.

Section ClientFacts.

Import Client.

Lemma copy_loop_lookup (recipient : JsObject) (keys : list string)
    (payload : JsObject) (key : string) :
  fold_left (copyIfSet recipient) keys payload !! key
  = if bool_decide (key ∈ keys) && JsString.truthy (prop recipient key)
    then Some (prop recipient key) else payload !! key.
Proof.
  revert payload. induction keys as [|k keys IH]; intros payload; [done|].
  cbn [fold_left]. rewrite IH. unfold copyIfSet.
  destruct (decide (key = k)) as [->|Hne].
  - assert (Hhere : k ∈ k :: keys) by apply list_elem_of_here.
    rewrite (bool_decide_eq_true_2 (k ∈ k :: keys) Hhere).
    destruct (JsString.truthy (prop recipient k)) eqn:Htruthy.
    + rewrite lookup_insert_eq. by destruct (bool_decide (k ∈ keys)).
    + by rewrite !andb_false_r.
  - assert (Hin : bool_decide (key ∈ k :: keys) = bool_decide (key ∈ keys)).
    { apply bool_decide_ext. rewrite elem_of_cons.
      split; [intros [Heq|Hin]; [by destruct Hne | exact Hin] | intros Hin; by right]. }
    rewrite Hin. destruct (bool_decide (key ∈ keys) && _); [done|].
    destruct (JsString.truthy (prop recipient k)); [|done].
    by rewrite lookup_insert_ne.
Qed.

Lemma prop_spread (base over : JsObject) (key : string) :
  prop (spread base over) key
  = match over !! key with
    | Some value => value
    | None => prop base key
    end.
Proof.
  unfold prop, spread. rewrite lookup_union.
  destruct (over !! key), (base !! key); done.
Qed.

Lemma sanitizeRecipient_lookup (recipient : JsObject) (key : string) :
  sanitizeRecipient recipient !! key
  = if decide (key = "email") then Some (prop recipient "email")
    else if bool_decide (key ∈ optionalKeys) && JsString.truthy (prop recipient key)
         then Some (prop recipient key)
         else None.
Proof.
  unfold sanitizeRecipient. rewrite copy_loop_lookup.
  destruct (decide (key = "email")) as [->|Hne].
  - rewrite bool_decide_eq_false_2; [by rewrite lookup_singleton_eq|].
    unfold optionalKeys. intros Hin%list_elem_of_In. cbn in Hin.
    repeat destruct Hin as [Hin|Hin]; try discriminate Hin. done.
  - destruct (_ && _); [done|]. by rewrite lookup_singleton_ne.
Qed.

(** The signer of the request body, property by property. *)
Lemma createWorkflowSigner_lookup (defaultLocale : string)
    (consentPage : option string) (signer : JsObject) (key : string) :
  createWorkflowSigner defaultLocale consentPage signer !! key
  = let recipient := spread {[ "preferredLocale" := Some defaultLocale ]} signer in
    if decide (key = "consentPageId")
    then (if JsString.truthy (prop recipient "consentPageId")
          then Some (prop recipient "consentPageId")
          else if JsString.truthy consentPage then Some consentPage else None)
    else sanitizeRecipient recipient !! key.
Proof.
  cbn zeta. unfold createWorkflowSigner. cbn zeta.
  set (recipient := spread _ signer).
  assert (Hconsent : sanitizeRecipient recipient !! "consentPageId"
                     = if JsString.truthy (prop recipient "consentPageId")
                       then Some (prop recipient "consentPageId") else None).
  { rewrite sanitizeRecipient_lookup. rewrite decide_False by done.
    by rewrite bool_decide_eq_true_2 by (apply list_elem_of_In; cbn; tauto). }
  assert (Hprop : prop (sanitizeRecipient recipient) "consentPageId"
                  = if JsString.truthy (prop recipient "consentPageId")
                    then prop recipient "consentPageId" else None).
  { unfold prop at 1. rewrite Hconsent. by destruct (JsString.truthy _). }
  rewrite Hprop.
  destruct (decide (key = "consentPageId")) as [->|Hne].
  - destruct (JsString.truthy (prop recipient "consentPageId")) eqn:Hown.
    + rewrite Hown. by rewrite andb_false_r.
    + cbn [JsString.truthy negb]. rewrite andb_true_r.
      destruct (JsString.truthy consentPage); [by rewrite lookup_insert_eq|done].
  - destruct (_ && _); [by rewrite lookup_insert_ne|done].
Qed.

Lemma signerObject_lookup (info : Goodflag.SignerInfo) :
  signerObject info !! "preferredLocale" = Some (Goodflag.preferredLocale info)
  ∧ signerObject info !! "consentPageId" = Some (Goodflag.consentPageId info)
  ∧ signerObject info !! "userId" = Some (Goodflag.userId info)
  ∧ signerObject info !! "phoneNumber" = None.
Proof. unfold signerObject. repeat split; by simplify_map_eq. Qed.

End ClientFacts.

(** X19.  The payload [sanitizeRecipient] builds: [email] as given, each of the
    eight optional keys exactly when its value is truthy, and no other
    key. *)
Theorem sanitizeRecipient_payload (recipient : Client.JsObject) (key : string) :
  Client.sanitizeRecipient recipient !! key
  = if decide (key = "email") then Some (Client.prop recipient "email")
    else if bool_decide (key ∈ Client.optionalKeys)
            && JsString.truthy (Client.prop recipient key)
         then Some (Client.prop recipient key)
         else None.
Proof.
  unfold Client.sanitizeRecipient. rewrite copy_loop_lookup.
  destruct (decide (key = "email")) as [->|Hne].
  - rewrite bool_decide_eq_false_2; [by rewrite lookup_singleton_eq|].
    unfold Client.optionalKeys. intros Hin%list_elem_of_In. cbn in Hin.
    repeat destruct Hin as [Hin|Hin]; try discriminate Hin. done.
  - destruct (_ && _); [done|]. by rewrite lookup_singleton_ne.
Qed.

(** X20.  The default locale is applied only to a signer object that has no
    [preferredLocale] property.  The signer [handleSign] builds always has
    the property, set to [undefined] when the form has no locale, and the
    spread in [createWorkflow] lets it replace the default: the payload
    then has the form's locale or no locale at all. *)
Theorem handleSign_signer_locale (defaultLocale : string)
    (consentPage : option string) (info : Goodflag.SignerInfo) :
  Client.createWorkflowSigner defaultLocale consentPage (Client.signerObject info)
    !! "preferredLocale"
  = (if JsString.truthy (Goodflag.preferredLocale info)
     then Some (Goodflag.preferredLocale info) else None)
  ∧ (∀ signer : Client.JsObject,
       signer !! "preferredLocale" = None →
       Client.createWorkflowSigner defaultLocale consentPage signer !! "preferredLocale"
       = if decide (defaultLocale = "") then None else Some (Some defaultLocale)).
Proof.
  split.
  - rewrite createWorkflowSigner_lookup. cbn zeta. rewrite decide_False by done.
    rewrite sanitizeRecipient_lookup. rewrite decide_False by done.
    rewrite bool_decide_eq_true_2 by (apply list_elem_of_In; cbn; tauto).
    rewrite prop_spread. destruct (signerObject_lookup info) as (-> & _). done.
  - intros signer Hnone.
    rewrite createWorkflowSigner_lookup. cbn zeta. rewrite decide_False by done.
    rewrite sanitizeRecipient_lookup. rewrite decide_False by done.
    rewrite bool_decide_eq_true_2 by (apply list_elem_of_In; cbn; tauto).
    rewrite prop_spread, Hnone. unfold Client.prop. rewrite lookup_singleton_eq.
    cbn. destruct (String.eqb_spec defaultLocale ""); by case_decide.
Qed.

Lemma handleSign_signer_locale_witness :
  Client.createWorkflowSigner "en" None {[ "email" := Some "ann@example.org" ]}
    !! "preferredLocale" = Some (Some "en").
Proof.
  apply (proj2 (handleSign_signer_locale "en" None
                  {| Goodflag.email := "ann@example.org"; Goodflag.firstName := None;
                     Goodflag.lastName := None; Goodflag.preferredLocale := None;
                     Goodflag.comments := None; Goodflag.consentPageId := None;
                     Goodflag.userId := None |})
               {[ "email" := Some "ann@example.org" ]}).
  vm_compute. reflexivity.
Defined.

(** X21.  The signer's own consent page wins over the configured one, which is
    used only when the signer has none and it is itself truthy; and a
    property outside [email] and the eight optional keys, such as [userId],
    never reaches the payload. *)
Theorem signer_consent_and_unknown_keys (defaultLocale : string)
    (consentPage : option string) (signer : Client.JsObject) :
  Client.createWorkflowSigner defaultLocale consentPage signer !! "consentPageId"
  = (if JsString.truthy (Client.prop signer "consentPageId")
     then Some (Client.prop signer "consentPageId")
     else if JsString.truthy consentPage then Some consentPage else None)
  ∧ (∀ key, key ∉ "email" :: Client.optionalKeys →
       Client.createWorkflowSigner defaultLocale consentPage signer !! key = None).
Proof.
  split.
  - rewrite createWorkflowSigner_lookup. cbn zeta. rewrite decide_True by done.
    rewrite prop_spread. unfold Client.prop at 1 3 4.
    destruct (signer !! "consentPageId") as [value|] eqn:Hvalue; [done|].
    by rewrite lookup_singleton_ne.
  - intros key Hkey.
    apply not_elem_of_cons in Hkey as [Hemail Hkey].
    rewrite createWorkflowSigner_lookup. cbn zeta.
    rewrite decide_False.
    2: { intros ->. apply Hkey. apply list_elem_of_In. cbn. tauto. }
    rewrite sanitizeRecipient_lookup. rewrite decide_False by done.
    by rewrite bool_decide_eq_false_2.
Qed.

Lemma signer_consent_and_unknown_keys_witness :
  Client.createWorkflowSigner "en" (Some "cop_1")
    (Client.signerObject
       {| Goodflag.email := "ann@example.org"; Goodflag.firstName := None;
          Goodflag.lastName := None; Goodflag.preferredLocale := None;
          Goodflag.comments := None; Goodflag.consentPageId := None;
          Goodflag.userId := Some "usr_1" |}) !! "userId" = None.
Proof.
  apply (proj2 (signer_consent_and_unknown_keys "en" (Some "cop_1") _)).
  intros Hin%list_elem_of_In. cbn in Hin.
  repeat destruct Hin as [Hin|Hin]; try discriminate Hin. exact Hin.
Defined.

Section ParseFacts.

Import Client.

Implicit Types (s t d lit : string).

Lemma nonEmpty_Some s c : nonEmpty s = Some c → c = s ∧ c ≠ "".
Proof. destruct s; [discriminate|]. by intros [= <-]. Qed.

Lemma nonEmpty_of s : s ≠ "" → nonEmpty s = Some s.
Proof. by destruct s. Qed.

Lemma run_prefix inClass s : ∃ post, s = run inClass s +:+ post.
Proof.
  induction s as [|a s [post IH]]; [by exists ""|]. cbn.
  destruct (inClass a).
  - exists post. rewrite app_cons. by rewrite <- IH.
  - by exists (String a s).
Qed.

Lemma run_no_semicolon inClass s :
  (∀ c, inClass c = true → c ≠ ";"%char) → occurs ";" (run inClass s) = false.
Proof.
  intros Hclass. induction s as [|a s IH]; [done|]. cbn.
  destruct (inClass a) eqn:Ha; [|done]. cbn. rewrite IH, orb_false_r.
  apply Ascii.eqb_neq. by apply Hclass.
Qed.

Lemma run_whole inClass s post :
  (∀ c, occurs c s = true → inClass c = true) →
  match post with
  | String c _ => inClass c = false
  | EmptyString => True
  end →
  run inClass (s +:+ post) = s.
Proof.
  intros Hall Hstop. induction s as [|a s IH].
  - rewrite app_empty. destruct post as [|c post]; [done|]. cbn. by rewrite Hstop.
  - rewrite app_cons. cbn. rewrite (Hall a) by (cbn; by rewrite Ascii.eqb_refl).
    rewrite IH; [done|]. intros c Hc. apply Hall. cbn. by rewrite Hc, orb_true_r.
Qed.

Lemma stripPrefixCI_suffix lit s rest :
  stripPrefixCI lit s = Some rest → ∃ pre, s = pre +:+ rest.
Proof.
  revert s. induction lit as [|a lit IH]; intros s.
  - cbn. intros [= <-]. by exists "".
  - destruct s as [|b s]; [discriminate|]. cbn.
    destruct (Ascii.eqb _ _); [|discriminate].
    intros [pre ->]%IH. by exists (String b pre).
Qed.

Lemma stripPrefixCI_lower lit1 lit2 s rest :
  stripPrefixCI (lit1 +:+ lit2) s = Some rest →
  String.prefix (JsString.toLowerCase lit1) (JsString.toLowerCase s) = true.
Proof.
  revert s. induction lit1 as [|a lit1 IH]; intros s; [by destruct s|].
  rewrite app_cons. destruct s as [|b s]; [discriminate|]. cbn.
  destruct (Ascii.eqb_spec (JsString.lowerAscii a) (JsString.lowerAscii b)) as [->|];
    [|discriminate].
  destruct (ascii_dec _ _); [|done]. apply IH.
Qed.

Lemma fileNameMatch_here s capture :
  nullishOr (extendedForm s) (plainForm s) = Some capture →
  fileNameMatch s = Some capture.
Proof. intros Hhere. destruct s; cbn [fileNameMatch]; by rewrite Hhere. Qed.

Lemma fileNameMatch_next a s :
  nullishOr (extendedForm (String a s)) (plainForm (String a s)) = None →
  fileNameMatch (String a s) = fileNameMatch s.
Proof. intros Hnone. cbn [fileNameMatch]. by rewrite Hnone. Qed.

(** The capture is a piece of the header, not empty and free of semicolons. *)
Lemma fileNameMatch_capture d capture :
  fileNameMatch d = Some capture →
  capture ≠ ""
  ∧ occurs ";" capture = false
  ∧ ∃ pre post, d = pre +:+ capture +:+ post.
Proof.
  assert (Hplain : ∀ s, plainForm s = Some capture →
            capture ≠ "" ∧ occurs ";" capture = false
            ∧ ∃ pre post, s = pre +:+ capture +:+ post).
  { intros s. unfold plainForm.
    destruct (stripPrefixCI "filename=" s) as [rest|] eqn:Hstrip; [|discriminate].
    intros [-> Hne]%nonEmpty_Some. split; [done|]. split.
    { apply run_no_semicolon. intros c Hc ->. discriminate Hc. }
    apply stripPrefixCI_suffix in Hstrip as [pre ->].
    destruct rest as [|c rest]; [done|].
    destruct (Ascii.eqb c dq).
    - destruct (run_prefix (λ c, negb (Ascii.eqb c ";") && negb (Ascii.eqb c dq)) rest)
        as [post Hpost].
      exists (pre +:+ String c ""), post.
      rewrite <- Hpost. clear. induction pre as [|a pre IH]; [done|].
      rewrite !app_cons. by rewrite <- IH.
    - destruct (run_prefix (λ c, negb (Ascii.eqb c ";") && negb (Ascii.eqb c dq))
                  (String c rest)) as [post Hpost].
      exists pre, post. by rewrite <- Hpost. }
  assert (Hextended : ∀ s, extendedForm s = Some capture →
            capture ≠ "" ∧ occurs ";" capture = false
            ∧ ∃ pre post, s = pre +:+ capture +:+ post).
  { intros s. unfold extendedForm.
    destruct (stripPrefixCI "filename*=UTF-8''" s) as [rest|] eqn:Hstrip;
      [|discriminate].
    intros [-> Hne]%nonEmpty_Some. split; [done|]. split.
    { apply run_no_semicolon. intros c Hc ->. discriminate Hc. }
    apply stripPrefixCI_suffix in Hstrip as [pre ->].
    destruct (run_prefix (λ c, negb (Ascii.eqb c ";")) rest) as [post Hpost].
    exists pre, post. by rewrite <- Hpost. }
  assert (Hforms : ∀ s, nullishOr (extendedForm s) (plainForm s) = Some capture →
            capture ≠ "" ∧ occurs ";" capture = false
            ∧ ∃ pre post, s = pre +:+ capture +:+ post).
  { intros s. destruct (extendedForm s) as [c|] eqn:Hext; cbn [nullishOr].
    - intros [= ->]. by apply Hextended.
    - apply Hplain. }
  clear Hplain Hextended.
  induction d as [|a d IH].
  - cbn [fileNameMatch]. destruct (nullishOr _ _) eqn:Hhere; [|discriminate].
    intros [= ->]. by apply (Hforms "").
  - cbn [fileNameMatch].
    destruct (nullishOr (extendedForm (String a d)) (plainForm (String a d))) eqn:Hhere.
    + intros [= ->]. by apply (Hforms (String a d)).
    + intros (Hne & Hsemi & pre & post & ->)%IH. split; [done|]. split; [done|].
      by exists (String a pre), post.
Qed.

(** No match without the word [filename]. *)
Lemma fileNameMatch_none d :
  JsString.includes (JsString.toLowerCase d) "filename" = false →
  fileNameMatch d = None.
Proof.
  assert (Hforms : ∀ s,
            String.prefix "filename" (JsString.toLowerCase s) = false →
            nullishOr (extendedForm s) (plainForm s) = None).
  { intros s Hprefix. unfold extendedForm, plainForm.
    destruct (stripPrefixCI "filename*=UTF-8''" s) as [rest|] eqn:Hext.
    { apply (stripPrefixCI_lower "filename" "*=UTF-8''") in Hext.
      change (JsString.toLowerCase "filename") with "filename" in Hext. congruence. }
    destruct (stripPrefixCI "filename=" s) as [rest|] eqn:Hplain; [|done].
    apply (stripPrefixCI_lower "filename" "=") in Hplain.
    change (JsString.toLowerCase "filename") with "filename" in Hplain. congruence. }
  induction d as [|a d IH]; [done|].
  cbn [JsString.toLowerCase JsString.includes].
  intros [Hprefix Hrest]%orb_false_iff.
  cbn [fileNameMatch]. rewrite (Hforms (String a d)) by done. by apply IH.
Qed.

End ParseFacts.

Section HeaderFacts.

Import Client.

Variable decodeURIComponent : string → Thrown + string.

(** The parser on the header [handleDownload] builds: the name up to its
    first semicolon or double quote. *)
Lemma fileNameMatch_attachment name rest :
  name ≠ "" →
  occurs ";" name = false →
  occurs dq name = false →
  endsName rest →
  fileNameMatch (attachmentHeader (name +:+ rest)) = Some name.
Proof.
  intros Hne Hsemi Hquote Hrest. unfold attachmentHeader, dquote.
  change (ascii_of_nat 34) with dq.
  set (tail := (name +:+ rest) +:+ String dq "").
  change ("attachment; filename=" +:+ String dq "" +:+ tail)
    with (String "a" (String "t" (String "t" (String "a" (String "c" (String "h"
          (String "m" (String "e" (String "n" (String "t" (String ";" (String " "
          ("filename=" +:+ String dq tail))))))))))))).
  do 12 (rewrite fileNameMatch_next by reflexivity).
  apply fileNameMatch_here.
  change (extendedForm ("filename=" +:+ String dq tail)) with (@None string).
  change (plainForm ("filename=" +:+ String dq tail))
    with (nonEmpty (run (λ c, negb (Ascii.eqb c ";") && negb (Ascii.eqb c dq)) tail)).
  cbn [nullishOr]. subst tail.
  assert (Happ : (name +:+ rest) +:+ String dq "" = name +:+ (rest +:+ String dq "")).
  { clear. induction name as [|a name IH]; [done|]. rewrite !app_cons. by rewrite IH. }
  rewrite Happ, run_whole; [by apply nonEmpty_of| |].
  - intros c Hc. apply andb_true_iff. split; apply negb_true_iff, Ascii.eqb_neq;
      intros ->; congruence.
  - destruct rest as [|c rest].
    + rewrite app_empty. by rewrite Ascii.eqb_refl, andb_false_r.
    + rewrite app_cons. destruct Hrest as [->| ->]; [done|].
      by rewrite Ascii.eqb_refl, andb_false_r.
Qed.

Lemma attachmentHeader_truthy name : JsString.truthy (Some (attachmentHeader name)) = true.
Proof. reflexivity. Qed.

End HeaderFacts.

(** X22.  [parseFileName] reads back the content-disposition header that
    [handleDownload] writes: when the download of a completed job is
    answered, and the recorded name starts with [name], free of semicolons
    and double quotes and followed by nothing or by one of the two, and
    [decodeURIComponent] leaves [name] as it is, the file name parsed from
    the header of the answer is [name]. *)
Theorem download_header_parses_back (decodeURIComponent : string → Thrown + string)
    (st : SigningStore.t) (jobId : string) (job : SigningJob.t) (doc : list byte)
    (name rest : string) (resp : Response) :
  SigningStore.getJob jobId st = Some job →
  SigningJob.status job = completed →
  SigningJob.signedDocument job = Some doc →
  JsString.nullish (SigningJob.signedFileName job) (SigningJob.fileName job)
  = name +:+ rest →
  name ≠ "" →
  occurs ";" name = false →
  occurs Client.dq name = false →
  endsName rest →
  decodeURIComponent name = inr name →
  handleDownload jobId st = inr resp →
  Client.parseFileName decodeURIComponent (contentDisposition resp) = Some name.
Proof.
  intros Hjob Hstatus Hdoc Hname Hne Hsemi Hquote Hrest Hdecode.
  rewrite (handleDownload_completed st jobId job doc Hjob Hstatus Hdoc). cbn zeta.
  destruct (_ && _); [|discriminate]. intros [= <-]. cbn [contentDisposition].
  rewrite Hname.
  unfold Client.parseFileName. rewrite attachmentHeader_truthy. cbn [negb JsString.nullish].
  by rewrite fileNameMatch_attachment, Hdecode.
Qed.

Lemma download_header_parses_back_witness :
  ∃ resp,
    handleDownload "j1" completedStore = inr resp
    ∧ Client.parseFileName (λ s, inr s) (contentDisposition resp)
      = Some "report-signed.pdf".
Proof.
  assert (Hjob : SigningStore.getJob "j1" completedStore
                 = Some (SigningStore.assignCompleted samplePayload 2
                           (SigningStore.assignWorkflow "wf-1" (Some "draft") 1
                              (SigningStore.createJob "j1" 0 "report.pdf"
                                 "application/pdf" SigningStore.signingStore).1)))
    by (vm_compute; reflexivity).
  eexists. split; [vm_compute; reflexivity|].
  apply (download_header_parses_back (λ s, inr s) completedStore "j1" _
           [x25; x50; x44; x46] "report-signed.pdf" "" _ Hjob);
    try reflexivity; try discriminate; try exact I.
Defined.

(** X23.  [parseFileName] gives [undefined] for a missing header, for the empty
    header and for every header in which the word [filename] does not
    occur in any letter case. *)
Theorem parseFileName_absent (decodeURIComponent : string → Thrown + string) :
  Client.parseFileName decodeURIComponent None = None
  ∧ Client.parseFileName decodeURIComponent (Some "") = None
  ∧ ∀ disposition,
      JsString.includes (JsString.toLowerCase disposition) "filename" = false →
      Client.parseFileName decodeURIComponent (Some disposition) = None.
Proof.
  split; [done|]. split; [done|]. intros d Hnone. unfold Client.parseFileName.
  destruct (negb _); [done|]. cbn [JsString.nullish].
  by rewrite fileNameMatch_none.
Qed.

Lemma parseFileName_absent_witness :
  Client.parseFileName (λ s, inr s) (Some "inline") = None.
Proof.
  apply (proj2 (proj2 (parseFileName_absent (λ s, inr s)))). reflexivity.
Defined.

(** X24.  When [parseFileName] gives a name, the regular expression matched: the
    capture is a piece of the header, not empty and free of semicolons, and
    the name is the capture decoded, or the capture itself when
    [decodeURIComponent] throws. *)
Theorem parseFileName_result (decodeURIComponent : string → Thrown + string)
    (disposition name : string) :
  Client.parseFileName decodeURIComponent (Some disposition) = Some name →
  ∃ capture,
    Client.fileNameMatch disposition = Some capture
    ∧ capture ≠ ""
    ∧ occurs ";" capture = false
    ∧ (∃ pre post, disposition = pre +:+ capture +:+ post)
    ∧ match decodeURIComponent capture with
      | inr decoded => name = decoded
      | inl _ => name = capture
      end.
Proof.
  unfold Client.parseFileName. destruct (negb _); [discriminate|].
  cbn [JsString.nullish].
  destruct (Client.fileNameMatch disposition) as [capture|] eqn:Hmatch; [|discriminate].
  intros Hname. exists capture.
  destruct (fileNameMatch_capture disposition capture Hmatch) as (Hne & Hsemi & Hpiece).
  split; [done|]. split; [done|]. split; [done|]. split; [done|].
  destruct (decodeURIComponent capture); by injection Hname as <-.
Qed.

Lemma parseFileName_result_witness :
  ∃ capture,
    Client.fileNameMatch "attachment; filename*=UTF-8''a%ZZb.pdf; size=3" = Some capture
    ∧ occurs ";" capture = false.
Proof.
  destruct (parseFileName_result
              (λ s, if occurs "%" s then inl (ErrorObject "URI malformed") else inr s)
              "attachment; filename*=UTF-8''a%ZZb.pdf; size=3" "a%ZZb.pdf" eq_refl)
    as (capture & Hmatch & _ & Hsemi & _).
  exists capture. split; [exact Hmatch | exact Hsemi].
Defined.

(** ** Form fields, configuration and routing *)

Section TrimFacts.

Implicit Types (s t : string).

(** What [trim] gives has no white space at either end, so a further
    [trim] leaves it as it is. *)
Lemma trim_idempotent s : JsString.trim (JsString.trim s) = JsString.trim s.
Proof.
  unfold JsString.trim, JsString.trimEnd, JsString.trimStart.
  set (owt := λ b a, JsString.whiteSpace2 a b).
  set (eerht := λ c b a, JsString.whiteSpace3 a b c).
  set (one := JsString.whiteSpace1).
  set (two := JsString.whiteSpace2).
  set (three := JsString.whiteSpace3).
  set (t := JsString.strip one two three s).
  set (u := JsString.strip one owt eerht (String.rev t)).
  assert (Hstart : JsString.classAt one two three (String.rev u) = None).
  { destruct (strip_suffix one owt eerht (String.rev t)) as [pre Hpre].
    fold u in Hpre. apply (f_equal String.rev) in Hpre.
    rewrite rev_involutive_s, rev_app_s in Hpre.
    pose proof (strip_stops one two three s) as Hstops. fold t in Hstops.
    rewrite Hpre in Hstops.
    destruct (JsString.classAt one two three (String.rev u)) as [rest|] eqn:Hat; [|done].
    by rewrite (classAt_app one two three _ (String.rev pre) rest Hat) in Hstops. }
  rewrite (strip_fixed one two three _ Hstart), rev_involutive_s.
  by rewrite (strip_fixed one owt eerht u (strip_stops one owt eerht (String.rev t))).
Qed.

End TrimFacts.

(** X25.  What [getTextValue] returns is never empty, is the trimmed text of a
    string entry, and is left as it is by a further [trim]; a file entry or
    a missing entry gives [undefined]. *)
Theorem getTextValue_is_trimmed (value : option FormDataEntryValue) (text : string) :
  getTextValue value = Some text →
  text ≠ ""
  ∧ JsString.trim text = text
  ∧ ∃ s, value = Some (EntryString s) ∧ text = JsString.trim s.
Proof.
  unfold getTextValue. destruct value as [[s|file]|]; try discriminate.
  destruct (0 <? JsString.len (JsString.trim s)) eqn:Hlen; [|discriminate].
  intros [= <-]. split.
  - intros Hempty. rewrite Hempty in Hlen. discriminate Hlen.
  - split; [apply trim_idempotent | by exists s].
Qed.

Lemma getTextValue_is_trimmed_witness :
  getTextValue (Some (EntryString (noBreakSpace +:+ " ann@example.org" +:+ noBreakSpace)))
  = Some "ann@example.org"
  ∧ getTextValue (Some (EntryString noBreakSpace)) = None
  ∧ JsString.trim "ann@example.org" = "ann@example.org".
Proof.
  split; [vm_compute; reflexivity|]. split; [vm_compute; reflexivity|].
  exact (proj1 (proj2 (getTextValue_is_trimmed
                         (Some (EntryString (noBreakSpace +:+ " ann@example.org"
                                             +:+ noBreakSpace)))
                         "ann@example.org" eq_refl))).
Defined.

(** X26.  [config.ts] throws for the first of [GOODFLAG_BASE_URL],
    [GOODFLAG_API_KEY], [GOODFLAG_USER_ID] and
    [GOODFLAG_SIGNATURE_PROFILE_ID] that the environment lacks, naming it in
    the message; when the four are set the module loads, with these four
    values and the consent page as the environment has it, and no other
    variable is required. *)
Theorem config_required_variables {num : Type} (Number : string → num)
    (env : gmap string string) :
  match find (λ key, bool_decide (env !! key = None)) requiredVariables with
  | Some key =>
      Config.config Number env
      = inl (ErrorObject ("Missing required environment variable: " +:+ key))
  | None =>
      ∃ cfg, Config.config Number env = inr cfg
        ∧ env !! "GOODFLAG_BASE_URL" = Some (Config.goodflagBaseUrl cfg)
        ∧ env !! "GOODFLAG_API_KEY" = Some (Config.goodflagApiKey cfg)
        ∧ env !! "GOODFLAG_USER_ID" = Some (Config.goodflagUserId cfg)
        ∧ env !! "GOODFLAG_SIGNATURE_PROFILE_ID"
          = Some (Config.goodflagSignatureProfileId cfg)
        ∧ Config.goodflagConsentPageId cfg = env !! "GOODFLAG_CONSENT_PAGE_ID"
  end.
Proof.
  unfold requiredVariables, Config.config, Config.getEnv. cbn [find].
  destruct (env !! "GOODFLAG_BASE_URL") as [baseUrl|] eqn:H1;
    [rewrite bool_decide_eq_false_2 by done|by rewrite bool_decide_eq_true_2].
  destruct (env !! "GOODFLAG_API_KEY") as [apiKey|] eqn:H2;
    [rewrite bool_decide_eq_false_2 by done|by rewrite bool_decide_eq_true_2].
  destruct (env !! "GOODFLAG_USER_ID") as [userId|] eqn:H3;
    [rewrite bool_decide_eq_false_2 by done|by rewrite bool_decide_eq_true_2].
  destruct (env !! "GOODFLAG_SIGNATURE_PROFILE_ID") as [profileId|] eqn:H4;
    [rewrite bool_decide_eq_false_2 by done|by rewrite bool_decide_eq_true_2].
  destruct (env !! "PORT"); eexists; (split; [reflexivity|]); by cbn.
Qed.

Section RouteFacts.

Import Router.

Implicit Types (s t : string).

Lemma split_no_separator sep s : occurs sep s = false → split sep s = [s].
Proof.
  induction s as [|a s IH]; [done|]. cbn.
  intros [Ha Hs]%orb_false_iff. rewrite Ha, (IH Hs). reflexivity.
Qed.

Lemma split_segment sep s t :
  occurs sep s = false → split sep (s +:+ String sep t) = s :: split sep t.
Proof.
  induction s as [|a s IH].
  - intros _. rewrite app_empty. cbn. by rewrite Ascii.eqb_refl.
  - cbn [occurs]. intros [Ha Hs]%orb_false_iff. rewrite app_cons. cbn.
    by rewrite Ha, (IH Hs).
Qed.

(** The parts of the two job paths. *)
Lemma parts_of_status_path jobId :
  occurs "/" jobId = false → jobId ≠ "" →
  filterBoolean (split "/" ("/api/sign/" +:+ jobId)) = ["api"; "sign"; jobId].
Proof.
  intros Hslash Hne.
  change ("/api/sign/" +:+ jobId)
    with ("" +:+ String "/" ("api" +:+ String "/" ("sign" +:+ String "/" jobId))).
  rewrite !split_segment by done. rewrite split_no_separator by done.
  unfold filterBoolean.
  rewrite filter_cons_False by (intros Hempty; by apply Hempty).
  by rewrite !filter_cons_True, filter_nil by done.
Qed.

Lemma parts_of_file_path jobId :
  occurs "/" jobId = false → jobId ≠ "" →
  filterBoolean (split "/" ("/api/sign/" +:+ jobId +:+ "/file"))
  = ["api"; "sign"; jobId; "file"].
Proof.
  intros Hslash Hne.
  change ("/api/sign/" +:+ jobId +:+ "/file")
    with ("" +:+ String "/" ("api" +:+ String "/" ("sign" +:+ String "/"
            (jobId +:+ String "/" "file")))).
  rewrite !split_segment by done. rewrite split_no_separator by done.
  unfold filterBoolean.
  rewrite filter_cons_False by (intros Hempty; by apply Hempty).
  by rewrite !filter_cons_True, filter_nil by done.
Qed.

Lemma job_path_is_no_fixed_route t :
  String.eqb ("/api/sign/" +:+ t) "/healthz" = false
  ∧ String.eqb ("/api/sign/" +:+ t) "/api/sign" = false
  ∧ Client.startsWith ("/api/sign/" +:+ t) "/api/sign/" = true.
Proof.
  split; [done|]. split.
  - apply String.eqb_neq. intros Heq. apply (f_equal String.length) in Heq.
    rewrite length_app in Heq. cbn in Heq. lia.
  - unfold Client.startsWith.
    change ("/api/sign/" +:+ t)
      with (String "/" (String "a" (String "p" (String "i" (String "/" (String "s"
            (String "i" (String "g" (String "n" (String "/" t)))))))))).
    cbn. by destruct t.
Qed.

End RouteFacts.

(** X27.  A GET request for [/api/sign/<id>] is answered by [handleGetStatus]
    (run with the timer firing during its awaits) and one for
    [/api/sign/<id>/file] by [handleDownload], with that id, for every id
    that is not empty and has no slash: the answer, or what the handler
    throws, is the one of that handler. *)
Theorem job_routes {num : Type} (api : Goodflag.Api) (randomUUID : string)
    (now : nat → Z) (sweeps : nat → list Z) (uptime : num) (req : Router.Incoming)
    (st : SigningStore.t) (jobId : string) :
  Router.method req = "GET" →
  occurs "/" jobId = false →
  jobId ≠ "" →
  (Router.pathname req = "/api/sign/" +:+ jobId →
     Router.handler api randomUUID now sweeps uptime req st
     = Router.reply (handleGetStatusAmid api now sweeps jobId st))
  ∧ (Router.pathname req = "/api/sign/" +:+ jobId +:+ "/file" →
     Router.handler api randomUUID now sweeps uptime req st
     = Router.reply (handleDownload jobId st, st)).
Proof.
  intros Hget Hslash Hne. unfold Router.handler. rewrite Hget.
  change (String.eqb "GET" "OPTIONS") with false.
  change (String.eqb "GET" "POST") with false.
  change (String.eqb "GET" "GET") with true. cbn [andb].
  split; intros ->.
  - destruct (job_path_is_no_fixed_route jobId) as (-> & _ & ->).
    by rewrite parts_of_status_path.
  - destruct (job_path_is_no_fixed_route (jobId +:+ "/file")) as (-> & _ & ->).
    by rewrite parts_of_file_path.
Qed.

Lemma job_routes_witness :
  (Router.serve (sampleApi None None None) "j9" sampleClock quietTimer 0
     {| Router.method := "GET"; Router.pathname := "/api/sign/" +:+ "j1" +:+ "/file";
        Router.upload := sampleRequest |} completedStore).1
  = Router.Handled
      {| status := 200;
         contentType := "application/pdf";
         contentDisposition :=
           Some ("attachment; filename=" +:+ dquote +:+ "report-signed.pdf" +:+ dquote);
         body := BytesBody [x25; x50; x44; x46] |}.
Proof.
  unfold Router.serve.
  rewrite (proj2 (job_routes (sampleApi None None None) "j9" sampleClock quietTimer 0
                    {| Router.method := "GET";
                       Router.pathname := "/api/sign/" +:+ "j1" +:+ "/file";
                       Router.upload := sampleRequest |} completedStore "j1"
                    eq_refl eq_refl ltac:(discriminate)) eq_refl).
  reflexivity.
Defined.

(** X28.  A request whose method is not OPTIONS or GET, and which is not the POST
    of [/api/sign], is answered 404 [Not found] and leaves the store as it
    is, whatever its path. *)
Theorem other_requests_are_not_found {num : Type} (api : Goodflag.Api)
    (randomUUID : string) (now : nat → Z) (sweeps : nat → list Z) (uptime : num)
    (req : Router.Incoming) (st : SigningStore.t) :
  Router.method req ≠ "OPTIONS" →
  Router.method req ≠ "GET" →
  ¬ (Router.method req = "POST" ∧ Router.pathname req = "/api/sign") →
  Router.handler api randomUUID now sweeps uptime req st
  = (inr (Router.Handled (jsonResponse (ErrorJson "Not found") 404)), st).
Proof.
  intros Hoptions Hget Hpost. unfold Router.handler, Router.notFound.
  rewrite (proj2 (String.eqb_neq _ _) Hoptions), (proj2 (String.eqb_neq _ _) Hget).
  cbn [andb].
  destruct (String.eqb_spec (Router.method req) "POST") as [Hm|_];
    [destruct (String.eqb_spec (Router.pathname req) "/api/sign") as [Hp|_];
       [by destruct Hpost|]|]; cbn [andb];
    (destruct (Client.startsWith _ _); [|done]);
    destruct (Router.filterBoolean _) as [|? [|? [|? [|? [|? ?]]]]]; try done;
    by rewrite andb_false_r.
Qed.

Lemma other_requests_are_not_found_witness :
  (Router.serve (sampleApi None None None) "j9" sampleClock quietTimer 0
     {| Router.method := "DELETE"; Router.pathname := "/api/sign/j1";
        Router.upload := sampleRequest |} completedStore).2 = completedStore.
Proof.
  unfold Router.serve.
  rewrite (other_requests_are_not_found (sampleApi None None None) "j9" sampleClock
             quietTimer 0
             {| Router.method := "DELETE"; Router.pathname := "/api/sign/j1";
                Router.upload := sampleRequest |} completedStore);
    [reflexivity | discriminate | discriminate |].
  intros [Hpost _]. discriminate Hpost.
Defined.

(** ** From the provider to the client *)

(** X29.  The file name travels from the provider to the client: after a poll
    that finds the workflow finished, [handleDownload] answers with the
    bytes of the provider's response and with the content-disposition header
    of that response, when that header is the attachment form with a name
    free of semicolons and double quotes that [decodeURIComponent] leaves
    as it is.  The values read from the headers of the provider's response
    are header values, as [Headers.get] returns them, and the file type of
    the upload, which is served when the provider's content type is empty,
    is one [new Headers] accepts. *)
Theorem provider_file_name_is_served (decodeURIComponent : string → Thrown + string)
    (api : Goodflag.Api) (now : nat → Z) (ops : list StoreOp) (ttl : Z)
    (jobId wid ws name : string) (job : SigningJob.t)
    (remote : Goodflag.GoodflagWorkflow) (arrayBuffer : list byte)
    (headers : string → option string) :
  let st := runOps ops (SigningStore.create ttl) in
  SigningStore.getJob jobId st = Some job →
  SigningJob.status job = pending →
  SigningJob.workflowId job = Some wid →
  wid ≠ "" →
  Goodflag.fetchWorkflow api wid = inr remote →
  Goodflag.workflowStatus remote = Some ws →
  JsString.toLowerCase ws = "finished" →
  Goodflag.downloadWorkflowDocuments api wid
  = inr (downloadResult decodeURIComponent arrayBuffer headers) →
  headers "content-disposition" = Some (attachmentHeader name) →
  name ≠ "" →
  occurs ";" name = false →
  occurs Client.dq name = false →
  decodeURIComponent name = inr name →
  (∀ h v, headers h = Some v → headerValue v = inr v) →
  (∃ v, headerValue (SigningJob.fileType job) = inr v) →
  ∃ resp,
    handleDownload jobId (handleGetStatus api now jobId st).2 = inr resp
    ∧ contentDisposition resp = headers "content-disposition"
    ∧ body resp = BytesBody arrayBuffer.
Proof.
  intros st Hjob Hpending Hwid Hne Hfetch Hws Hfin Hdl Hheader Hname Hsemi Hquote
    Hdecode Hvalues [fileType Hfile].
  subst st.
  assert (Hid : SigningJob.id job = jobId).
  { by apply (runOps_keyed ops (SigningStore.create ttl) (create_keyed ttl) jobId). }
  rewrite (finished_poll_download api now jobId wid ws _ job remote _
             Hid Hjob Hpending Hwid Hne Hfetch Hws Hfin Hdl).
  cbn [downloadResult Goodflag.fileName Goodflag.bytes Goodflag.contentType].
  assert (Hparsed : Client.parseFileName decodeURIComponent
                      (headers "content-disposition") = Some name).
  { rewrite Hheader. unfold Client.parseFileName.
    rewrite attachmentHeader_truthy. cbn [negb JsString.nullish].
    rewrite <- (app_empty_r name) at 1.
    rewrite fileNameMatch_attachment by done. by rewrite Hdecode. }
  rewrite Hparsed. cbn zeta.
  assert (Haccepts : ∀ v w, headerValue v = inr w →
                            byteString v && clean (httpTrim v) = true).
  { intros v w (_ & -> & ->)%headerValue_inr. done. }
  assert (Hnamed : byteString name && clean name = true).
  { pose proof (Hvalues _ _ Hheader) as Hvalue.
    rewrite headerValue_attachment in Hvalue.
    by destruct (byteString name && clean name). }
  assert (Htyped :
    let type := if decide (JsString.nullish (headers "content-type") "application/pdf"
                           = "")
                then (if decide (SigningJob.fileType job = "")
                      then "application/pdf" else SigningJob.fileType job)
                else JsString.nullish (headers "content-type") "application/pdf" in
    byteString type && clean (httpTrim type) = true).
  { cbn zeta. case_decide as Hempty.
    - case_decide; [done | by apply (Haccepts _ fileType)].
    - destruct (headers "content-type") as [v|] eqn:Hv; [|done].
      apply (Haccepts v v), (Hvalues "content-type" v Hv). }
  cbn zeta in Htyped. rewrite <- andb_assoc, Htyped, Hnamed.
  eexists. split; [reflexivity|]. cbn. by rewrite Hheader.
Qed.

(** What [handleDownload] throws is the [TypeError] of [new Headers], on
    the headers of a completed job that has its signed document; what it
    answers is not the internal error. *)
Lemma handleDownload_answer jobId st :
  match handleDownload jobId st with
  | inr resp => status resp ≠ 500
  | inl e => e = invalidHeader
             ∧ ∃ job doc, SigningStore.getJob jobId st = Some job
                          ∧ SigningJob.status job = completed
                          ∧ SigningJob.signedDocument job = Some doc
  end.
Proof.
  destruct (SigningStore.getJob jobId st) as [job|] eqn:Hjob.
  2: { unfold handleDownload. by rewrite Hjob. }
  destruct (decide (SigningJob.status job = completed)) as [Hstatus|Hstatus].
  2: { unfold handleDownload. rewrite Hjob. by rewrite bool_decide_eq_false_2. }
  destruct (SigningJob.signedDocument job) as [doc|] eqn:Hdoc.
  2: { unfold handleDownload. rewrite Hjob, Hdoc. by rewrite orb_true_r. }
  rewrite (handleDownload_completed st jobId job doc Hjob Hstatus Hdoc). cbn zeta.
  destruct (_ && _); [done|]. split; [done|]. by exists job, doc.
Qed.

(** X30.  On a store reached from the empty store by store calls, the server
    answers 500 [Internal server error] in three cases only: a POST of
    [/api/sign] whose [req.formData()] rejected; a GET of the file of a
    completed job whose content type or name [new Headers] rejects; a GET
    of the status of a job that the timer swept away while the poll awaited
    the provider.  In the first two the store is untouched.  No failure of
    the provider, and no other route, ends in the [catch] of the
    [Deno.serve] callback. *)
Theorem internal_error_causes {num : Type} (api : Goodflag.Api)
    (randomUUID : string) (now : nat → Z) (sweeps : nat → list Z) (uptime : num)
    (req : Router.Incoming) (ops : list StoreOp) (ttl : Z) :
  let st := runOps ops (SigningStore.create ttl) in
  (Router.serve api randomUUID now sweeps uptime req st).1
  = Router.Handled (jsonResponse (ErrorJson "Internal server error") 500) →
  (Router.method req = "POST"
   ∧ Router.pathname req = "/api/sign"
   ∧ (∃ e, formData (Router.upload req) = inl e)
   ∧ (Router.serve api randomUUID now sweeps uptime req st).2 = st)
  ∨ (Router.method req = "GET"
     ∧ ∃ first second jobId job doc,
         Router.filterBoolean (Router.split "/" (Router.pathname req))
         = [first; second; jobId; "file"]
         ∧ SigningStore.getJob jobId st = Some job
         ∧ SigningJob.status job = completed
         ∧ SigningJob.signedDocument job = Some doc
         ∧ handleDownload jobId st = inl invalidHeader
         ∧ (Router.serve api randomUUID now sweeps uptime req st).2 = st)
  ∨ (Router.method req = "GET"
     ∧ ∃ first second jobId,
         Router.filterBoolean (Router.split "/" (Router.pathname req))
         = [first; second; jobId]
         ∧ (handleGetStatusAmid api now sweeps jobId st).1 = inl typeError
         ∧ is_Some (SigningStore.getJob jobId st)
         ∧ SigningStore.getJob jobId
             (Router.serve api randomUUID now sweeps uptime req st).2 = None
         ∧ (sweeps 0%nat ≠ [] ∨ sweeps 1%nat ≠ [])).
Proof.
  intros st. unfold Router.serve, Router.handler, Router.notFound, Router.reply.
  destruct (String.eqb (Router.method req) "OPTIONS"); [discriminate|].
  destruct (String.eqb (Router.method req) "GET" && _); [discriminate|].
  destruct (String.eqb (Router.method req) "POST"
            && String.eqb (Router.pathname req) "/api/sign") eqn:Hsign.
  - apply andb_true_iff in Hsign as [Hpost%String.eqb_eq Hpath%String.eqb_eq].
    pose proof (handleSign_answers api randomUUID now (Router.upload req) st) as Hout.
    destruct (handleSign api randomUUID now (Router.upload req) st) as [[e|resp] st'].
    + destruct Hout as [Hform ->]. cbn. intros _. left. repeat split; try done.
      by exists e.
    + cbn. intros [= ->]. by destruct Hout.
  - clear Hsign. destruct (Client.startsWith _ _); [|discriminate].
    destruct (Router.filterBoolean _) as [|first [|second [|jobId [|last [|? ?]]]]];
      try discriminate.
    + destruct (String.eqb_spec (Router.method req) "GET") as [Hget|_]; [|discriminate].
      pose proof (handleGetStatusAmid_outcome api now sweeps jobId st) as Hout.
      destruct (handleGetStatusAmid api now sweeps jobId st) as [[e|resp] st'] eqn:Hrun;
        cbn [fst snd] in *.
      * intros _. right. right. split; [done|]. exists first, second, jobId.
        split; [done|].
        destruct (handleGetStatusAmid_swept api now sweeps jobId st e)
          as (-> & Hheld & Hlost & Hfired);
          [apply runOps_keyed, create_keyed | by rewrite Hrun |].
        destruct Hout as (_ & _ & Hgone). rewrite Hrun. cbn [fst]. done.
      * intros [= ->]. destruct (SigningStore.getJob jobId st); discriminate Hout.
    + destruct (String.eqb_spec last "file") as [->|_]; [|discriminate].
      destruct (String.eqb_spec (Router.method req) "GET") as [Hget|_]; [|discriminate].
      cbn [andb fst snd].
      pose proof (handleDownload_answer jobId st) as Hout.
      destruct (handleDownload jobId st) as [e|resp] eqn:Hrun.
      * destruct Hout as (-> & job & doc & Hjob & Hstatus & Hdoc).
        intros _. right. left. split; [done|].
        by exists first, second, jobId, job, doc.
      * intros [= ->]. by destruct Hout.
Qed.

Lemma internal_error_causes_witness :
  (Router.serve (sampleApi None None None) "j9" sampleClock quietTimer 0
     {| Router.method := "GET"; Router.pathname := "/api/sign/j1/file";
        Router.upload := sampleRequest |} unicodeStore).1
  = Router.Handled (jsonResponse (ErrorJson "Internal server error") 500)
  ∧ handleDownload "j1" unicodeStore = inl invalidHeader.
Proof.
  split; [vm_compute; reflexivity|].
  destruct (internal_error_causes (sampleApi None None None) "j9" sampleClock
              quietTimer 0
              {| Router.method := "GET"; Router.pathname := "/api/sign/j1/file";
                 Router.upload := sampleRequest |}
              [OpCreateJob "j1" 0 "日本語.pdf" "application/pdf";
               OpCompleteJob "j1" samplePayload 2]
              SigningStore.ONE_HOUR eq_refl)
    as [(Hpost & _)|[(_ & first & second & jobId & job & doc & Hparts & _ & _ & _
                      & Hthrows & _)
                    |(_ & first & second & jobId & Hparts & _)]].
  - discriminate Hpost.
  - vm_compute in Hparts. injection Hparts as _ _ <-. exact Hthrows.
  - vm_compute in Hparts. discriminate Hparts.
Defined.

Lemma provider_file_name_is_served_witness :
  ∃ resp,
    handleDownload "j1" (handleGetStatus namingApi sampleClock "j1" startedStore).2
    = inr resp
    ∧ contentDisposition resp = Some (attachmentHeader "signed.pdf")
    ∧ body resp = BytesBody [x25; x50; x44; x46].
Proof.
  assert (Hjob : SigningStore.getJob "j1"
                   (runOps [OpCreateJob "j1" 0 "report.pdf" "application/pdf";
                            OpSetWorkflow "j1" "wf-1" (Some "draft") 1]
                           (SigningStore.create SigningStore.ONE_HOUR))
                 = Some (SigningStore.assignWorkflow "wf-1" (Some "draft") 1
                           (SigningStore.createJob "j1" 0 "report.pdf"
                              "application/pdf" SigningStore.signingStore).1))
    by (vm_compute; reflexivity).
  assert (Hwid : "wf-1" ≠ "") by discriminate.
  assert (Hname : "signed.pdf" ≠ "") by discriminate.
  assert (Hvalues : ∀ h v, sampleHeaders h = Some v → headerValue v = inr v).
  { intros h v. unfold sampleHeaders.
    destruct (String.eqb h "content-disposition"); [|discriminate].
    intros [= <-]. vm_compute. reflexivity. }
  assert (Hfile : ∃ v, headerValue "application/pdf" = inr v)
    by (eexists; vm_compute; reflexivity).
  exact (provider_file_name_is_served (λ s, inr s) namingApi sampleClock _ _
           "j1" "wf-1" "finished" "signed.pdf" _
           {| Goodflag.id := "wf-1"; Goodflag.workflowStatus := Some "finished" |}
           [x25; x50; x44; x46] sampleHeaders
           Hjob eq_refl eq_refl Hwid eq_refl eq_refl eq_refl eq_refl
           eq_refl Hname eq_refl eq_refl eq_refl Hvalues Hfile).
Defined.
